(** * Xorion explorer: the network connection store and the balance formatters

    A shallow embedding of the client-side store of the Xorion explorer
    (the polkadot store module and [src/lib/utils.ts]) and the properties
    that its specification states about it.

    Conventions of the embedding:
    - a JavaScript string is a [string] of 8-bit code units; the character
      classes used by the code ([\s], [toLowerCase], digits) are the ASCII ones;
    - a call that may throw returns a [js] value: [Returns v] or [Throws msg];
    - a promise is modelled by the value it settles to, a rejection being
      [Throws]; the event loop is modelled by atomic steps between awaits;
    - an IEEE-754 double is a [spec_float] with [prec = 53], [emax = 1024]. *)

From Stdlib Require Import ZArith List String Ascii Bool Lia DecimalString.
From Stdlib Require Import SpecFloat.
From Stdlib Require Import Sorted Permutation.
From Stdlib Require HexadecimalString DecimalFacts DecimalPos DecimalN DecimalZ.
Import ListNotations.

Local Open Scope string_scope.
Local Open Scope Z_scope.

(** ** Results of calls that may throw *)

Inductive js (A : Type) : Type :=
| Returns (a : A)
| Throws (message : string).

Arguments Returns {A} a.
Arguments Throws {A} message.

Definition bind {A B} (m : js A) (k : A -> js B) : js B :=
  match m with
  | Returns a => k a
  | Throws e => Throws e
  end.

(** [try { body } catch (error) { handler }] *)
Definition tryCatch {A} (body : js A) (handler : string -> js A) : js A :=
  match body with
  | Returns a => Returns a
  | Throws e => handler e
  end.

Declare Scope js_scope.
Delimit Scope js_scope with js.
Notation "x <- m ;; k" := (bind m (fun x => k))
  (at level 61, m at next level, right associativity) : js_scope.

(** ** JavaScript string primitives used by the store *)

Module JsString.

Definition code (c : ascii) : Z := Z.of_nat (nat_of_ascii c).

Definition isDigit (c : ascii) : bool := (48 <=? code c) && (code c <=? 57).

Definition isUpper (c : ascii) : bool := (65 <=? code c) && (code c <=? 90).

(** the ASCII members of the [\s] class *)
Definition isWhitespace (c : ascii) : bool :=
  ((9 <=? code c) && (code c <=? 13)) || (code c =? 32).

(** the characters on which the classes and the case mapping of this module
    are those of the language *)
Definition isAscii (c : ascii) : bool := code c <? 128.

Definition toLowerChar (c : ascii) : ascii :=
  if isUpper c then ascii_of_nat (nat_of_ascii c + 32) else c.

Fixpoint toLowerCase (s : string) : string :=
  match s with
  | EmptyString => EmptyString
  | String c rest => String (toLowerChar c) (toLowerCase rest)
  end.

(** [s.startsWith(p)] *)
Definition startsWith (s p : string) : bool := String.prefix p s.

(** [s.includes(sub)] *)
Fixpoint includes (s sub : string) : bool :=
  match s with
  | EmptyString => String.prefix sub EmptyString
  | String _ rest => String.prefix sub s || includes rest sub
  end.

(** [s.replace(/c/g, "")] for a character class [c] *)
Fixpoint removeAll (p : ascii -> bool) (s : string) : string :=
  match s with
  | EmptyString => EmptyString
  | String c rest => if p c then removeAll p rest else String c (removeAll p rest)
  end.

Fixpoint trimStart (s : string) : string :=
  match s with
  | EmptyString => EmptyString
  | String c rest => if isWhitespace c then trimStart rest else s
  end.

Fixpoint rev (s : string) : string :=
  match s with
  | EmptyString => EmptyString
  | String c rest => rev rest ++ String c EmptyString
  end.

Definition trimEnd (s : string) : string := rev (trimStart (rev s)).

(** [s.trim()] *)
Definition trim (s : string) : string := trimEnd (trimStart s).

Fixpoint drop (n : nat) (s : string) : string :=
  match n, s with
  | O, _ => s
  | S _, EmptyString => EmptyString
  | S n', String _ rest => drop n' rest
  end.

(** [s.replace(pat, "")] with a string pattern: the first occurrence only *)
Fixpoint removeFirst (pat s : string) : string :=
  if String.prefix pat s then drop (String.length pat) s
  else match s with
       | EmptyString => EmptyString
       | String c rest => String c (removeFirst pat rest)
       end.

Fixpoint repeat (c : ascii) (n : nat) : string :=
  match n with
  | O => EmptyString
  | S n' => String c (repeat c n')
  end.

(** [s.padStart(n, "0")] *)
Definition padStart (n : nat) (c : ascii) (s : string) : string :=
  repeat c (n - String.length s) ++ s.

(** [s.slice(0, n)] *)
Fixpoint take (n : nat) (s : string) : string :=
  match n, s with
  | O, _ => EmptyString
  | S _, EmptyString => EmptyString
  | S n', String c rest => String c (take n' rest)
  end.

(** [s.replace(/0+$/, "")] *)
Fixpoint stripTrailingZeros (s : string) : string :=
  match s with
  | EmptyString => EmptyString
  | String c rest =>
      match stripTrailingZeros rest with
      | EmptyString => if Ascii.eqb c "0" then EmptyString else String c EmptyString
      | r => String c r
      end
  end.

(** the text before the first ["."] *)
Fixpoint integerPart (s : string) : string :=
  match s with
  | EmptyString => EmptyString
  | String c rest => if Ascii.eqb c "." then EmptyString else String c (integerPart rest)
  end.

(** the value of a string of decimal digits, most significant first *)
Fixpoint decimalValueFrom (acc : Z) (s : string) : Z :=
  match s with
  | EmptyString => acc
  | String c rest => decimalValueFrom (acc * 10 + (code c - 48)) rest
  end.

Definition decimalValue (s : string) : Z := decimalValueFrom 0 s.

Fixpoint allChars (p : ascii -> bool) (s : string) : bool :=
  match s with
  | EmptyString => true
  | String c rest => p c && allChars p rest
  end.

(** a valid decimal integer: one or more decimal digits *)
Definition isDecimalString (s : string) : bool :=
  negb (s =? EmptyString)%string && allChars isDigit s.

End JsString.

(** ** The part of bn.js that the store uses

    [new BN(string)] in base 10 as bn.js 5 does it: white space is removed, a
    leading ["-"] is the sign, and every other character must be a decimal
    digit, otherwise the constructor's assertion fails with
    ["Invalid character"]. A big number is its value in [Z]. *)

Module BN.

Fixpoint parseBase (s : string) (r : Z) : js Z :=
  match s with
  | EmptyString => Returns r
  | String ch rest =>
      let c := JsString.code ch - 48 in
      let b := if 49 <=? c then c - 49 + 10
               else if 17 <=? c then c - 17 + 10
               else c in
      if (0 <=? c) && (b <? 10) then parseBase rest (r * 10 + b)
      else Throws "Invalid character"
  end.

(** [new BN(number)] parses what follows the sign, [if (start <
    number.length)]. When nothing follows it, the number is left without
    words: arithmetic takes it for zero, but [toString] of it or of its
    remainder does not return, since its loop waits for [isZero], which asks
    for one word. *)
Definition leavesNoWords (number : string) : bool :=
  match JsString.removeAll JsString.isWhitespace number with
  | EmptyString => true
  | String "-" EmptyString => true
  | _ => false
  end.

(** [new BN(number)] in base 10, as the arithmetic sees it: a text of
    [leavesNoWords] gives the zero for which its number is taken *)
Definition ofString (number : string) : js Z :=
  let number := JsString.removeAll JsString.isWhitespace number in
  match number with
  | String "-" rest => bind (parseBase rest 0) (fun v => Returns (- v))
  | _ => parseBase number 0
  end.

(** [bn.toString()] in base 10 *)
Definition toString (bn : Z) : string := NilZero.string_of_int (Z.to_int bn).

(** [bn.div(d)] truncates towards zero; [bn.mod(d)] has the sign of [bn] *)
Definition div (bn d : Z) : Z := Z.quot bn d.
Definition mod_ (bn d : Z) : Z := Z.rem bn d.

End BN.

(** ** Chain data as the store sees it through the RPC client *)

Module Chain.

(** [toHuman()] output, kept as its JSON text *)
Definition AnyJson := string.

(** a decoded value: what [toString()] and [toHuman()] give *)
Record Codec := { toString : string; toHuman : AnyJson }.

Definition Hash := list Byte.byte.

Definition hexChar (n : N) : ascii :=
  match String.get (N.to_nat n) "0123456789abcdef" with
  | Some c => c
  | None => "0"%char
  end.

Fixpoint hexOfBytes (bs : list Byte.byte) : string :=
  match bs with
  | [] => EmptyString
  | b :: rest =>
      String (hexChar (N.div (Byte.to_N b) 16))
        (String (hexChar (N.modulo (Byte.to_N b) 16)) (hexOfBytes rest))
  end.

(** [hash.toHex()] *)
Definition toHex (h : Hash) : string := "0x" ++ hexOfBytes h.

Record Extrinsic := {
  hash : Hash;
  section : string;
  method : string;
  args : list Codec;
  signer : option Codec;
  nonce : option Z;
  tip : option Codec;
  era : option Z;
  signature : option Codec
}.

Inductive Phase :=
| ApplyExtrinsic (index : nat)
| Finalization
| Initialization.

Record Event := {
  eventSection : string;
  eventMethod : string;
  data : list Codec;
  dataHuman : AnyJson
}.

Record EventRecord := { phase : Phase; event : Event }.

Record SignedBlock := {
  extrinsics : list Extrinsic;
  number : Z;
  jsonLength : nat
}.

(** The RPC client. A request is the value its promise settles to.
    An event guard [api.events.<pallet>?.<Event>?.is] is [None] when the
    runtime has no such pallet or event. *)
Record ApiPromise := {
  getFinalizedHead : js Hash;
  getHeader : Hash -> js Z;
  getBlockHash : Z -> js Hash;
  getBlock : Hash -> js SignedBlock;
  eventsAt : Hash -> js (list EventRecord);
  isExtrinsicFailed : Event -> bool;
  isBalancesTransfer : option (Event -> bool);
  isCurrenciesTransferred : option (Event -> bool);
  isTokensTransfer : option (Event -> bool);
  isAssetsTransferred : option (Event -> bool);
  isBalancesWithdraw : option (Event -> bool);
  isTransactionFeePaid : option (Event -> bool)
}.

(** [guard?.is(event)]: [undefined] is falsy *)
Definition is_ (guard : option (Event -> bool)) (e : Event) : bool :=
  match guard with
  | Some p => p e
  | None => false
  end.

End Chain.

(** ** The store: formatting, transfer detection, fees *)

Module Store.
Import Chain.

(** [formatTxor] of the store: the compact formatter, on the texts on which
    the call ends (see [formatTxorHangs] below for the others) *)
Definition formatTxor (rawBalance : string) (decimals : nat) : js string :=
  if ((rawBalance =? EmptyString) || (rawBalance =? "0"))%string then Returns "0"%string
  else
    (bn <- BN.ofString rawBalance ;;
     let divisor := 10 ^ Z.of_nat decimals in
     let whole := BN.toString (BN.div bn divisor) in
     let fraction :=
       JsString.stripTrailingZeros
         (JsString.take 4
            (JsString.padStart decimals "0" (BN.toString (BN.mod_ bn divisor)))) in
     Returns (if (fraction =? EmptyString)%string then whole
              else whole ++ "." ++ fraction)%string)%js.

(** the texts on which a call of [formatTxor] does not end: they pass the
    guard and leave the number without words, so [toString] of the remainder
    runs until the memory is used up. [formatTxor] gives the outcome of the
    calls that end; what is stated of a call that must end keeps to the texts
    that are not of this kind. *)
Definition formatTxorHangs (rawBalance : string) : bool :=
  negb ((rawBalance =? EmptyString) || (rawBalance =? "0"))%string
  && BN.leavesNoWords rawBalance.

Inductive DecodedData :=
| CallData (section method : string) (args : list AnyJson)
| TransferEventData (eventSection eventMethod : string) (eventData : AnyJson)
| StakingData (section method : string) (args : list AnyJson).

Record TransferInfo := {
  isTransfer : bool;
  from : option string;
  to : option string;
  amount : option string;
  asset : string;
  decodedData : option DecodedData
}.

Definition transferMethods : list string :=
  ["transfer"; "transferKeepAlive"; "transferAll"; "forceTransfer";
   "transferAllowDeath"; "transferWithFee"]%string.

Definition stakingMethods : list string :=
  ["bond"; "bondExtra"; "unbond"; "withdrawUnbonded"; "nominate"; "chill"]%string.

Definition isTransferPallet (section : string) : bool :=
  ((section =? "balances") || (section =? "currencies") ||
   (section =? "tokens") || (section =? "assets"))%string.

Definition isTransferMethod (method : string) : bool :=
  existsb (fun tm => JsString.includes (JsString.toLowerCase method)
                       (JsString.toLowerCase tm)) transferMethods.

(** the filter predicate of "Method 2" *)
Definition isTransferEvent (api : ApiPromise) (r : EventRecord) : bool :=
  let e := event r in
  is_ (isBalancesTransfer api) e ||
  is_ (isCurrenciesTransferred api) e ||
  is_ (isTokensTransfer api) e ||
  is_ (isAssetsTransferred api) e ||
  ((eventSection e =? "balances") && (eventMethod e =? "Transfer"))%string ||
  ((eventSection e =? "currencies") && (eventMethod e =? "Transferred"))%string ||
  ((eventSection e =? "tokens") && (eventMethod e =? "Transfer"))%string ||
  ((eventSection e =? "assets") && (eventMethod e =? "Transferred"))%string.

(** Method 1: check by extrinsic method *)
Definition detectByMethod (extrinsic : Extrinsic) (info : TransferInfo) : TransferInfo :=
  if isTransferPallet (section extrinsic) && isTransferMethod (method extrinsic) then
    let '(to', amount') :=
      match args extrinsic with
      | a0 :: a1 :: _ => (Some (toString a0), Some (toString a1))
      | _ => (to info, amount info)
      end in
    {| isTransfer := true;
       from := option_map toString (signer extrinsic);
       to := to';
       amount := amount';
       asset := asset info;
       decodedData := Some (CallData (section extrinsic) (method extrinsic)
                              (map toHuman (args extrinsic))) |}
  else info.

(** Method 2: check by events *)
Definition detectByEvents (api : ApiPromise) (events : list EventRecord)
    (info : TransferInfo) : TransferInfo :=
  match filter (isTransferEvent api) events with
  | [] => info
  | first :: _ =>
      let transferEvent := event first in
      let '(from', to', amount') :=
        match data transferEvent with
        | d0 :: d1 :: d2 :: _ =>
            (Some (toString d0), Some (toString d1), Some (toString d2))
        | _ => (from info, to info, amount info)
        end in
      {| isTransfer := true;
         from := from';
         to := to';
         amount := amount';
         asset := asset info;
         decodedData := Some (TransferEventData (eventSection transferEvent)
                                (eventMethod transferEvent) (dataHuman transferEvent)) |}
  end.

(** Method 3: staking operations *)
Definition detectStaking (extrinsic : Extrinsic) (info : TransferInfo) : TransferInfo :=
  if ((section extrinsic =? "staking")%string
      && existsb (String.eqb (method extrinsic)) stakingMethods) then
    {| isTransfer := isTransfer info;
       from := from info;
       to := to info;
       amount := amount info;
       asset := asset info;
       decodedData := Some (StakingData (section extrinsic) (method extrinsic)
                              (map toHuman (args extrinsic))) |}
  else info.

Definition initialTransferInfo : TransferInfo :=
  {| isTransfer := false; from := None; to := None; amount := None;
     asset := "XOR"; decodedData := None |}.

Definition detectTransferFromExtrinsic (extrinsic : Extrinsic)
    (events : list EventRecord) (api : ApiPromise) : TransferInfo :=
  detectStaking extrinsic
    (detectByEvents api events
       (detectByMethod extrinsic initialTransferInfo)).

Definition isFeeEvent (api : ApiPromise) (r : EventRecord) : bool :=
  let e := event r in
  is_ (isBalancesWithdraw api) e ||
  is_ (isTransactionFeePaid api) e ||
  ((eventSection e =? "balances") && (eventMethod e =? "Withdraw"))%string ||
  ((eventSection e =? "transactionPayment")
   && (eventMethod e =? "TransactionFeePaid"))%string.

Definition calculateTransactionFee (events : list EventRecord) (api : ApiPromise)
    : string :=
  match filter (isFeeEvent api) events with
  | [] => "0"%string
  | first :: _ =>
      match List.rev (data (event first)) with
      | [] => "0"%string
      | final :: _ => toString final
      end
  end.

(** *** Recent transaction activity *)

(** [new Date(Number(text))] *)
Inductive Date := DateOfNumber (text : string).

Record TransactionEvent := {
  txPhase : string;
  txEventSection : string;
  txEventMethod : string;
  txEventData : AnyJson
}.

Record Transaction := {
  txHash : string;
  blockNumber : Z;
  blockHash : string;
  index : nat;
  txMethod : string;
  txSection : string;
  txSigner : string;
  timestamp : option Date;
  success : bool;
  fee : string;
  txArgs : list string;
  txIsTransfer : bool;
  transferFrom : option string;
  transferTo : option string;
  transferAmount : option string;
  transferAsset : string;
  events : list TransactionEvent;
  txDecodedData : option DecodedData
}.

Record Block := {
  height : Z;
  blockHashHex : string;
  blockTimestamp : option Date;
  txCount : nat;
  proposer : string;
  size : string
}.

Record TransactionData := {
  transactions : list Transaction;
  blocks : list Block;
  lastUpdated : Z
}.

(** [value || fallback] on strings *)
Definition orElse (value : option string) (fallback : string) : string :=
  match value with
  | Some s => if (s =? EmptyString)%string then fallback else s
  | None => fallback
  end.

(** [text] between double quotes *)
Definition quoted (text : string) : string :=
  String (ascii_of_nat 34) (text ++ String (ascii_of_nat 34) EmptyString).

Definition phaseToString (p : Phase) : string :=
  match p with
  | ApplyExtrinsic i =>
      "{" ++ quoted "applyExtrinsic" ++ ":" ++ BN.toString (Z.of_nat i) ++ "}"
  | Finalization => "Finalization"
  | Initialization => "Initialization"
  end.

Definition appliesTo (index : nat) (r : EventRecord) : bool :=
  match phase r with
  | ApplyExtrinsic i => Nat.eqb i index
  | _ => false
  end.

Definition summarizeEvent (r : EventRecord) : TransactionEvent :=
  {| txPhase := orElse (Some (phaseToString (phase r))) "Unknown";
     txEventSection := eventSection (event r);
     txEventMethod := eventMethod (event r);
     txEventData := dataHuman (event r) |}.

(** the block's [timestamp.set] call, if any; its first argument is read
    without a check, so a call without arguments throws *)
Definition blockTimestampOf (extrinsics : list Extrinsic) : js (option Date) :=
  match find (fun ext => ((section ext =? "timestamp")
                          && (method ext =? "set"))%string) extrinsics with
  | None => Returns None
  | Some timestampExtrinsic =>
      match args timestampExtrinsic with
      | [] => Throws "Cannot read properties of undefined (reading 'toString')"
      | timestampArg :: _ => Returns (Some (DateOfNumber (toString timestampArg)))
      end
  end.

(** the body of the [forEach] callback of one extrinsic *)
Definition buildTransaction (api : ApiPromise) (blockNumber : Z)
    (blockHashHex : string) (timestamp : option Date)
    (events : list EventRecord) (index : nat) (extrinsic : Extrinsic)
    : js Transaction :=
  let txHash := toHex (hash extrinsic) in
  let extrinsicEvents := filter (appliesTo index) events in
  let success :=
    negb (existsb (fun r => isExtrinsicFailed api (event r)) extrinsicEvents) in
  let transferInfo := detectTransferFromExtrinsic extrinsic extrinsicEvents api in
  let fee := calculateTransactionFee extrinsicEvents api in
  (fee' <- formatTxor fee 18 ;;
   amount' <- match amount transferInfo with
              | Some a => if (a =? EmptyString)%string then Returns None
                          else bind (formatTxor a 18) (fun s => Returns (Some s))
              | None => Returns None
              end ;;
   Returns
     {| txHash := txHash;
        blockNumber := blockNumber;
        blockHash := blockHashHex;
        index := index;
        txMethod := method extrinsic;
        txSection := section extrinsic;
        txSigner := orElse (option_map toString (signer extrinsic)) "System";
        timestamp := timestamp;
        success := success;
        fee := fee';
        txArgs := map (fun arg => JsString.take 50 (toString arg)) (args extrinsic);
        txIsTransfer := isTransfer transferInfo;
        transferFrom := from transferInfo;
        transferTo := to transferInfo;
        transferAmount := amount';
        transferAsset := asset transferInfo;
        events := map summarizeEvent extrinsicEvents;
        txDecodedData := decodedData transferInfo |})%js.

(** the two arrays that the processing loop fills by [push] *)
Record Collected := {
  collectedBlocks : list Block;
  collectedTransactions : list Transaction
}.

Definition pushBlock (b : Block) (acc : Collected) : Collected :=
  {| collectedBlocks := collectedBlocks acc ++ [b];
     collectedTransactions := collectedTransactions acc |}.

Definition pushTransaction (t : Transaction) (acc : Collected) : Collected :=
  {| collectedBlocks := collectedBlocks acc;
     collectedTransactions := collectedTransactions acc ++ [t] |}.

(** [extrinsics.forEach((extrinsic, index) => ...)]: what was pushed before a
    throw stays pushed *)
Fixpoint forEachExtrinsic (api : ApiPromise) (blockNumber : Z)
    (blockHashHex : string) (timestamp : option Date) (events : list EventRecord)
    (index : nat) (extrinsics : list Extrinsic) (acc : Collected)
    : Collected * js unit :=
  match extrinsics with
  | [] => (acc, Returns tt)
  | extrinsic :: rest =>
      match buildTransaction api blockNumber blockHashHex timestamp events
              index extrinsic with
      | Throws e => (acc, Throws e)
      | Returns transaction =>
          forEachExtrinsic api blockNumber blockHashHex timestamp events
            (S index) rest (pushTransaction transaction acc)
      end
  end.

(** the body of the [try] of step 3, for one pre-fetched block *)
Definition processBlock (api : ApiPromise) (blockNumber : Z)
    (blockHash : option Hash) (signedBlock : SignedBlock)
    (events : list EventRecord) (acc : Collected) : Collected * js unit :=
  match blockTimestampOf (extrinsics signedBlock) with
  | Throws e => (acc, Throws e)
  | Returns timestamp =>
      match blockHash with
      | None => (acc, Throws "Cannot read properties of null (reading 'toHex')")
      | Some h =>
          let acc1 :=
            pushBlock
              {| height := blockNumber;
                 blockHashHex := toHex h;
                 blockTimestamp := timestamp;
                 txCount := List.length (extrinsics signedBlock);
                 proposer := "Unknown";
                 size := BN.toString (Z.of_nat (jsonLength signedBlock)) |} acc in
          forEachExtrinsic api blockNumber (toHex h) timestamp events
            0 (extrinsics signedBlock) acc1
      end
  end.

(** step 1: a failed hash lookup gives [null] *)
Definition fetchBlockHash (api : ApiPromise) (number : Z) : option Hash :=
  match getBlockHash api number with
  | Returns h => Some h
  | Throws _ => None
  end.

(** step 2: the block and its events, [null] when either request fails *)
Definition fetchBlockAndEvents (api : ApiPromise) (hash : option Hash)
    : option (SignedBlock * list EventRecord) :=
  match hash with
  | None => None
  | Some h =>
      match getBlock api h, eventsAt api h with
      | Returns block, Returns events => Some (block, events)
      | _, _ => None
      end
  end.

(** step 3: the loop over the pre-fetched data; a throw in one block is caught
    and logged *)
Fixpoint processBlocks (api : ApiPromise)
    (entries : list (Z * (option Hash * option (SignedBlock * list EventRecord))))
    (acc : Collected) : Collected :=
  match entries with
  | [] => acc
  | (blockNumber, (blockHash, None)) :: rest => processBlocks api rest acc
  | (blockNumber, (blockHash, Some (signedBlock, events))) :: rest =>
      processBlocks api rest
        (fst (processBlock api blockNumber blockHash signedBlock events acc))
  end.

(** [list.sort((a, b) => b.blockNumber - a.blockNumber)]: stable, descending *)
Fixpoint insertByBlockNumber (t : Transaction) (sorted : list Transaction)
    : list Transaction :=
  match sorted with
  | [] => [t]
  | u :: rest =>
      if blockNumber t <? blockNumber u then u :: insertByBlockNumber t rest
      else t :: sorted
  end.

Definition sortByBlockNumberDesc (l : list Transaction) : list Transaction :=
  fold_right insertByBlockNumber [] l.

Definition emptyTransactionData (now : Z) : TransactionData :=
  {| transactions := []; blocks := []; lastUpdated := now |}.

(** the five most recent heights, clamped at zero *)
Definition recentBlockNumbers (latestBlockNumber : Z) : list Z :=
  filter (fun n => 0 <=? n)
    (map (fun i => latestBlockNumber - Z.of_nat i) (seq 0 5)).

(** everything after the block numbers are known *)
Definition collectBlocks (api : ApiPromise) (blockNumbers : list Z) : Collected :=
  let blockHashes := map (fetchBlockHash api) blockNumbers in
  let blocksAndEvents := map (fetchBlockAndEvents api) blockHashes in
  processBlocks api
    (combine blockNumbers (combine blockHashes blocksAndEvents))
    {| collectedBlocks := []; collectedTransactions := [] |}.

Definition resultOf (acc : Collected) (now : Z) : TransactionData :=
  {| transactions :=
       sortByBlockNumberDesc (firstn 100 (collectedTransactions acc));
     blocks := collectedBlocks acc;
     lastUpdated := now |}.

(** [now] is the value of [Date.now()] *)
Definition fetchEnhancedTransactionData (api : ApiPromise) (now : Z)
    : js TransactionData :=
  match getFinalizedHead api with
  | Throws _ => Returns (emptyTransactionData now)
  | Returns finalizedHead =>
      match getHeader api finalizedHead with
      | Throws _ => Returns (emptyTransactionData now)
      | Returns latestBlockNumber =>
          Returns (resultOf (collectBlocks api (recentBlockNumbers latestBlockNumber)) now)
      end
  end.

(** *** Transaction lookup by hash *)

Record TransactionDetails := {
  detailHash : string;
  detailBlockNumber : Z;
  detailBlockHash : string;
  detailIndex : nat;
  detailMethod : string;
  detailSection : string;
  detailSigner : string;
  detailTimestamp : option Date;
  detailSuccess : bool;
  detailFee : string;
  detailArgs : list string;
  detailEvents : list TransactionEvent;
  error : option string;
  detailNonce : Z;
  detailTip : string;
  detailEra : Z;
  detailSignature : string;
  isDecoded : bool;
  decodedArgs : list AnyJson
}.

(** the [findIndex] predicate: "multiple hash formats" *)
Definition hashMatches (extHash searchHash normalizedHash : string) : bool :=
  ((extHash =? searchHash) ||
   (extHash =? normalizedHash) ||
   (JsString.toLowerCase extHash =? JsString.toLowerCase searchHash) ||
   (JsString.toLowerCase extHash =? JsString.toLowerCase normalizedHash) ||
   (extHash =? JsString.removeFirst "0x" searchHash) ||
   (extHash =? JsString.removeFirst "0x" normalizedHash))%string.

(** [list.findIndex(p)], [None] for [-1] *)
Fixpoint findIndex {A} (p : A -> bool) (l : list A) : option nat :=
  match l with
  | [] => None
  | x :: rest => if p x then Some O else option_map S (findIndex p rest)
  end.

Definition numberOrZero (n : option Z) : Z :=
  match n with
  | Some v => v
  | None => 0
  end.

Definition buildDetails (api : ApiPromise) (blockNumber : Z) (blockHash : Hash)
    (block : SignedBlock) (events : list EventRecord) (extrinsicIndex : nat)
    (extrinsic : Extrinsic) : js TransactionDetails :=
  let extrinsicEvents := filter (appliesTo extrinsicIndex) events in
  let success :=
    negb (existsb (fun r => isExtrinsicFailed api (event r)) extrinsicEvents) in
  (timestamp <- blockTimestampOf (extrinsics block) ;;
   let fee := calculateTransactionFee extrinsicEvents api in
   fee' <- formatTxor fee 18 ;;
   Returns
     {| detailHash := toHex (hash extrinsic);
        detailBlockNumber := blockNumber;
        detailBlockHash := toHex blockHash;
        detailIndex := extrinsicIndex;
        detailMethod := method extrinsic;
        detailSection := section extrinsic;
        detailSigner := orElse (option_map toString (signer extrinsic)) "System";
        detailTimestamp := timestamp;
        detailSuccess := success;
        detailFee := fee';
        detailArgs := map toString (args extrinsic);
        detailEvents := map summarizeEvent extrinsicEvents;
        error := if success then None else Some "Transaction failed"%string;
        detailNonce := numberOrZero (nonce extrinsic);
        detailTip := orElse (option_map toString (tip extrinsic)) "0";
        detailEra := numberOrZero (era extrinsic);
        detailSignature :=
          orElse (option_map toString (signature extrinsic)) EmptyString;
        isDecoded := true;
        decodedArgs := map toHuman (args extrinsic) |})%js.

(** the body of the [try] of one iteration: [Returns (Some d)] is the
    [return] inside it, [Returns None] falls through to the next iteration *)
Definition searchBlock (api : ApiPromise) (searchHash normalizedHash : string)
    (blockNumber : Z) : js (option TransactionDetails) :=
  (blockHash <- getBlockHash api blockNumber ;;
   block <- getBlock api blockHash ;;
   events <- eventsAt api blockHash ;;
   match findIndex (fun ext => hashMatches (toHex (hash ext)) searchHash normalizedHash)
           (extrinsics block) with
   | None => Returns None
   | Some extrinsicIndex =>
       match nth_error (extrinsics block) extrinsicIndex with
       | None => Throws "Cannot read properties of undefined"
       | Some extrinsic =>
           details <- buildDetails api blockNumber blockHash block events
                        extrinsicIndex extrinsic ;;
           Returns (Some details)
       end
   end)%js.

(** [for (let i = 0; i < 100; i++)] over the offsets still to visit *)
Fixpoint searchLoop (api : ApiPromise) (searchHash normalizedHash : string)
    (latestBlockNumber : Z) (offsets : list nat) : option TransactionDetails :=
  match offsets with
  | [] => None
  | i :: rest =>
      let blockNumber := latestBlockNumber - Z.of_nat i in
      if blockNumber <? 0 then None
      else
        match searchBlock api searchHash normalizedHash blockNumber with
        | Returns (Some details) => Some details
        | Returns None => searchLoop api searchHash normalizedHash latestBlockNumber rest
        | Throws _ => searchLoop api searchHash normalizedHash latestBlockNumber rest
        end
  end.

Definition performTransactionSearch (api : ApiPromise)
    (searchHash normalizedHash : string) : js (option TransactionDetails) :=
  (finalizedHead <- getFinalizedHead api ;;
   finalizedBlock <- getBlock api finalizedHead ;;
   Returns (searchLoop api searchHash normalizedHash (number finalizedBlock)
              (seq 0 100)))%js.

(** The search is raced against a 30 s timer; the model has no clock and takes
    the search to settle first. *)
Definition findTransactionByHash (api : ApiPromise) (hash : string)
    : js (option TransactionDetails) :=
  let normalizedHash := JsString.trim hash in
  let searchHash :=
    if JsString.startsWith normalizedHash "0x" then normalizedHash
    else ("0x" ++ normalizedHash)%string in
  tryCatch (performTransactionSearch api searchHash normalizedHash)
    (fun e => Throws e).

(** *** The earlier fetcher of recent activity *)

(** [list.forEach((x, index) => push(f(index, x)))], counting from [index] *)
Fixpoint mapWithIndex {A B} (f : nat -> A -> B) (index : nat) (l : list A)
    : list B :=
  match l with
  | [] => []
  | x :: rest => f index x :: mapWithIndex f (S index) rest
  end.

(** the object that [fetchTransactionDataWithTimeout] pushes for an
    extrinsic: a [Transaction] without its optional fields *)
Record PlainTransaction := {
  plainHash : string;
  plainBlockNumber : Z;
  plainBlockHash : string;
  plainIndex : nat;
  plainMethod : string;
  plainSection : string;
  plainSigner : string;
  plainTimestamp : option Date;
  plainSuccess : bool;
  plainFee : string;
  plainArgs : list string;
  plainIsTransfer : bool;
  plainEvents : list TransactionEvent
}.

Record PlainTransactionData := {
  plainTransactions : list PlainTransaction;
  plainBlocks : list Block;
  plainLastUpdated : Z
}.

Definition plainTransactionOf (blockNumber : Z) (blockHashHex : string)
    (timestamp : option Date) (index : nat) (extrinsic : Extrinsic)
    : PlainTransaction :=
  {| plainHash := toHex (hash extrinsic);
     plainBlockNumber := blockNumber;
     plainBlockHash := blockHashHex;
     plainIndex := index;
     plainMethod := method extrinsic;
     plainSection := section extrinsic;
     plainSigner := orElse (option_map toString (signer extrinsic)) "System";
     plainTimestamp := timestamp;
     plainSuccess := true;
     plainFee := "0";
     plainArgs := map (fun arg => JsString.take 20 (toString arg)) (args extrinsic);
     plainIsTransfer := false;
     plainEvents := [] |}.

(** the body of the [try] of one height: the block record and the
    transactions that it pushes; nothing is pushed when a request or the
    timestamp fails *)
Definition fetchPlainBlock (api : ApiPromise) (blockNumber : Z)
    : js (Block * list PlainTransaction) :=
  (blockHash <- getBlockHash api blockNumber ;;
   block <- getBlock api blockHash ;;
   timestamp <- blockTimestampOf (extrinsics block) ;;
   Returns
     ({| height := blockNumber;
         blockHashHex := toHex blockHash;
         blockTimestamp := timestamp;
         txCount := List.length (extrinsics block);
         proposer := "Unknown";
         size := BN.toString (Z.of_nat (jsonLength block)) |},
      mapWithIndex (plainTransactionOf blockNumber (toHex blockHash) timestamp)
        0 (firstn 10 (extrinsics block))))%js.

(** [for (const blockNumber of blockNumbers)]: a throw is caught and logged *)
Fixpoint collectPlainBlocks (api : ApiPromise) (blockNumbers : list Z)
    (blocks : list Block) (transactions : list PlainTransaction)
    : list Block * list PlainTransaction :=
  match blockNumbers with
  | [] => (blocks, transactions)
  | blockNumber :: rest =>
      match fetchPlainBlock api blockNumber with
      | Returns (block, pushed) =>
          collectPlainBlocks api rest (blocks ++ [block]) (transactions ++ pushed)
      | Throws _ => collectPlainBlocks api rest blocks transactions
      end
  end.

(** the five heights below the finalized block, not clamped at zero *)
Definition plainBlockNumbers (latestBlockNumber : Z) : list Z :=
  map (fun i => latestBlockNumber - Z.of_nat i) (seq 0 5).

Definition fetchTransactionDataWithTimeout (api : ApiPromise) (now : Z)
    : js PlainTransactionData :=
  (finalizedHead <- getFinalizedHead api ;;
   finalizedBlock <- getBlock api finalizedHead ;;
   let latestBlockNumber := number finalizedBlock in
   let collected :=
     collectPlainBlocks api (plainBlockNumbers latestBlockNumber) [] [] in
   Returns {| plainTransactions := firstn 50 (snd collected);
              plainBlocks := fst collected;
              plainLastUpdated := now |})%js.

End Store.

(** ** The connection manager

    The store's [apiState], the module-level variables and the event loop.
    One [Event] is one run of JavaScript between two awaits: a call of
    [connect] up to its first network wait, the settling of that wait, a
    handler that the provider calls, a tick of the health-check interval, the
    settling of its round trip, the firing of the reconnect timer, a call of
    [disconnect]. The state also records what the code leaves with its
    environment: the providers it created and the handlers registered on
    them, and the calls still waiting. *)

Module ConnectionManager.

Definition ENDPOINTS : list string := ["wss://node01.xorion.network"%string].
Definition CONNECTION_TIMEOUT : Z := 30000.
Definition MAX_RETRIES : Z := 5.
Definition INITIAL_RETRY_DELAY : Z := 2000.
Definition MAX_RETRY_DELAY : Z := 30000.
Definition HEALTH_CHECK_INTERVAL : Z := 15000.
Definition MAX_LATENCY : Z := 1000.

Inductive Status := disconnected | connecting | connected | degraded | error.

Definition Status_eqb (a b : Status) : bool :=
  match a, b with
  | disconnected, disconnected | connecting, connecting | connected, connected
  | degraded, degraded | error, error => true
  | _, _ => false
  end.

Definition ProviderId := nat.

Record ApiState := {
  apiStateApi : option ProviderId;
  status : Status;
  lastError : option string;
  latency : option Z;
  connectionAttempts : Z;
  lastSuccessfulConnection : option Z;
  endpoint : option string;
  lastConnected : option Z
}.

Definition initialApiState : ApiState :=
  {| apiStateApi := None; status := disconnected; lastError := None;
     latency := None; connectionAttempts := 0;
     lastSuccessfulConnection := None; endpoint := None; lastConnected := None |}.

(** a [WsProvider] that the code created: whether the three handlers of
    [setupProviderListeners] are registered on it, and whether [disconnect()]
    was called on it *)
Record Provider := {
  providerId : ProviderId;
  providerEndpoint : string;
  listening : bool;
  closed : bool
}.

(** a call of [connect] waiting in its loop, at iteration [loopIndex] *)
Record Attempt := {
  endpointsToTry : list string;
  startIndex : nat;
  loopIndex : nat;
  endpointIndex : nat;
  targetEndpoint : string;
  attemptProvider : ProviderId
}.

(** a health check waiting for its round trip, with the [apiState.status]
    that it read before the wait *)
Record HealthCheck := { checkId : nat; seenStatus : Status }.

Record State := {
  (* the store *)
  apiState : ApiState;
  api : option ProviderId;
  isLoading : bool;
  (* the module-level variables *)
  currentProvider : option ProviderId;
  currentApi : option ProviderId;
  healthCheckInterval : option Z;
  reconnectTimeout : option Z;
  currentEndpointIndex : nat;
  retryDelay : Z;
  eventListeners : list ProviderId;
  (* the environment *)
  providers : list Provider;
  attempts : list Attempt;
  healthChecks : list HealthCheck;
  nextId : nat
}.

Definition initialState : State :=
  {| apiState := initialApiState; api := None; isLoading := true;
     currentProvider := None; currentApi := None;
     healthCheckInterval := None; reconnectTimeout := None;
     currentEndpointIndex := 0%nat; retryDelay := INITIAL_RETRY_DELAY;
     eventListeners := [];
     providers := []; attempts := []; healthChecks := []; nextId := 0%nat |}.

(** *** Field updates *)

Definition withApiState (f : ApiState -> ApiState) (s : State) : State :=
  {| apiState := f (apiState s); api := api s; isLoading := isLoading s;
     currentProvider := currentProvider s; currentApi := currentApi s;
     healthCheckInterval := healthCheckInterval s;
     reconnectTimeout := reconnectTimeout s;
     currentEndpointIndex := currentEndpointIndex s; retryDelay := retryDelay s;
     eventListeners := eventListeners s;
     providers := providers s; attempts := attempts s;
     healthChecks := healthChecks s; nextId := nextId s |}.

Definition setStatus (v : Status) (a : ApiState) : ApiState :=
  {| apiStateApi := apiStateApi a; status := v; lastError := lastError a;
     latency := latency a; connectionAttempts := connectionAttempts a;
     lastSuccessfulConnection := lastSuccessfulConnection a;
     endpoint := endpoint a; lastConnected := lastConnected a |}.

Definition setLastError (v : option string) (a : ApiState) : ApiState :=
  {| apiStateApi := apiStateApi a; status := status a; lastError := v;
     latency := latency a; connectionAttempts := connectionAttempts a;
     lastSuccessfulConnection := lastSuccessfulConnection a;
     endpoint := endpoint a; lastConnected := lastConnected a |}.

Definition setLatency (v : option Z) (a : ApiState) : ApiState :=
  {| apiStateApi := apiStateApi a; status := status a; lastError := lastError a;
     latency := v; connectionAttempts := connectionAttempts a;
     lastSuccessfulConnection := lastSuccessfulConnection a;
     endpoint := endpoint a; lastConnected := lastConnected a |}.

Definition setConnectionAttempts (v : Z) (a : ApiState) : ApiState :=
  {| apiStateApi := apiStateApi a; status := status a; lastError := lastError a;
     latency := latency a; connectionAttempts := v;
     lastSuccessfulConnection := lastSuccessfulConnection a;
     endpoint := endpoint a; lastConnected := lastConnected a |}.

Definition setLastConnected (v : option Z) (a : ApiState) : ApiState :=
  {| apiStateApi := apiStateApi a; status := status a; lastError := lastError a;
     latency := latency a; connectionAttempts := connectionAttempts a;
     lastSuccessfulConnection := lastSuccessfulConnection a;
     endpoint := endpoint a; lastConnected := v |}.

Definition setConnected (target : string) (now : Z) (a : ApiState) : ApiState :=
  {| apiStateApi := apiStateApi a; status := connected; lastError := None;
     latency := latency a; connectionAttempts := connectionAttempts a;
     lastSuccessfulConnection := Some now;
     endpoint := Some target; lastConnected := Some now |}.

Definition setApi (v : option ProviderId) (s : State) : State :=
  {| apiState := apiState s; api := v; isLoading := isLoading s;
     currentProvider := currentProvider s; currentApi := currentApi s;
     healthCheckInterval := healthCheckInterval s;
     reconnectTimeout := reconnectTimeout s;
     currentEndpointIndex := currentEndpointIndex s; retryDelay := retryDelay s;
     eventListeners := eventListeners s;
     providers := providers s; attempts := attempts s;
     healthChecks := healthChecks s; nextId := nextId s |}.

Definition setLoading (v : bool) (s : State) : State :=
  {| apiState := apiState s; api := api s; isLoading := v;
     currentProvider := currentProvider s; currentApi := currentApi s;
     healthCheckInterval := healthCheckInterval s;
     reconnectTimeout := reconnectTimeout s;
     currentEndpointIndex := currentEndpointIndex s; retryDelay := retryDelay s;
     eventListeners := eventListeners s;
     providers := providers s; attempts := attempts s;
     healthChecks := healthChecks s; nextId := nextId s |}.

Definition setHealthCheckInterval (v : option Z) (s : State) : State :=
  {| apiState := apiState s; api := api s; isLoading := isLoading s;
     currentProvider := currentProvider s; currentApi := currentApi s;
     healthCheckInterval := v;
     reconnectTimeout := reconnectTimeout s;
     currentEndpointIndex := currentEndpointIndex s; retryDelay := retryDelay s;
     eventListeners := eventListeners s;
     providers := providers s; attempts := attempts s;
     healthChecks := healthChecks s; nextId := nextId s |}.

Definition setReconnectTimeout (v : option Z) (s : State) : State :=
  {| apiState := apiState s; api := api s; isLoading := isLoading s;
     currentProvider := currentProvider s; currentApi := currentApi s;
     healthCheckInterval := healthCheckInterval s;
     reconnectTimeout := v;
     currentEndpointIndex := currentEndpointIndex s; retryDelay := retryDelay s;
     eventListeners := eventListeners s;
     providers := providers s; attempts := attempts s;
     healthChecks := healthChecks s; nextId := nextId s |}.

Definition setRetry (index : nat) (delay : Z) (s : State) : State :=
  {| apiState := apiState s; api := api s; isLoading := isLoading s;
     currentProvider := currentProvider s; currentApi := currentApi s;
     healthCheckInterval := healthCheckInterval s;
     reconnectTimeout := reconnectTimeout s;
     currentEndpointIndex := index; retryDelay := delay;
     eventListeners := eventListeners s;
     providers := providers s; attempts := attempts s;
     healthChecks := healthChecks s; nextId := nextId s |}.

Definition setEnvironment (ps : list Provider) (as_ : list Attempt)
    (hs : list HealthCheck) (next : nat) (s : State) : State :=
  {| apiState := apiState s; api := api s; isLoading := isLoading s;
     currentProvider := currentProvider s; currentApi := currentApi s;
     healthCheckInterval := healthCheckInterval s;
     reconnectTimeout := reconnectTimeout s;
     currentEndpointIndex := currentEndpointIndex s; retryDelay := retryDelay s;
     eventListeners := eventListeners s;
     providers := ps; attempts := as_; healthChecks := hs; nextId := next |}.

Definition setHandles (provider api' : option ProviderId)
    (listeners : list ProviderId) (s : State) : State :=
  {| apiState := apiState s; api := api s; isLoading := isLoading s;
     currentProvider := provider; currentApi := api';
     healthCheckInterval := healthCheckInterval s;
     reconnectTimeout := reconnectTimeout s;
     currentEndpointIndex := currentEndpointIndex s; retryDelay := retryDelay s;
     eventListeners := listeners;
     providers := providers s; attempts := attempts s;
     healthChecks := healthChecks s; nextId := nextId s |}.

(** *** The helper functions of the module *)

Definition closeProvider (id : ProviderId) (ps : list Provider) : list Provider :=
  map (fun p => if Nat.eqb (providerId p) id
                then {| providerId := providerId p;
                        providerEndpoint := providerEndpoint p;
                        listening := listening p; closed := true |}
                else p) ps.

(** what a stored cleanup function would do: take the handlers off its provider *)
Definition removeListeners (id : ProviderId) (ps : list Provider) : list Provider :=
  map (fun p => if Nat.eqb (providerId p) id
                then {| providerId := providerId p;
                        providerEndpoint := providerEndpoint p;
                        listening := false; closed := closed p |}
                else p) ps.

Definition closeHandle (h : option ProviderId) (ps : list Provider) : list Provider :=
  match h with
  | Some id => closeProvider id ps
  | None => ps
  end.

Definition cleanupConnection (s : State) : State :=
  let s := setHealthCheckInterval None s in
  let s := setReconnectTimeout None s in
  let ps := fold_right removeListeners (providers s) (eventListeners s) in
  let ps := closeHandle (currentApi s) ps in
  let ps := closeHandle (currentProvider s) ps in
  setHandles None None []
    (setEnvironment ps (attempts s) (healthChecks s) (nextId s) s).

Definition scheduleReconnect (s : State) : State :=
  match reconnectTimeout s with
  | Some _ => s
  | None =>
      if MAX_RETRIES <=? connectionAttempts (apiState s) then s
      else
        let s := setReconnectTimeout (Some (retryDelay s)) s in
        setRetry (currentEndpointIndex s)
          (Z.min (retryDelay s * 2) MAX_RETRY_DELAY) s
  end.

Definition rotateEndpoint (s : State) : State :=
  setRetry (Nat.modulo (currentEndpointIndex s + 1) (List.length ENDPOINTS))
    (retryDelay s) s.

Definition setupHealthMonitoring (s : State) : State :=
  match healthCheckInterval s with
  | Some _ => s
  | None => setHealthCheckInterval (Some HEALTH_CHECK_INTERVAL) s
  end.

(** [new WsProvider(target)], [currentProvider = provider] and
    [setupProviderListeners(provider, target)]: the handlers go on the provider
    with [provider.on]; nothing is stored in [eventListeners] *)
Definition createProvider (target : string) (s : State) : State :=
  let provider :=
    {| providerId := nextId s; providerEndpoint := target;
       listening := true; closed := false |} in
  setHandles (Some (nextId s)) (currentApi s) (eventListeners s)
    (setEnvironment (providers s ++ [provider]) (attempts s) (healthChecks s)
       (S (nextId s)) s).

(** the [for] loop of [connect] from iteration [i], up to its wait *)
Definition connectLoop (endpointsToTry : list string) (startIndex i : nat)
    (s : State) : State :=
  if Nat.ltb i (List.length endpointsToTry) then
    let endpointIndex := Nat.modulo (startIndex + i) (List.length endpointsToTry) in
    let targetEndpoint := nth endpointIndex endpointsToTry EmptyString in
    let attempt :=
      {| endpointsToTry := endpointsToTry; startIndex := startIndex;
         loopIndex := i; endpointIndex := endpointIndex;
         targetEndpoint := targetEndpoint; attemptProvider := nextId s |} in
    let s := createProvider targetEndpoint s in
    setEnvironment (providers s) (attempts s ++ [attempt]) (healthChecks s)
      (nextId s) s
  else
    let s := setLoading false s in
    let s := withApiState
               (fun a => setLastError (Some "All endpoints failed"%string)
                           (setStatus error a)) s in
    scheduleReconnect s.

Definition truthy (endpoint : option string) : option string :=
  match endpoint with
  | Some e => if (e =? EmptyString)%string then None else Some e
  | None => None
  end.

Definition connect (endpoint : option string) (s : State) : State :=
  if Status_eqb (status (apiState s)) connecting then s
  else
    let s := setLoading true s in
    let s := withApiState
               (fun a => setConnectionAttempts (connectionAttempts a + 1)
                           (setStatus connecting a)) s in
    let s := cleanupConnection s in
    match truthy endpoint with
    | Some e => connectLoop [e] 0 0 s
    | None => connectLoop ENDPOINTS (currentEndpointIndex s) 0 s
    end.

Definition disconnect (s : State) : State :=
  let s := cleanupConnection s in
  setApi None (withApiState (fun _ => initialApiState) s).

(** *** The event loop *)

Inductive Outcome := Succeeds (now : Z) | Fails (message : string).

Inductive ProviderEvent :=
| Connected (now : Z)
| Disconnected
| Error (message : string).

Inductive HealthOutcome := RoundTrip (elapsed : Z) | CheckFails (message : string).

Inductive Event :=
| CallConnect (endpoint : option string)
| AttemptSettles (provider : ProviderId) (outcome : Outcome)
| ProviderEmits (provider : ProviderId) (e : ProviderEvent)
| HealthTick
| HealthCheckSettles (check : nat) (outcome : HealthOutcome)
| ReconnectFires
| CallDisconnect.

Arguments AttemptSettles provider%_nat outcome.
Arguments ProviderEmits provider%_nat e.
Arguments HealthCheckSettles check%_nat outcome.

Definition isAttemptOf (provider : ProviderId) (a : Attempt) : bool :=
  Nat.eqb (attemptProvider a) provider.

Definition isListening (provider : ProviderId) (s : State) : bool :=
  existsb (fun p => Nat.eqb (providerId p) provider && listening p) (providers s).

(** the rest of one iteration of the loop of [connect], after its waits *)
Definition attemptSettles (provider : ProviderId) (outcome : Outcome) (s : State)
    : State :=
  match find (isAttemptOf provider) (attempts s) with
  | None => s
  | Some a =>
      let s := setEnvironment (providers s)
                 (filter (fun b => negb (isAttemptOf provider b)) (attempts s))
                 (healthChecks s) (nextId s) s in
      match outcome with
      | Succeeds now =>
          let s := setApi (Some provider) s in
          let s := withApiState (setConnected (targetEndpoint a) now) s in
          let s := setupHealthMonitoring s in
          let s := setRetry (endpointIndex a) INITIAL_RETRY_DELAY s in
          setLoading false s
      | Fails message =>
          let s := withApiState (setLastError (Some message)) s in
          let s := cleanupConnection s in
          connectLoop (endpointsToTry a) (startIndex a) (S (loopIndex a)) s
      end
  end.

(** the handlers of [setupProviderListeners] *)
Definition providerEmits (provider : ProviderId) (e : ProviderEvent) (s : State)
    : State :=
  if isListening provider s then
    match e with
    | Connected now =>
        withApiState (fun a => setLastConnected (Some now) (setStatus connected a)) s
    | Disconnected =>
        scheduleReconnect (withApiState (setStatus disconnected) s)
    | Error message =>
        scheduleReconnect
          (withApiState (fun a => setLastError (Some message) (setStatus error a)) s)
    end
  else s.

(** the interval callback up to its round trip *)
Definition healthTick (s : State) : State :=
  match healthCheckInterval s, api s with
  | Some _, Some _ =>
      if Status_eqb (status (apiState s)) connected
         || Status_eqb (status (apiState s)) degraded
      then
        setEnvironment (providers s) (attempts s)
          (healthChecks s ++ [{| checkId := nextId s;
                                 seenStatus := status (apiState s) |}])
          (S (nextId s)) s
      else s
  | _, _ => s
  end.

(** the interval callback after its round trip *)
Definition healthCheckSettles (check : nat) (outcome : HealthOutcome) (s : State)
    : State :=
  match find (fun h => Nat.eqb (checkId h) check) (healthChecks s) with
  | None => s
  | Some h =>
      let s := setEnvironment (providers s) (attempts s)
                 (filter (fun k => negb (Nat.eqb (checkId k) check)) (healthChecks s))
                 (nextId s) s in
      match outcome with
      | RoundTrip elapsed =>
          let s := withApiState (setLatency (Some elapsed)) s in
          if MAX_LATENCY <? elapsed then
            if Status_eqb (seenStatus h) degraded then s
            else withApiState (setStatus degraded) s
          else if Status_eqb (seenStatus h) degraded
               then withApiState (setStatus connected) s
               else s
      | CheckFails message =>
          scheduleReconnect
            (withApiState (fun a => setLastError (Some message) (setStatus error a)) s)
      end
  end.

(** the callback of the reconnect timer *)
Definition reconnectFires (s : State) : State :=
  match reconnectTimeout s with
  | None => s
  | Some _ => connect None (rotateEndpoint (setReconnectTimeout None s))
  end.

Definition step (e : Event) (s : State) : State :=
  match e with
  | CallConnect endpoint => connect endpoint s
  | AttemptSettles provider outcome => attemptSettles provider outcome s
  | ProviderEmits provider pe => providerEmits provider pe s
  | HealthTick => healthTick s
  | HealthCheckSettles check outcome => healthCheckSettles check outcome s
  | ReconnectFires => reconnectFires s
  | CallDisconnect => disconnect s
  end.

Fixpoint run (trace : list Event) (s : State) : State :=
  match trace with
  | [] => s
  | e :: rest => run rest (step e s)
  end.

(** *** Some runs *)

(** [connect()], then four firings of the reconnect timer, each attempt
    failing on the only endpoint *)
Definition fiveFailedCycles : list Event :=
  [CallConnect None; AttemptSettles 0 (Fails "unreachable");
   ReconnectFires; AttemptSettles 1 (Fails "unreachable");
   ReconnectFires; AttemptSettles 2 (Fails "unreachable");
   ReconnectFires; AttemptSettles 3 (Fails "unreachable");
   ReconnectFires; AttemptSettles 4 (Fails "unreachable")].

(** five calls of [connect()], each one succeeding *)
Definition fiveSuccessfulConnects : list Event :=
  [CallConnect None; AttemptSettles 0 (Succeeds 100);
   CallConnect None; AttemptSettles 1 (Succeeds 200);
   CallConnect None; AttemptSettles 2 (Succeeds 300);
   CallConnect None; AttemptSettles 3 (Succeeds 400);
   CallConnect None; AttemptSettles 4 (Succeeds 500)].

(** a health check that starts and then fails *)
Definition failedHealthCheck (check : nat) : list Event :=
  [HealthTick; HealthCheckSettles check (CheckFails "timeout")].

(** [connect()] succeeds on the first provider, then [disconnect()] *)
Definition connectThenDisconnect : list Event :=
  [CallConnect None; AttemptSettles 0 (Succeeds 100); CallDisconnect].

(** the attempt counter of the store *)
Definition attemptCount (s : State) : Z := connectionAttempts (apiState s).

(** the invariant of the retry cap: at the cap, no reconnect timer is armed *)
Definition capRespected (s : State) : Prop :=
  MAX_RETRIES <= attemptCount s -> reconnectTimeout s = None.

(** *** [reconnect] *)

(** [reconnect] up to its two-second wait: the endpoint is read before
    [disconnect] clears it *)
Definition reconnectBegins (s : State) : option string * State :=
  (endpoint (apiState s), disconnect s).

(** [reconnect] after its wait: [connect(endpoint || undefined)] *)
Definition reconnectResumes (endpoint : option string) (s : State) : State :=
  connect (truthy endpoint) s.

(** a call of [reconnect] during whose wait the events [between] happen *)
Definition reconnect (between : list Event) (s : State) : State :=
  let '(endpoint, s) := reconnectBegins s in
  reconnectResumes endpoint (run between s).

(** *** What the runs of the event loop keep *)

(** the providers on which [disconnect()] was not called *)
Definition openProviders (s : State) : list Provider :=
  filter (fun p => negb (closed p)) (providers s).

(** at most one socket: an open provider is alone and is [currentProvider] *)
Definition oneSocket (s : State) : Prop :=
  (List.length (openProviders s) <= 1)%nat /\
  forall p, In p (openProviders s) -> currentProvider s = Some (providerId p).

(** the backoff delay, and the delay of an armed reconnect timer, stay
    between the initial and the maximal delay *)
Definition backoffInRange (s : State) : Prop :=
  INITIAL_RETRY_DELAY <= retryDelay s <= MAX_RETRY_DELAY /\
  forall delay, reconnectTimeout s = Some delay ->
                INITIAL_RETRY_DELAY <= delay <= MAX_RETRY_DELAY.

(** the identifiers in use are below the next one *)
Definition idsAreFresh (s : State) : Prop :=
  (forall a, In a (attempts s) -> (attemptProvider a < nextId s)%nat) /\
  (forall p, In p (providers s) -> (providerId p < nextId s)%nat) /\
  (forall h, In h (healthChecks s) -> (checkId h < nextId s)%nat).

(** the handlers of [setupProviderListeners] are still on every provider *)
Definition allListening (s : State) : Prop :=
  forall p, In p (providers s) -> listening p = true.

(** what every run of the event loop keeps *)
Definition wellFormed (s : State) : Prop :=
  eventListeners s = [] /\ currentApi s = None /\ allListening s /\
  oneSocket s /\ idsAreFresh s /\ backoffInRange s.

(** the attempt that [connect(endpoint)] starts in the state [s], and its
    provider *)
Definition firstAttempt (endpoint : option string) (s : State) : Attempt :=
  let endpointsToTry := match truthy endpoint with
                        | Some e => [e]
                        | None => ENDPOINTS
                        end in
  let startIndex := match truthy endpoint with
                    | Some _ => 0%nat
                    | None => currentEndpointIndex s
                    end in
  let endpointIndex := Nat.modulo (startIndex + 0) (List.length endpointsToTry) in
  {| endpointsToTry := endpointsToTry;
     startIndex := startIndex;
     loopIndex := 0;
     endpointIndex := endpointIndex;
     targetEndpoint := nth endpointIndex endpointsToTry EmptyString;
     attemptProvider := nextId s |}.

Definition firstTarget (endpoint : option string) (s : State) : string :=
  targetEndpoint (firstAttempt endpoint s).

Definition firstProvider (endpoint : option string) (s : State) : Provider :=
  {| providerId := nextId s; providerEndpoint := firstTarget endpoint s;
     listening := true; closed := false |}.

End ConnectionManager.

(** ** JavaScript numbers

    A Number is an IEEE-754 binary64 value: [spec_float] at precision 53 with
    [emax = 1024]. Arithmetic rounds to nearest, ties to even. *)

Module Double.

Definition prec : Z := 53.
Definition emax : Z := 1024.

Definition double := spec_float.

(** the Number nearest to an integer *)
Definition ofZ (z : Z) : double := binary_normalize prec emax z 0 false.

Definition ofNat (n : nat) : double := ofZ (Z.of_nat n).

(** the Number nearest to [m / d], for positive integers [m] and [d] *)
Definition ofRatio (negative : bool) (m d : Z) : double :=
  let '(q, e, l) := SFdiv_core_binary prec emax m 0 d 0 in
  binary_round_aux prec emax negative q e l.

(** the Number nearest to [m * 10 ^ e10], for a natural number [m] *)
Definition ofDecimal (negative : bool) (m e10 : Z) : double :=
  if m =? 0 then S754_zero negative
  else if 0 <=? e10 then
    binary_normalize prec emax ((if negative then - m else m) * 10 ^ e10) 0 negative
  else ofRatio negative m (10 ^ (- e10)).

Definition div (x y : double) : double := SFdiv prec emax x y.
Definition mul (x y : double) : double := SFmul prec emax x y.

(** [isFinite(x)] *)
Definition isFinite (x : double) : bool :=
  match x with
  | S754_zero _ | S754_finite _ _ _ => true
  | S754_infinity _ | S754_nan => false
  end.

(** [x === 0] *)
Definition isZero (x : double) : bool :=
  match x with
  | S754_zero _ => true
  | _ => false
  end.

(** [floor (x + 1/2)] and [floor x] of a finite, non-zero Number *)
Definition roundHalfUp (negative : bool) (m : positive) (e : Z) : Z :=
  let sm := if negative then Z.neg m else Z.pos m in
  if 0 <=? e then sm * 2 ^ e
  else (2 * sm + 2 ^ (- e)) / 2 ^ (1 - e).

Definition floorOf (negative : bool) (m : positive) (e : Z) : Z :=
  let sm := if negative then Z.neg m else Z.pos m in
  if 0 <=? e then sm * 2 ^ e
  else sm / 2 ^ (- e).

(** [Math.round(x)] *)
Definition Math_round (x : double) : double :=
  match x with
  | S754_finite s m e => binary_normalize prec emax (roundHalfUp s m e) 0 s
  | _ => x
  end.

(** [Math.floor(x)] *)
Definition Math_floor (x : double) : double :=
  match x with
  | S754_finite s m e => binary_normalize prec emax (floorOf s m e) 0 s
  | _ => x
  end.


(** the longest prefix of decimal digits, and the rest *)
Fixpoint spanDigits (s : string) : string * string :=
  match s with
  | EmptyString => (EmptyString, EmptyString)
  | String c rest =>
      if JsString.isDigit c then
        let '(digits, tail) := spanDigits rest in (String c digits, tail)
      else (EmptyString, s)
  end.

(** the value of an [ExponentPart] at the head of [s], or 0 when [s] has none *)
Definition exponentPart (s : string) : Z :=
  match s with
  | String c rest =>
      if (Ascii.eqb c "e" || Ascii.eqb c "E")%bool then
        let '(negative, body) :=
          match rest with
          | String "-" r => (true, r)
          | String "+" r => (false, r)
          | _ => (false, rest)
          end in
        let digits := fst (spanDigits body) in
        if negative then - JsString.decimalValue digits
        else JsString.decimalValue digits
      else 0
  | EmptyString => 0
  end.

(** an optional sign at the head of [t] *)
Definition splitSign (t : string) : bool * string :=
  match t with
  | String "-" r => (true, r)
  | String "+" r => (false, r)
  | _ => (false, t)
  end.

(** the digits after a decimal point at the head of [r1], if any *)
Definition splitFraction (r1 : string) : string * string :=
  match r1 with
  | String "." r => spanDigits r
  | _ => (EmptyString, r1)
  end.

(** [parseFloat(s)]: the longest prefix of the trimmed input that is a
    [StrDecimalLiteral], rounded to the nearest Number; [NaN] without one *)
Definition parseFloat (s : string) : double :=
  let t := JsString.trimStart s in
  let '(negative, u) := splitSign t in
  if String.prefix "Infinity" u then S754_infinity negative
  else
    let '(ip, r1) := spanDigits u in
    let '(fp, r2) := splitFraction r1 in
    if ((ip =? EmptyString) && (fp =? EmptyString))%string then S754_nan
    else
      ofDecimal negative (JsString.decimalValue (ip ++ fp))
        (exponentPart r2 - Z.of_nat (String.length fp)).

End Double.

(** ** [src/lib/utils.ts]: the padded formatter *)

Module Utils.
Import Double.

(** what [formatTxor] accepts: [null] or [undefined], a string, a Number, a BN *)
Inductive BalanceRaw :=
| RawNull
| RawString (s : string)
| RawNumber (n : double)
| RawBN (bn : Z).

Section Formatter.

(** [display.toLocaleString(undefined, { minimumFractionDigits: 0,
    maximumFractionDigits })] depends on the locale of the runtime; it throws a
    RangeError when [maximumFractionDigits] is out of range *)
Variable toLocaleString : double -> Z -> js string.

(** [Math.pow(base, exponent)]: the language leaves its precision to the
    engine, and no engine rounds every power correctly *)
Variable Math_pow : double -> double -> double.

Definition isCommaOrSpace (c : ascii) : bool :=
  Ascii.eqb c "," || JsString.isWhitespace c.

Definition formatTxor (balanceRaw : BalanceRaw) (decimals : nat)
    (maxFractionDigits : Z) : js string :=
  match balanceRaw with
  | RawNull => Returns "0.0000"%string
  | _ =>
      let num :=
        match balanceRaw with
        | RawString s => parseFloat (JsString.removeAll isCommaOrSpace s)
        | RawBN bn => parseFloat (BN.toString bn)
        | RawNumber n => n
        | RawNull => S754_nan
        end in
      if negb (isFinite num) || isZero num then Returns "0.0000"%string
      else
        let divisor := Math_pow (ofZ 10) (ofNat decimals) in
        let display := div num divisor in
        toLocaleString display maxFractionDigits
  end.

End Formatter.

End Utils.

(** ** The metrics aggregator *)

Module Aggregator.
Import Double.

(** a validator's preferences: [prefs.blocked?.isTrue] *)
Record ValidatorPrefs := { blocked : option bool }.

Definition isOnline (prefs : ValidatorPrefs) : bool :=
  match blocked prefs with
  | Some true => false
  | _ => true
  end.

Record NetworkMetrics := {
  validatorsOnline : nat;
  totalValidators : nat;
  stakingAPR : double;
  avgBlockTime : double;
  totalTransactions : double;
  totalValueLocked : string;
  networkHealth : double;
  activeAddresses : double
}.

(** [totalValidators > 0 ? Math.round((validatorsOnline / totalValidators) * 100) : 0] *)
Definition networkHealthOf (validatorsOnline totalValidators : nat) : double :=
  if Nat.ltb 0 totalValidators then
    Math_round (mul (div (ofNat validatorsOnline) (ofNat totalValidators)) (ofZ 100))
  else ofZ 0.

(** the sum of the active stake of the ledgers that are [Some] *)
Fixpoint sumActiveStake (stakingLedgers : list (option Z)) (total : Z) : Z :=
  match stakingLedgers with
  | [] => total
  | Some activeStake :: rest => sumActiveStake rest (total + activeStake)
  | None :: rest => sumActiveStake rest total
  end.

(** the metrics of [fetchNetworkDataWithTimeout], from the settled queries *)
Definition fetchNetworkDataWithTimeout (validatorsEntries : list ValidatorPrefs)
    (stakingLedgers : list (option Z)) : js NetworkMetrics :=
  let totalValidators := List.length validatorsEntries in
  let validatorsOnline := List.length (filter isOnline validatorsEntries) in
  let networkHealth := networkHealthOf validatorsOnline totalValidators in
  let totalValueLocked := sumActiveStake stakingLedgers 0 in
  (tvl <- Store.formatTxor (BN.toString totalValueLocked) 18 ;;
   Returns
     {| validatorsOnline := validatorsOnline;
        totalValidators := totalValidators;
        stakingAPR := ofZ 0;
        avgBlockTime := ofZ 6;
        totalTransactions := ofZ 0;
        totalValueLocked := tvl;
        networkHealth := networkHealth;
        activeAddresses :=
          Math_floor (mul (ofNat validatorsOnline) (ofRatio false 12 10)) |})%js.

End Aggregator.

(** ** Notions of the specification *)

Module Spec.
Import Chain.

(** a Transfer-shaped event of the known pallet family: [balances.Transfer],
    [currencies.Transferred], [tokens.Transfer], [assets.Transferred] *)
Definition isTransferShaped (e : Event) : bool :=
  (((eventSection e =? "balances") && (eventMethod e =? "Transfer")) ||
   ((eventSection e =? "currencies") && (eventMethod e =? "Transferred")) ||
   ((eventSection e =? "tokens") && (eventMethod e =? "Transfer")) ||
   ((eventSection e =? "assets") && (eventMethod e =? "Transferred")))%string.

(** the positional field [i] of an event, as text *)
Definition field (i : nat) (e : Event) : option string :=
  option_map toString (nth_error (data e) i).

(** "a transfer-shaped event always wins": some transfer-shaped event of the
    subset supplies [from], [to] and [amount] of the result *)
Definition eventWins (info : Store.TransferInfo) (events : list EventRecord) : Prop :=
  Store.isTransfer info = true /\
  exists r, In r events /\ isTransferShaped (event r) = true /\
            Store.from info = field 0 (event r) /\
            Store.to info = field 1 (event r) /\
            Store.amount info = field 2 (event r).

(** a runtime without any of the optional pallets, in which no request settles *)
Definition bareApi : ApiPromise :=
  {| getFinalizedHead := Throws "offline";
     getHeader := fun _ => Throws "offline";
     getBlockHash := fun _ => Throws "offline";
     getBlock := fun _ => Throws "offline";
     eventsAt := fun _ => Throws "offline";
     isExtrinsicFailed := fun _ => false;
     isBalancesTransfer := None;
     isCurrenciesTransferred := None;
     isTokensTransfer := None;
     isAssetsTransferred := None;
     isBalancesWithdraw := None;
     isTransactionFeePaid := None |}.

Definition text (s : string) : Codec := {| toString := s; toHuman := s |}.

(** [balances.transfer(bob, 5)] signed by alice *)
Definition aliceToBob : Extrinsic :=
  {| hash := [Byte.x01]; section := "balances"; method := "transfer";
     args := [text "bob"; text "5"]; signer := Some (text "alice");
     nonce := Some 0; tip := None; era := None; signature := None |}.

Definition transferEvent (fields : list string) : EventRecord :=
  {| phase := ApplyExtrinsic 0;
     event := {| eventSection := "balances"; eventMethod := "Transfer";
                 data := map text fields; dataHuman := "[]" |} |}.

Definition isHexDigit (c : ascii) : bool :=
  JsString.isDigit c ||
  ((97 <=? JsString.code c) && (JsString.code c <=? 102)) ||
  ((65 <=? JsString.code c) && (JsString.code c <=? 70)).

(** a hash as the user types it, without its prefix: hexadecimal digits in
    either letter case *)
Definition isHexString (s : string) : bool := JsString.allChars isHexDigit s.

(** the hash [h] supplied with or without the ["0x"] prefix *)
Definition supplied (withPrefix : bool) (h : string) : string :=
  if withPrefix then ("0x" ++ h)%string else h.

(** A small chain. Height 2 holds a [timestamp.set] call and a call whose fee
    event carries a text that is no number; height 1 holds a [timestamp.set]
    call and a transfer from alice to bob; height 0 is empty. *)
Definition timestampSet : Extrinsic :=
  {| hash := [Byte.x10]; section := "timestamp"; method := "set";
     args := [text "1700000000000"]; signer := None;
     nonce := None; tip := None; era := None; signature := None |}.

Definition transferCall : Extrinsic :=
  {| hash := [Byte.xab; Byte.xcd]; section := "balances"; method := "transferKeepAlive";
     args := [text "bob"; text "5000000000000000000"];
     signer := Some (text "alice");
     nonce := Some 3; tip := Some (text "0"); era := Some 0;
     signature := Some (text "0xsig") |}.

Definition remarkCall : Extrinsic :=
  {| hash := [Byte.xee]; section := "system"; method := "remark";
     args := []; signer := Some (text "carol");
     nonce := Some 1; tip := None; era := None; signature := None |}.

Definition eventAt (i : nat) (section method : string) (fields : list string)
    : EventRecord :=
  {| phase := ApplyExtrinsic i;
     event := {| eventSection := section; eventMethod := method;
                 data := map text fields; dataHuman := "[]" |} |}.

Definition demoBlock (h : Hash) : js SignedBlock :=
  match h with
  | [Byte.x02] => Returns {| extrinsics := [timestampSet; remarkCall; transferCall];
                             number := 2; jsonLength := 300 |}
  | [Byte.x01] => Returns {| extrinsics := [timestampSet; transferCall];
                             number := 1; jsonLength := 200 |}
  | [Byte.x00] => Returns {| extrinsics := []; number := 0; jsonLength := 20 |}
  | _ => Throws "unknown block"
  end.

Definition demoEvents (h : Hash) : js (list EventRecord) :=
  match h with
  | [Byte.x02] =>
      Returns [eventAt 1 "transactionPayment" "TransactionFeePaid"
                 ["carol"; "1,250"]]
  | [Byte.x01] =>
      Returns [eventAt 1 "balances" "Withdraw" ["alice"; "7000000000000000"];
               eventAt 1 "balances" "Transfer"
                 ["alice"; "bob"; "5000000000000000000"];
               eventAt 1 "transactionPayment" "TransactionFeePaid"
                 ["alice"; "7000000000000000"; "0"]]
  | [Byte.x00] => Returns []
  | _ => Throws "unknown block"
  end.

Definition demoApi : ApiPromise :=
  {| getFinalizedHead := Returns [Byte.x02];
     getHeader := fun _ => Returns 2;
     getBlockHash := fun n => if n =? 2 then Returns [Byte.x02]
                              else if n =? 1 then Returns [Byte.x01]
                              else if n =? 0 then Returns [Byte.x00]
                              else Throws "unknown height";
     getBlock := demoBlock;
     eventsAt := demoEvents;
     isExtrinsicFailed := fun e => ((eventSection e =? "system")
                                    && (eventMethod e =? "ExtrinsicFailed"))%string;
     isBalancesTransfer := None;
     isCurrenciesTransferred := None;
     isTokensTransfer := None;
     isAssetsTransferred := None;
     isBalancesWithdraw := None;
     isTransactionFeePaid := None |}.

(** a text without any decimal digit: it is no number *)
Definition hasNoDigit (s : string) : bool :=
  JsString.allChars (fun c => negb (JsString.isDigit c)) s.

(** the account of Alice on a development chain, as a call argument or an
    event field prints it *)
Definition aliceAddress : string :=
  "5GrwvaEF5zXb26Fz9rcQpDWS57CtERHpNehXCPcNoHGKutQY".

(** "the integer part of the returned string equals floor (value / 10 ^ 18)
    exactly, and the call never throws", for the padded formatter under a
    locale formatter, a [Math.pow] and a reading of "integer part" *)
Definition paddedIsExact (toLocaleString : Double.double -> Z -> js string)
    (Math_pow : Double.double -> Double.double -> Double.double)
    (integerPartOf : string -> string) : Prop :=
  forall s,
    JsString.isDecimalString s = true ->
    JsString.decimalValue s <= 2 ^ 128 ->
    exists r,
      Utils.formatTxor toLocaleString Math_pow (Utils.RawString s) 18 4 = Returns r /\
      integerPartOf r = BN.toString (JsString.decimalValue s / 10 ^ 18).

(** what one height of the batch yields when it is processed on its own *)
Definition contributionOf (api : ApiPromise) (blockNumber : Z) : Store.Collected :=
  Store.collectBlocks api [blockNumber].





Definition appendCollected (a b : Store.Collected) : Store.Collected :=
  {| Store.collectedBlocks := Store.collectedBlocks a ++ Store.collectedBlocks b;
     Store.collectedTransactions :=
       Store.collectedTransactions a ++ Store.collectedTransactions b |}.

Definition nothingCollected : Store.Collected :=
  {| Store.collectedBlocks := []; Store.collectedTransactions := [] |}.

(** what one height adds to the two arrays of the earlier fetcher *)
Definition plainBlocksOf (api : ApiPromise) (n : Z) : list Store.Block :=
  match Store.fetchPlainBlock api n with
  | Returns (b, _) => [b]
  | Throws _ => []
  end.

Definition plainTransactionsOf (api : ApiPromise) (n : Z)
    : list Store.PlainTransaction :=
  match Store.fetchPlainBlock api n with
  | Returns (_, pushed) => pushed
  | Throws _ => []
  end.

(** [balances.transferAll(bob, false)] signed by alice: its second argument
    is the [keepAlive] flag *)
Definition transferAllCall : Extrinsic :=
  {| hash := [Byte.x0a]; section := "balances"; method := "transferAll";
     args := [text "bob"; text "false"]; signer := Some (text "alice");
     nonce := Some 4; tip := None; era := None; signature := None |}.





(** the active stake of the ledgers that exist, added up *)
Definition activeStakeSum (stakingLedgers : list (option Z)) : Z :=
  fold_right (fun ledger sum => match ledger with
                                | Some active => active + sum
                                | None => sum
                                end) 0 stakingLedgers.

End Spec.

(** ** The fetching actions of the store

    An action that waits for [queryClient.fetchQuery] is given the value that
    the query settles to; the reading of the clock, [Date.now()], is a
    parameter. The store is taken slice by slice: an action touches only the
    fields of its own slice. *)

Module Actions.
Import Chain.

(** the guard of every fetching action:
    [!api || apiState.status !== "connected"] *)
Definition notConnected (c : ConnectionManager.State) : bool :=
  match ConnectionManager.api c with
  | None => true
  | Some _ =>
      negb (ConnectionManager.Status_eqb
              (ConnectionManager.status (ConnectionManager.apiState c))
              ConnectionManager.connected)
  end.

(** *** Transaction details *)

Record Details := {
  transactionDetails : option Store.TransactionDetails;
  isDetailsLoading : bool;
  detailsError : option string
}.

Definition initialDetails : Details :=
  {| transactionDetails := None; isDetailsLoading := true; detailsError := None |}.

Definition setTransactionDetails (details : option Store.TransactionDetails)
    (s : Details) : Details :=
  {| transactionDetails := details;
     isDetailsLoading := isDetailsLoading s;
     detailsError := detailsError s |}.

Definition setDetailsLoading (loading : bool) (s : Details) : Details :=
  {| transactionDetails := transactionDetails s;
     isDetailsLoading := loading;
     detailsError := detailsError s |}.

Definition setDetailsError (error : option string) (s : Details) : Details :=
  {| transactionDetails := transactionDetails s;
     isDetailsLoading := isDetailsLoading s;
     detailsError := error |}.

Definition resetDetailsState (s : Details) : Details :=
  {| transactionDetails := None; isDetailsLoading := false; detailsError := None |}.

(** [fetchTransactionDetails] up to its wait; [false] when it returns at the
    guard *)
Definition fetchTransactionDetailsBegins (c : ConnectionManager.State)
    (s : Details) : Details * bool :=
  if notConnected c then
    (setDetailsError (Some "Not connected to network"%string) s, false)
  else (setDetailsError None (setDetailsLoading true s), true).

(** [fetchTransactionDetails] after its wait, [query] being what the lookup
    settled to *)
Definition fetchTransactionDetailsSettles
    (query : js (option Store.TransactionDetails)) (s : Details) : Details :=
  let s :=
    match query with
    | Returns (Some details) => setTransactionDetails (Some details) s
    | Returns None => setDetailsError (Some "Transaction not found"%string) s
    | Throws message => setDetailsError (Some message) s
    end in
  setDetailsLoading false s.

(** the whole action, nothing else running during its wait *)
Definition fetchTransactionDetails (c : ConnectionManager.State)
    (query : js (option Store.TransactionDetails)) (s : Details) : Details :=
  let '(s, waits) := fetchTransactionDetailsBegins c s in
  if waits then fetchTransactionDetailsSettles query s else s.

(** *** Recent transactions *)

Record Recent := {
  transactionData : Store.TransactionData;
  isTransactionLoading : bool;
  isTransactionFetching : bool
}.

Definition initialRecent : Recent :=
  {| transactionData := Store.emptyTransactionData 0;
     isTransactionLoading := true;
     isTransactionFetching := false |}.

(** a [Partial<TransactionData>] *)
Record TransactionDataUpdates := {
  newTransactions : option (list Store.Transaction);
  newBlocks : option (list Store.Block);
  newLastUpdated : option Z
}.

(** every field of a [TransactionData] *)
Definition allOf (data : Store.TransactionData) : TransactionDataUpdates :=
  {| newTransactions := Some (Store.transactions data);
     newBlocks := Some (Store.blocks data);
     newLastUpdated := Some (Store.lastUpdated data) |}.

Definition orKeep {A} (update : option A) (current : A) : A :=
  match update with
  | Some v => v
  | None => current
  end.

(** [{ ...state.transactionData, ...updates, lastUpdated: Date.now() }] *)
Definition setTransactionData (updates : TransactionDataUpdates) (now : Z)
    (s : Recent) : Recent :=
  {| transactionData :=
       {| Store.transactions :=
            orKeep (newTransactions updates) (Store.transactions (transactionData s));
          Store.blocks :=
            orKeep (newBlocks updates) (Store.blocks (transactionData s));
          Store.lastUpdated := now |};
     isTransactionLoading := isTransactionLoading s;
     isTransactionFetching := isTransactionFetching s |}.

Definition setTransactionFlags (loading fetching : bool) (s : Recent) : Recent :=
  {| transactionData := transactionData s;
     isTransactionLoading := loading;
     isTransactionFetching := fetching |}.

Definition fetchTransactionDataBegins (c : ConnectionManager.State) (s : Recent)
    : Recent * bool :=
  if notConnected c then (setTransactionFlags false false s, false)
  else (setTransactionFlags true true s, true).

(** after the wait: [now] is the clock in the [catch], [now'] the clock in
    [setTransactionData] *)
Definition fetchTransactionDataSettles (query : js Store.TransactionData)
    (now now' : Z) (s : Recent) : Recent :=
  let s :=
    match query with
    | Returns data => setTransactionData (allOf data) now' s
    | Throws _ =>
        setTransactionData
          {| newTransactions := Some []; newBlocks := Some [];
             newLastUpdated := Some now |} now' s
    end in
  setTransactionFlags false false s.

Definition fetchTransactionData (c : ConnectionManager.State)
    (query : js Store.TransactionData) (now now' : Z) (s : Recent) : Recent :=
  let '(s, waits) := fetchTransactionDataBegins c s in
  if waits then fetchTransactionDataSettles query now now' s else s.

(** [refreshTransactionData]: the list is cleared at the clock [cleared],
    then [fetchTransactionData] runs *)
Definition refreshTransactionData (c : ConnectionManager.State)
    (query : js Store.TransactionData) (cleared now now' : Z) (s : Recent)
    : Recent :=
  let s :=
    setTransactionData
      {| newTransactions := Some []; newBlocks := Some [];
         newLastUpdated := Some 0 |} cleared s in
  fetchTransactionData c query now now' s.

(** *** Validators *)

Record ValidatorInfo := {
  address : string;
  commission : Double.double;
  selfBonded : string;
  nominators : Z;
  totalStake : string;
  validatorStatus : string
}.

(** the three staking queries; a commission is a [Perbill], which
    [toNumber()] always converts *)
Record StakingQueries := {
  sessionValidators : js (list Codec);
  stakingValidators : string -> js Z;
  stakingLedger : string -> js (option Codec)
}.

(** the callback of the [map]: the queries of one validator, and the row
    that stands for it *)
Definition validatorInfoOf (q : StakingQueries) (addressCodec : Codec)
    : ValidatorInfo :=
  let address := toString addressCodec in
  match stakingValidators q address, stakingLedger q address with
  | Returns perbill, Returns ledger =>
      {| address := address;
         commission := Double.div (Double.ofZ perbill) (Double.ofZ 10000000);
         selfBonded := match ledger with
                       | Some active => toString active
                       | None => "0"%string
                       end;
         nominators := 0;
         totalStake := "0";
         validatorStatus := "active" |}
  | _, _ =>
      {| address := address;
         commission := Double.ofZ 0;
         selfBonded := "0";
         nominators := 0;
         totalStake := "0";
         validatorStatus := "unknown" |}
  end.

(** the query function of [fetchValidators] *)
Definition validatorsQuery (q : StakingQueries) : js (list ValidatorInfo) :=
  (validatorAddresses <- sessionValidators q ;;
   Returns (map (validatorInfoOf q) (firstn 10 validatorAddresses)))%js.

(** [fetchValidators], [query] being what [fetchQuery] settled to *)
Definition fetchValidators (c : ConnectionManager.State)
    (query : js (list ValidatorInfo)) (validators : list ValidatorInfo)
    : list ValidatorInfo :=
  if notConnected c then validators
  else match query with
       | Returns validatorInfos => validatorInfos
       | Throws _ => []
       end.

End Actions.

(** ** [src/lib/utils.ts]: the wallet's network

    The injected wallet, [window.ethereum], answers a request by resolving
    or by rejecting with an error that may carry a numeric [code]. The
    functions are given the wallet's answers and return the requests that
    they made, in order, with what their promise settles to. *)

Module Wallet.

(** how a request to the wallet settles; a rejection carries an error
    object, as EIP-1193 prescribes: its [code], when that is a number, and
    its message *)
Inductive Reply (A : Type) : Type :=
| Resolves (a : A)
| Rejects (code : option Z) (message : string).

Arguments Resolves {A} a.
Arguments Rejects {A} code message.

(** the parameter of [wallet_addEthereumChain] *)
Record ChainParameters := {
  chainId : string;
  chainName : string;
  currencyName : string;
  currencySymbol : string;
  currencyDecimals : Z;
  rpcUrls : list string;
  blockExplorerUrls : list string
}.

Inductive Request :=
| EthChainId
| SwitchEthereumChain (chainId : string)
| AddEthereumChain (parameters : ChainParameters).

(** [window.ethereum]: its answer to each request; the chain id is [None]
    when the answer is not a string *)
Record Ethereum := {
  ethChainId : Reply (option string);
  switchEthereumChain : string -> Reply unit;
  addEthereumChain : ChainParameters -> Reply unit
}.

(** [bsc.id] of [wagmi/chains] *)
Definition bscId : N := 56.

(** [n.toString(16)] *)
Definition toString16 (n : N) : string :=
  HexadecimalString.NilZero.string_of_uint (N.to_hex_uint n).

Definition expectedChainId : string := "0x" ++ toString16 bscId.

Definition bscParameters : ChainParameters :=
  {| chainId := "0x38";
     chainName := "Binance Smart Chain Mainnet";
     currencyName := "BNB";
     currencySymbol := "BNB";
     currencyDecimals := 18;
     rpcUrls := ["https://bsc-dataseed.binance.org/"%string];
     blockExplorerUrls := ["https://bscscan.com/"%string] |}.

Definition addBSCToWallet (ethereum : option Ethereum)
    : list Request * Reply unit :=
  match ethereum with
  | None =>
      ([], Rejects None "Cannot read properties of undefined (reading 'request')")
  | Some wallet =>
      ([AddEthereumChain bscParameters], addEthereumChain wallet bscParameters)
  end.

Definition isExpected (answer : option string) : bool :=
  match answer with
  | Some s => (s =? expectedChainId)%string
  | None => false
  end.

(** [error.code === 4902], the code of a chain that the wallet does not know *)
Definition isUnrecognizedChain (code : option Z) : bool :=
  match code with
  | Some c => c =? 4902
  | None => false
  end.

Definition ensureBSCNetwork (ethereum : option Ethereum)
    : list Request * Reply unit :=
  match ethereum with
  | None => ([], Resolves tt)
  | Some wallet =>
      match ethChainId wallet with
      | Rejects code message => ([EthChainId], Rejects code message)
      | Resolves answer =>
          if isExpected answer then ([EthChainId], Resolves tt)
          else
            match switchEthereumChain wallet expectedChainId with
            | Resolves _ =>
                ([EthChainId; SwitchEthereumChain expectedChainId], Resolves tt)
            | Rejects code _ =>
                if isUnrecognizedChain code then
                  let '(requests, settled) := addBSCToWallet ethereum in
                  (([EthChainId; SwitchEthereumChain expectedChainId]
                    ++ requests)%list, settled)
                else
                  ([EthChainId; SwitchEthereumChain expectedChainId], Resolves tt)
            end
      end
  end.

End Wallet.

(** * Properties *)

(** ** Transfer detection *)

Lemma transferShaped_isTransferEvent (api : Chain.ApiPromise) (r : Chain.EventRecord) :
  Spec.isTransferShaped (Chain.event r) = true -> Store.isTransferEvent api r = true.
Proof.
  unfold Spec.isTransferShaped, Store.isTransferEvent; cbv zeta.
  intros H.
  repeat rewrite orb_true_iff in H.
  repeat rewrite orb_true_iff.
  tauto.
Qed.

Lemma filter_has_head {A} (p : A -> bool) (l : list A) (x : A) :
  In x l -> p x = true -> exists first rest, filter p l = first :: rest.
Proof.
  intros Hin Hp.
  destruct (filter p l) as [|first rest] eqn:E.
  - assert (Hx : In x (filter p l)) by (apply filter_In; split; assumption).
    rewrite E in Hx. destruct Hx.
  - exists first, rest. reflexivity.
Qed.

Lemma detectStaking_keeps (ext : Chain.Extrinsic) (info : Store.TransferInfo) :
  Store.isTransfer (Store.detectStaking ext info) = Store.isTransfer info /\
  Store.from (Store.detectStaking ext info) = Store.from info /\
  Store.to (Store.detectStaking ext info) = Store.to info /\
  Store.amount (Store.detectStaking ext info) = Store.amount info.
Proof.
  unfold Store.detectStaking.
  destruct (_ && _); simpl; auto.
Qed.

(** C1, as amended. When the selected events hold a transfer-shaped event,
    [detectTransferFromExtrinsic] marks the extrinsic as a transfer, and the
    first event that passes the transfer filter decides the fields: with three
    data fields or more they become [from], [to] and [amount], whatever the
    method name gave; with fewer, the values of the method-name step stay. *)
Theorem detectTransfer_first_event_decides
    (api : Chain.ApiPromise) (ext : Chain.Extrinsic)
    (events : list Chain.EventRecord) (r : Chain.EventRecord) :
  In r events ->
  Spec.isTransferShaped (Chain.event r) = true ->
  let info := Store.detectTransferFromExtrinsic ext events api in
  let guess := Store.detectByMethod ext Store.initialTransferInfo in
  exists first,
    hd_error (filter (Store.isTransferEvent api) events) = Some first /\
    Store.isTransfer info = true /\
    ((3 <= List.length (Chain.data (Chain.event first)))%nat ->
       Store.from info = Spec.field 0 (Chain.event first) /\
       Store.to info = Spec.field 1 (Chain.event first) /\
       Store.amount info = Spec.field 2 (Chain.event first)) /\
    ((List.length (Chain.data (Chain.event first)) < 3)%nat ->
       Store.from info = Store.from guess /\
       Store.to info = Store.to guess /\
       Store.amount info = Store.amount guess).
Proof.
  intros Hin Hshape info guess.
  destruct (filter_has_head (Store.isTransferEvent api) events r Hin
              (transferShaped_isTransferEvent api r Hshape)) as (first & rest & E).
  exists first.
  subst info.
  unfold Store.detectTransferFromExtrinsic.
  destruct (detectStaking_keeps ext
              (Store.detectByEvents api events guess)) as (K1 & K2 & K3 & K4).
  fold guess. rewrite K1, K2, K3, K4.
  unfold Store.detectByEvents. rewrite E. simpl hd_error.
  split; [reflexivity|].
  unfold Spec.field.
  destruct (Chain.data (Chain.event first)) as [|d0 [|d1 [|d2 more]]]; simpl;
    (split; [reflexivity|]); split; intros Hlen; try lia; auto.
Qed.

Lemma detectTransfer_first_event_decides_witness :
  exists first,
    hd_error (filter (Store.isTransferEvent Spec.bareApi)
                [Spec.transferEvent ["carol"; "dave"; "9"]]) = Some first /\
    Store.from (Store.detectTransferFromExtrinsic Spec.aliceToBob
                  [Spec.transferEvent ["carol"; "dave"; "9"]] Spec.bareApi)
    = Some "carol"%string.
Proof.
  destruct (detectTransfer_first_event_decides Spec.bareApi Spec.aliceToBob
              [Spec.transferEvent ["carol"; "dave"; "9"]]
              (Spec.transferEvent ["carol"; "dave"; "9"])
              (or_introl eq_refl) eq_refl) as (first & Hhd & _ & Hfull & _).
  exists first. split; [exact Hhd|].
  assert (first = Spec.transferEvent ["carol"; "dave"; "9"]) as ->
    by (simpl in Hhd; congruence).
  destruct (Hfull ltac:(simpl; lia)) as (Hfrom & _).
  exact Hfrom.
Defined.

(** C1 as stated fails: an extrinsic matched by its method name, whose first
    transfer event has two data fields only, keeps the method-name values
    although a complete transfer event follows. *)
Lemma detectTransfer_event_does_not_always_win :
  ~ Spec.eventWins
      (Store.detectTransferFromExtrinsic Spec.aliceToBob
         [Spec.transferEvent ["carol"; "dave"];
          Spec.transferEvent ["erin"; "frank"; "9"]] Spec.bareApi)
      [Spec.transferEvent ["carol"; "dave"];
       Spec.transferEvent ["erin"; "frank"; "9"]].
Proof.
  intros (_ & r & Hin & _ & Hfrom & _).
  simpl in Hin.
  destruct Hin as [<- | [<- | []]]; vm_compute in Hfrom; discriminate.
Qed.

(** ** Recent transaction activity: one bad block does not abort the batch *)

Lemma appendCollected_nothing_r (a : Store.Collected) :
  Spec.appendCollected a Spec.nothingCollected = a.
Proof.
  destruct a; unfold Spec.appendCollected; simpl.
  now rewrite !app_nil_r.
Qed.

Lemma appendCollected_assoc (a b c : Store.Collected) :
  Spec.appendCollected (Spec.appendCollected a b) c
  = Spec.appendCollected a (Spec.appendCollected b c).
Proof.
  unfold Spec.appendCollected; simpl. now rewrite !app_assoc.
Qed.

Lemma forEachExtrinsic_append api bn bh ts events exts :
  forall index acc,
    fst (Store.forEachExtrinsic api bn bh ts events index exts acc)
    = Spec.appendCollected acc
        (fst (Store.forEachExtrinsic api bn bh ts events index exts
                Spec.nothingCollected)).
Proof.
  induction exts as [|ext rest IH]; intros index acc; simpl.
  - now rewrite appendCollected_nothing_r.
  - destruct (Store.buildTransaction api bn bh ts events index ext) as [t|e]; simpl.
    + rewrite (IH (S index) (Store.pushTransaction t acc)).
      rewrite (IH (S index) (Store.pushTransaction t Spec.nothingCollected)).
      rewrite <- appendCollected_assoc. f_equal.
      unfold Spec.appendCollected, Store.pushTransaction; simpl.
      now rewrite app_nil_r.
    + now rewrite appendCollected_nothing_r.
Qed.

Lemma processBlock_append api bn bh block events acc :
  fst (Store.processBlock api bn bh block events acc)
  = Spec.appendCollected acc
      (fst (Store.processBlock api bn bh block events Spec.nothingCollected)).
Proof.
  unfold Store.processBlock.
  destruct (Store.blockTimestampOf (Chain.extrinsics block)) as [ts|e]; simpl;
    [|now rewrite appendCollected_nothing_r].
  destruct bh as [h|]; simpl; [|now rewrite appendCollected_nothing_r].
  rewrite forEachExtrinsic_append.
  rewrite (forEachExtrinsic_append _ _ _ _ _ _ _ (Store.pushBlock _ Spec.nothingCollected)).
  rewrite <- appendCollected_assoc. f_equal.
  unfold Spec.appendCollected, Store.pushBlock; simpl. now rewrite app_nil_r.
Qed.

Lemma processBlocks_append api entries :
  forall acc,
    Store.processBlocks api entries acc
    = Spec.appendCollected acc (Store.processBlocks api entries Spec.nothingCollected).
Proof.
  induction entries as [|[bn [bh [[block events]|]]] rest IH]; intros acc; simpl.
  - now rewrite appendCollected_nothing_r.
  - rewrite IH.
    rewrite (IH (fst (Store.processBlock api bn bh block events Spec.nothingCollected))).
    rewrite processBlock_append.
    now rewrite appendCollected_assoc.
  - apply IH.
Qed.

Lemma collectBlocks_cons api n ns :
  Store.collectBlocks api (n :: ns)
  = Spec.appendCollected (Spec.contributionOf api n) (Store.collectBlocks api ns).
Proof.
  unfold Spec.contributionOf, Store.collectBlocks. simpl.
  fold Spec.nothingCollected.
  destruct (Store.fetchBlockAndEvents api (Store.fetchBlockHash api n))
    as [[block events]|]; simpl.
  - now rewrite processBlocks_append.
  - now rewrite (processBlocks_append _ _ Spec.nothingCollected).
Qed.

Lemma collectBlocks_nil api : Store.collectBlocks api [] = Spec.nothingCollected.
Proof. reflexivity. Qed.

Lemma collectBlocks_transactions api ns :
  Store.collectedTransactions (Store.collectBlocks api ns)
  = flat_map (fun n => Store.collectedTransactions (Spec.contributionOf api n)) ns.
Proof.
  induction ns as [|n ns IH]; [reflexivity|].
  rewrite collectBlocks_cons. simpl. now rewrite IH.
Qed.

Lemma collectBlocks_blocks api ns :
  Store.collectedBlocks (Store.collectBlocks api ns)
  = flat_map (fun n => Store.collectedBlocks (Spec.contributionOf api n)) ns.
Proof.
  induction ns as [|n ns IH]; [reflexivity|].
  rewrite collectBlocks_cons. simpl. now rewrite IH.
Qed.

Lemma buildTransaction_blockNumber api bn bh ts events index ext t :
  Store.buildTransaction api bn bh ts events index ext = Returns t ->
  Store.blockNumber t = bn.
Proof.
  unfold Store.buildTransaction.
  destruct (Store.formatTxor _ 18) as [fee'|e]; simpl; [|discriminate].
  destruct (Store.amount _) as [a|]; simpl.
  - destruct (a =? EmptyString)%string; simpl.
    + intros H; injection H as <-. reflexivity.
    + destruct (Store.formatTxor a 18); simpl; [|discriminate].
      intros H; injection H as <-. reflexivity.
  - intros H; injection H as <-. reflexivity.
Qed.

Lemma forEachExtrinsic_blockNumber api bn bh ts events exts :
  forall index t,
    In t (Store.collectedTransactions
            (fst (Store.forEachExtrinsic api bn bh ts events index exts
                    Spec.nothingCollected))) ->
    Store.blockNumber t = bn.
Proof.
  induction exts as [|ext rest IH]; intros index t; simpl; [tauto|].
  destruct (Store.buildTransaction api bn bh ts events index ext) as [u|e] eqn:E;
    simpl; [|tauto].
  rewrite forEachExtrinsic_append. simpl.
  intros [<- | Hin].
  - eapply buildTransaction_blockNumber; eassumption.
  - eapply IH; eassumption.
Qed.

Lemma forEachExtrinsic_blocks api bn bh ts events exts :
  forall index acc,
    Store.collectedBlocks
      (fst (Store.forEachExtrinsic api bn bh ts events index exts acc))
    = Store.collectedBlocks acc.
Proof.
  induction exts as [|ext rest IH]; intros index acc; simpl; [reflexivity|].
  destruct (Store.buildTransaction api bn bh ts events index ext); simpl;
    [|reflexivity].
  now rewrite IH.
Qed.

Lemma contribution_blockNumber api n t :
  In t (Store.collectedTransactions (Spec.contributionOf api n)) ->
  Store.blockNumber t = n.
Proof.
  unfold Spec.contributionOf, Store.collectBlocks; simpl.
  destruct (Store.fetchBlockAndEvents api (Store.fetchBlockHash api n))
    as [[block events]|]; simpl; [|tauto].
  unfold Store.processBlock.
  destruct (Store.blockTimestampOf _); simpl; [|tauto].
  destruct (Store.fetchBlockHash api n); simpl; [|tauto].
  rewrite forEachExtrinsic_append. simpl.
  apply forEachExtrinsic_blockNumber.
Qed.

Lemma contribution_height api n b :
  In b (Store.collectedBlocks (Spec.contributionOf api n)) ->
  Store.height b = n.
Proof.
  unfold Spec.contributionOf, Store.collectBlocks; simpl.
  destruct (Store.fetchBlockAndEvents api (Store.fetchBlockHash api n))
    as [[block events]|]; simpl; [|tauto].
  unfold Store.processBlock.
  destruct (Store.blockTimestampOf _); simpl; [|tauto].
  destruct (Store.fetchBlockHash api n); simpl; [|tauto].
  rewrite forEachExtrinsic_blocks. simpl.
  intros [<- | []]. reflexivity.
Qed.


Lemma filter_none {A} (p : A -> bool) (l : list A) :
  (forall x, In x l -> p x = false) -> filter p l = [].
Proof.
  induction l as [|x l IH]; intros H; [reflexivity|].
  simpl. rewrite (H x (or_introl eq_refl)).
  apply IH. intros y Hy. apply H. now right.
Qed.







Lemma In_firstn_In {A} (l : list A) :
  forall k x, In x (firstn k l) -> In x l.
Proof.
  induction l as [|y l IH]; intros [|k] x; simpl; try tauto.
  intros [-> | H]; [now left | right; now apply (IH k)].
Qed.













Lemma fetch_unfold api now :
  Store.fetchEnhancedTransactionData api now
  = match Chain.getFinalizedHead api with
    | Throws _ => Returns (Store.emptyTransactionData now)
    | Returns finalizedHead =>
        match Chain.getHeader api finalizedHead with
        | Throws _ => Returns (Store.emptyTransactionData now)
        | Returns latest =>
            Returns (Store.resultOf
                       (Store.collectBlocks api (Store.recentBlockNumbers latest)) now)
        end
    end.
Proof. reflexivity. Qed.

(** On the small chain, formatting the fee of the second call of height 2
    throws: the calls of height 2 from there on are lost, its block record and
    its first call stay, and heights 1 and 0 are complete. *)
Example processing_error_ends_one_block_only :
  exists d,
    Store.fetchEnhancedTransactionData Spec.demoApi 0 = Returns d /\
    map Store.height (Store.blocks d) = [2; 1; 0] /\
    map (fun t => (Store.txHash t, Store.blockNumber t)) (Store.transactions d)
    = [("0x10"%string, 2); ("0x10"%string, 1); ("0xabcd"%string, 1)].
Proof.
  eexists. split; [reflexivity|]. split; vm_compute; reflexivity.
Qed.

(** ** Transaction lookup: the prefix and the letter case of the hash *)

Lemma append_nil_r (s : string) : (s ++ EmptyString)%string = s.
Proof. induction s as [|c s IH]; simpl; [reflexivity | now rewrite IH]. Qed.

Lemma append_assoc (a b c : string) :
  ((a ++ b) ++ c)%string = (a ++ (b ++ c))%string.
Proof. induction a as [|x a IH]; simpl; [reflexivity | now rewrite IH]. Qed.

Lemma rev_append (a b : string) :
  JsString.rev (a ++ b) = (JsString.rev b ++ JsString.rev a)%string.
Proof.
  induction a as [|x a IH]; simpl.
  - now rewrite append_nil_r.
  - now rewrite IH, append_assoc.
Qed.

Lemma rev_involutive (s : string) : JsString.rev (JsString.rev s) = s.
Proof.
  induction s as [|c s IH]; simpl; [reflexivity|].
  rewrite rev_append. simpl. now rewrite IH.
Qed.

Lemma allChars_append p (a b : string) :
  JsString.allChars p (a ++ b) = JsString.allChars p a && JsString.allChars p b.
Proof.
  induction a as [|x a IH]; simpl; [reflexivity|].
  now rewrite IH, andb_assoc.
Qed.

Lemma allChars_rev p (s : string) :
  JsString.allChars p (JsString.rev s) = JsString.allChars p s.
Proof.
  induction s as [|c s IH]; simpl; [reflexivity|].
  rewrite allChars_append, IH. simpl. rewrite andb_true_r. apply andb_comm.
Qed.

Lemma allChars_impl (p q : ascii -> bool) (s : string) :
  (forall c, p c = true -> q c = true) ->
  JsString.allChars p s = true -> JsString.allChars q s = true.
Proof.
  intros H. induction s as [|c s IH]; simpl; [reflexivity|].
  rewrite !andb_true_iff. intros [Hc Hs]. split; [now apply H | now apply IH].
Qed.

Lemma trimStart_id (s : string) :
  JsString.allChars (fun c => negb (JsString.isWhitespace c)) s = true ->
  JsString.trimStart s = s.
Proof.
  destruct s as [|c s]; simpl; [reflexivity|].
  rewrite andb_true_iff. intros [Hc _].
  now destruct (JsString.isWhitespace c).
Qed.

Lemma trim_id (s : string) :
  JsString.allChars (fun c => negb (JsString.isWhitespace c)) s = true ->
  JsString.trim s = s.
Proof.
  intros H. unfold JsString.trim, JsString.trimEnd.
  rewrite (trimStart_id s H).
  rewrite trimStart_id by now rewrite allChars_rev.
  apply rev_involutive.
Qed.

Ltac by_cases_on_char c :=
  destruct c as [[] [] [] [] [] [] [] []]; vm_compute; try reflexivity; try discriminate.

Lemma hexDigit_not_whitespace (c : ascii) :
  Spec.isHexDigit c = true -> negb (JsString.isWhitespace c) = true.
Proof. by_cases_on_char c. Qed.

Lemma hexDigit_not_x (c : ascii) :
  Spec.isHexDigit c = true -> JsString.toLowerChar c <> "x"%char.
Proof. by_cases_on_char c. Qed.

Lemma hexDigit_lower (c : ascii) :
  Spec.isHexDigit c = true -> Spec.isHexDigit (JsString.toLowerChar c) = true.
Proof. by_cases_on_char c. Qed.

Lemma toLowerChar_idempotent (c : ascii) :
  JsString.toLowerChar (JsString.toLowerChar c) = JsString.toLowerChar c.
Proof. by_cases_on_char c. Qed.

Lemma toLowerCase_idempotent (s : string) :
  JsString.toLowerCase (JsString.toLowerCase s) = JsString.toLowerCase s.
Proof.
  induction s as [|c s IH]; simpl; [reflexivity|].
  now rewrite toLowerChar_idempotent, IH.
Qed.

Lemma isHexString_lower (s : string) :
  Spec.isHexString s = true -> Spec.isHexString (JsString.toLowerCase s) = true.
Proof.
  unfold Spec.isHexString.
  induction s as [|c s IH]; simpl; [reflexivity|].
  rewrite !andb_true_iff. intros [Hc Hs].
  split; [now apply hexDigit_lower | now apply IH].
Qed.

(** the lower-cased text of a hexadecimal string never reads ["?x..."] *)
Lemma hex_lower_no_x_second (h : string) (c : ascii) (rest : string) :
  Spec.isHexString h = true ->
  JsString.toLowerCase h <> String c (String "x" rest).
Proof.
  unfold Spec.isHexString.
  destruct h as [|c1 [|c2 h]]; simpl; try discriminate.
  rewrite !andb_true_iff. intros (_ & H2 & _) E.
  injection E as _ E2 _.
  now apply (hexDigit_not_x c2 H2).
Qed.

Lemma toLowerCase_eq (a b : string) :
  a = b -> JsString.toLowerCase a = JsString.toLowerCase b.
Proof. now intros ->. Qed.

Lemma prefix_empty (s : string) : String.prefix EmptyString s = true.
Proof. now destruct s. Qed.

Lemma prefix_0x (h : string) : String.prefix "0x" ("0x" ++ h) = true.
Proof.
  apply String.prefix_correct. now destruct h.
Qed.

Lemma hex_no_0x_prefix (h : string) :
  Spec.isHexString h = true -> String.prefix "0x" h = false.
Proof.
  unfold Spec.isHexString. intros H.
  destruct (String.prefix "0x" h) eqn:P; [|reflexivity].
  apply String.prefix_correct in P.
  destruct h as [|c1 [|c2 h]]; try discriminate P.
  cbn [String.length String.substring] in P.
  injection P as _ E2 _. subst c2.
  cbn [JsString.allChars] in H.
  apply andb_true_iff in H. destruct H as [_ H].
  apply andb_true_iff in H. destruct H as [H _].
  discriminate H.
Qed.

Lemma removeFirst_hex (h : string) :
  Spec.isHexString h = true -> JsString.removeFirst "0x" h = h.
Proof.
  induction h as [|c h IH]; intros H.
  - reflexivity.
  - cbn [JsString.removeFirst]. rewrite (hex_no_0x_prefix _ H).
    f_equal. apply IH.
    unfold Spec.isHexString in *. simpl in H.
    now apply andb_true_iff in H.
Qed.

Lemma removeFirst_prefixed (h : string) :
  JsString.removeFirst "0x" ("0x" ++ h) = h.
Proof.
  destruct h; reflexivity.
Qed.

Lemma supplied_not_whitespace (withPrefix : bool) (h : string) :
  Spec.isHexString h = true ->
  JsString.allChars (fun c => negb (JsString.isWhitespace c))
    (Spec.supplied withPrefix h) = true.
Proof.
  intros H.
  assert (Hh : JsString.allChars (fun c => negb (JsString.isWhitespace c)) h = true)
    by (apply (allChars_impl Spec.isHexDigit); [apply hexDigit_not_whitespace | exact H]).
  destruct withPrefix; simpl; [|exact Hh].
  exact Hh.
Qed.

Lemma hex_is_not_a_hex_hash (eh : Chain.Hash) (h : string) :
  Spec.isHexString h = true ->
  JsString.toLowerCase (Chain.toHex eh) <> JsString.toLowerCase h.
Proof.
  intros H E. symmetry in E.
  exact (hex_lower_no_x_second h _ _ H E).
Qed.

(** for a hexadecimal [h], each of the six comparisons of [hashMatches]
    comes down to one: the lower-cased hash of the extrinsic is ["0x"]
    followed by the lower-cased [h] *)
Lemma hashMatches_hex (eh : Chain.Hash) (h : string) (withPrefix : bool) :
  Spec.isHexString h = true ->
  Store.hashMatches (Chain.toHex eh) ("0x" ++ h) (Spec.supplied withPrefix h)
  = (JsString.toLowerCase (Chain.toHex eh) =? "0x" ++ JsString.toLowerCase h)%string.
Proof.
  intros H. unfold Store.hashMatches.
  assert (Hne : (Chain.toHex eh =? h)%string = false).
  { apply String.eqb_neq. intros E.
    apply (hex_is_not_a_hex_hash eh h H). now rewrite E. }
  assert (Hlne : (JsString.toLowerCase (Chain.toHex eh)
                  =? JsString.toLowerCase h)%string = false).
  { apply String.eqb_neq. now apply hex_is_not_a_hex_hash. }
  assert (Hl : JsString.toLowerCase ("0x" ++ h)
               = ("0x" ++ JsString.toLowerCase h)%string) by reflexivity.
  assert (D1 : (JsString.toLowerCase (Chain.toHex eh)
                =? "0x" ++ JsString.toLowerCase h)%string = false ->
               (Chain.toHex eh =? "0x" ++ h)%string = false).
  { intros D3. apply String.eqb_neq. intros E. apply String.eqb_neq in D3.
    apply D3. now rewrite E. }
  unfold Spec.supplied.
  destruct withPrefix;
    rewrite ?removeFirst_prefixed, ?(removeFirst_hex h H), ?Hl, ?Hne, ?Hlne;
    destruct (JsString.toLowerCase (Chain.toHex eh)
              =? "0x" ++ JsString.toLowerCase h)%string eqn:D3;
    rewrite ?(D1 eq_refl), ?orb_true_r, ?orb_false_r; reflexivity.
Qed.

Lemma findIndex_ext {A} (p q : A -> bool) (l : list A) :
  (forall x, p x = q x) -> Store.findIndex p l = Store.findIndex q l.
Proof.
  intros H. induction l as [|x l IH]; simpl; [reflexivity|].
  now rewrite H, IH.
Qed.

Lemma searchBlock_ext api sh nh sh' nh' bn :
  (forall eh, Store.hashMatches (Chain.toHex eh) sh nh
              = Store.hashMatches (Chain.toHex eh) sh' nh') ->
  Store.searchBlock api sh nh bn = Store.searchBlock api sh' nh' bn.
Proof.
  intros H. unfold Store.searchBlock.
  destruct (Chain.getBlockHash api bn) as [bh|]; simpl; [|reflexivity].
  destruct (Chain.getBlock api bh) as [block|]; simpl; [|reflexivity].
  destruct (Chain.eventsAt api bh) as [events|]; simpl; [|reflexivity].
  now rewrite (findIndex_ext _
                 (fun ext => Store.hashMatches (Chain.toHex (Chain.hash ext)) sh' nh')
                 _ (fun ext => H (Chain.hash ext))).
Qed.

Lemma searchLoop_ext api sh nh sh' nh' latest offsets :
  (forall eh, Store.hashMatches (Chain.toHex eh) sh nh
              = Store.hashMatches (Chain.toHex eh) sh' nh') ->
  Store.searchLoop api sh nh latest offsets
  = Store.searchLoop api sh' nh' latest offsets.
Proof.
  intros H. induction offsets as [|i rest IH]; simpl; [reflexivity|].
  rewrite (searchBlock_ext api sh nh sh' nh' _ H), IH. reflexivity.
Qed.

Lemma findTransactionByHash_supplied api (withPrefix : bool) (h : string) :
  Spec.isHexString h = true ->
  Store.findTransactionByHash api (Spec.supplied withPrefix h)
  = tryCatch
      (Store.performTransactionSearch api ("0x" ++ h) (Spec.supplied withPrefix h))
      (fun e => Throws e).
Proof.
  intros H. unfold Store.findTransactionByHash.
  rewrite (trim_id _ (supplied_not_whitespace withPrefix h H)).
  unfold JsString.startsWith, Spec.supplied.
  destruct withPrefix.
  - now rewrite prefix_0x.
  - now rewrite (hex_no_0x_prefix h H).
Qed.

Lemma findTransactionByHash_canonical api (withPrefix : bool) (h : string) :
  Spec.isHexString h = true ->
  Store.findTransactionByHash api (Spec.supplied withPrefix h)
  = Store.findTransactionByHash api ("0x" ++ JsString.toLowerCase h).
Proof.
  intros H.
  rewrite (findTransactionByHash_supplied api withPrefix h H).
  change ("0x" ++ JsString.toLowerCase h)%string
    with (Spec.supplied true (JsString.toLowerCase h)) at 1.
  rewrite (findTransactionByHash_supplied api true (JsString.toLowerCase h)
             (isHexString_lower h H)).
  unfold Store.performTransactionSearch.
  destruct (Chain.getFinalizedHead api) as [fh|]; cbn [bind tryCatch];
    [|reflexivity].
  destruct (Chain.getBlock api fh) as [fb|]; cbn [bind tryCatch]; [|reflexivity].
  apply (f_equal Returns).
  apply searchLoop_ext. intros eh.
  rewrite (hashMatches_hex eh h withPrefix H).
  rewrite (hashMatches_hex eh (JsString.toLowerCase h) true (isHexString_lower h H)).
  now rewrite toLowerCase_idempotent.
Qed.

(** C8. For hexadecimal digits [h] and [h'] that differ in letter case at
    most, [findTransactionByHash] gives the same outcome (the same details,
    the same not-found, the same failure) whether each is supplied with or
    without the ["0x"] prefix. *)
Theorem findTransactionByHash_ignores_prefix_and_case
    (api : Chain.ApiPromise) (h h' : string) (withPrefix withPrefix' : bool) :
  Spec.isHexString h = true ->
  Spec.isHexString h' = true ->
  JsString.toLowerCase h = JsString.toLowerCase h' ->
  Store.findTransactionByHash api (Spec.supplied withPrefix h)
  = Store.findTransactionByHash api (Spec.supplied withPrefix' h').
Proof.
  intros H H' E.
  rewrite (findTransactionByHash_canonical api withPrefix h H).
  rewrite (findTransactionByHash_canonical api withPrefix' h' H').
  now rewrite E.
Qed.

Lemma findTransactionByHash_ignores_prefix_and_case_witness :
  Store.findTransactionByHash Spec.demoApi "0xABCD"
  = Store.findTransactionByHash Spec.demoApi "abcd".
Proof.
  exact (findTransactionByHash_ignores_prefix_and_case Spec.demoApi
           "ABCD" "abcd" true false eq_refl eq_refl eq_refl).
Defined.

(** ** The connection manager *)

Section ConnectionFacts.
Import ConnectionManager.

Lemma scheduleReconnect_at_cap (s : State) :
  MAX_RETRIES <= attemptCount s -> scheduleReconnect s = s.
Proof.
  unfold scheduleReconnect, attemptCount. intros H.
  destruct (reconnectTimeout s); [reflexivity|].
  destruct (MAX_RETRIES <=? connectionAttempts (apiState s)) eqn:E;
    [reflexivity|].
  apply Z.leb_gt in E. lia.
Qed.

Lemma scheduleReconnect_attemptCount (s : State) :
  attemptCount (scheduleReconnect s) = attemptCount s.
Proof.
  unfold scheduleReconnect.
  destruct (reconnectTimeout s); [reflexivity|].
  destruct (MAX_RETRIES <=? _); reflexivity.
Qed.

Lemma scheduleReconnect_capRespected (s : State) :
  capRespected s -> capRespected (scheduleReconnect s).
Proof.
  unfold capRespected. rewrite scheduleReconnect_attemptCount. intros H Hcap.
  rewrite (scheduleReconnect_at_cap s Hcap). auto.
Qed.

Lemma cleanupConnection_attemptCount (s : State) :
  attemptCount (cleanupConnection s) = attemptCount s.
Proof. reflexivity. Qed.

Lemma cleanupConnection_reconnectTimeout (s : State) :
  reconnectTimeout (cleanupConnection s) = None.
Proof. reflexivity. Qed.

Lemma connectLoop_attemptCount eps start i (s : State) :
  attemptCount (connectLoop eps start i s) = attemptCount s.
Proof.
  unfold connectLoop.
  destruct (Nat.ltb i (List.length eps)); [reflexivity|].
  now rewrite scheduleReconnect_attemptCount.
Qed.

Lemma connectLoop_capRespected eps start i (s : State) :
  capRespected s -> capRespected (connectLoop eps start i s).
Proof.
  intros H. unfold connectLoop.
  destruct (Nat.ltb i (List.length eps)); [exact H|].
  apply scheduleReconnect_capRespected. exact H.
Qed.

Lemma capRespected_when_unarmed (s : State) :
  reconnectTimeout s = None -> capRespected s.
Proof. intros H _. exact H. Qed.

Lemma connect_capRespected endpoint (s : State) :
  capRespected s -> capRespected (connect endpoint s).
Proof.
  intros H. unfold connect.
  destruct (Status_eqb (status (apiState s)) connecting); [exact H|].
  destruct (truthy endpoint); apply connectLoop_capRespected;
    apply capRespected_when_unarmed; reflexivity.
Qed.

Lemma connect_attemptCount endpoint (s : State) :
  attemptCount (connect endpoint s)
  = if Status_eqb (status (apiState s)) connecting then attemptCount s
    else attemptCount s + 1.
Proof.
  unfold connect.
  destruct (Status_eqb (status (apiState s)) connecting); [reflexivity|].
  destruct (truthy endpoint); now rewrite connectLoop_attemptCount.
Qed.

Lemma setupHealthMonitoring_reconnectTimeout (s : State) :
  reconnectTimeout (setupHealthMonitoring s) = reconnectTimeout s.
Proof. unfold setupHealthMonitoring. now destruct (healthCheckInterval s). Qed.

Lemma setupHealthMonitoring_apiState (s : State) :
  apiState (setupHealthMonitoring s) = apiState s.
Proof. unfold setupHealthMonitoring. now destruct (healthCheckInterval s). Qed.

Lemma attemptSettles_attemptCount provider outcome (s : State) :
  attemptCount (attemptSettles provider outcome s) = attemptCount s.
Proof.
  unfold attemptSettles.
  destruct (find (isAttemptOf provider) (attempts s)); [|reflexivity].
  destruct outcome.
  - unfold attemptCount. cbn. now rewrite setupHealthMonitoring_apiState.
  - now rewrite connectLoop_attemptCount.
Qed.

Lemma attemptSettles_capRespected provider outcome (s : State) :
  capRespected s -> capRespected (attemptSettles provider outcome s).
Proof.
  intros H. unfold attemptSettles.
  destruct (find (isAttemptOf provider) (attempts s)) as [a|]; [|exact H].
  destruct outcome as [now|message].
  - unfold capRespected, attemptCount in *. cbn.
    rewrite setupHealthMonitoring_reconnectTimeout, setupHealthMonitoring_apiState.
    exact H.
  - apply connectLoop_capRespected, capRespected_when_unarmed. reflexivity.
Qed.

Lemma providerEmits_attemptCount provider e (s : State) :
  attemptCount (providerEmits provider e s) = attemptCount s.
Proof.
  unfold providerEmits.
  destruct (isListening provider s); [|reflexivity].
  destruct e; rewrite ?scheduleReconnect_attemptCount; reflexivity.
Qed.

Lemma providerEmits_capRespected provider e (s : State) :
  capRespected s -> capRespected (providerEmits provider e s).
Proof.
  intros H. unfold providerEmits.
  destruct (isListening provider s); [|exact H].
  destruct e; try apply scheduleReconnect_capRespected; exact H.
Qed.

Lemma healthTick_attemptCount (s : State) :
  attemptCount (healthTick s) = attemptCount s.
Proof.
  unfold healthTick.
  destruct (healthCheckInterval s), (api s); try reflexivity.
  destruct (_ || _); reflexivity.
Qed.

Lemma healthTick_capRespected (s : State) :
  capRespected s -> capRespected (healthTick s).
Proof.
  intros H. unfold healthTick.
  destruct (healthCheckInterval s), (api s); try exact H.
  destruct (_ || _); exact H.
Qed.

Lemma healthCheckSettles_attemptCount check outcome (s : State) :
  attemptCount (healthCheckSettles check outcome s) = attemptCount s.
Proof.
  unfold healthCheckSettles.
  destruct (find _ (healthChecks s)) as [h|]; [|reflexivity].
  destruct outcome as [elapsed|message].
  - destruct (MAX_LATENCY <? elapsed), (Status_eqb (seenStatus h) degraded);
      reflexivity.
  - now rewrite scheduleReconnect_attemptCount.
Qed.

Lemma healthCheckSettles_capRespected check outcome (s : State) :
  capRespected s -> capRespected (healthCheckSettles check outcome s).
Proof.
  intros H. unfold healthCheckSettles.
  destruct (find _ (healthChecks s)) as [h|]; [|exact H].
  destruct outcome as [elapsed|message].
  - destruct (MAX_LATENCY <? elapsed), (Status_eqb (seenStatus h) degraded);
      exact H.
  - apply scheduleReconnect_capRespected. exact H.
Qed.

Lemma reconnectFires_capRespected (s : State) :
  capRespected s -> capRespected (reconnectFires s).
Proof.
  intros H. unfold reconnectFires.
  destruct (reconnectTimeout s); [|exact H].
  apply connect_capRespected, capRespected_when_unarmed. reflexivity.
Qed.

Lemma reconnectFires_attemptCount (s : State) :
  attemptCount s <= attemptCount (reconnectFires s).
Proof.
  unfold reconnectFires.
  destruct (reconnectTimeout s); [|lia].
  rewrite connect_attemptCount.
  destruct (Status_eqb _ connecting); cbn; unfold attemptCount; cbn; lia.
Qed.

Lemma step_capRespected (e : Event) (s : State) :
  capRespected s -> capRespected (step e s).
Proof.
  intros H. destruct e; simpl.
  - now apply connect_capRespected.
  - now apply attemptSettles_capRespected.
  - now apply providerEmits_capRespected.
  - now apply healthTick_capRespected.
  - now apply healthCheckSettles_capRespected.
  - now apply reconnectFires_capRespected.
  - apply capRespected_when_unarmed. reflexivity.
Qed.

Lemma run_capRespected (trace : list Event) :
  forall s, capRespected s -> capRespected (run trace s).
Proof.
  induction trace as [|e rest IH]; intros s H; simpl; [exact H|].
  apply IH, step_capRespected, H.
Qed.

(** only [disconnect] lowers the counter *)
Lemma step_attemptCount (e : Event) (s : State) :
  e <> CallDisconnect -> attemptCount s <= attemptCount (step e s).
Proof.
  intros He. destruct e; simpl.
  - rewrite connect_attemptCount. destruct (Status_eqb _ _); lia.
  - rewrite attemptSettles_attemptCount. lia.
  - rewrite providerEmits_attemptCount. lia.
  - rewrite healthTick_attemptCount. lia.
  - rewrite healthCheckSettles_attemptCount. lia.
  - apply reconnectFires_attemptCount.
  - congruence.
Qed.

Lemma run_attemptCount (trace : list Event) :
  forall s, ~ In CallDisconnect trace -> attemptCount s <= attemptCount (run trace s).
Proof.
  induction trace as [|e rest IH]; intros s H; simpl; [lia|].
  assert (He : e <> CallDisconnect) by (intros ->; apply H; now left).
  assert (Hr : ~ In CallDisconnect rest) by (intros Hin; apply H; now right).
  pose proof (step_attemptCount e s He). pose proof (IH (step e s) Hr). lia.
Qed.

(** C4. In every state the run of the connection manager can reach, once the
    attempt counter is at [MAX_RETRIES], [scheduleReconnect] changes nothing
    and no reconnect timer is armed; this stays so over every further run that
    has no [disconnect()] in it. *)
Theorem no_reconnect_scheduled_at_retry_cap (trace later : list Event) :
  MAX_RETRIES <= attemptCount (run trace initialState) ->
  ~ In CallDisconnect later ->
  scheduleReconnect (run trace initialState) = run trace initialState /\
  reconnectTimeout (run trace initialState) = None /\
  MAX_RETRIES <= attemptCount (run later (run trace initialState)) /\
  reconnectTimeout (run later (run trace initialState)) = None /\
  scheduleReconnect (run later (run trace initialState))
  = run later (run trace initialState).
Proof.
  intros Hcap Hlater.
  assert (H0 : capRespected initialState) by (intros _; reflexivity).
  pose proof (run_capRespected trace initialState H0) as H1.
  pose proof (run_capRespected later _ H1) as H2.
  pose proof (run_attemptCount later (run trace initialState) Hlater) as Hmono.
  assert (Hcap' : MAX_RETRIES <= attemptCount (run later (run trace initialState)))
    by lia.
  repeat split.
  - now apply scheduleReconnect_at_cap.
  - now apply H1.
  - exact Hcap'.
  - now apply H2.
  - now apply scheduleReconnect_at_cap.
Qed.

Lemma no_reconnect_scheduled_at_retry_cap_witness :
  attemptCount (run fiveFailedCycles initialState) = 5 /\
  reconnectTimeout
    (run [ProviderEmits 4 (Error "socket"); ProviderEmits 4 Disconnected;
          CallConnect None; AttemptSettles 5 (Fails "unreachable")]
       (run fiveFailedCycles initialState)) = None.
Proof.
  split; [reflexivity|].
  refine (proj1 (proj2 (proj2 (proj2
            (no_reconnect_scheduled_at_retry_cap fiveFailedCycles
               [ProviderEmits 4 (Error "socket"); ProviderEmits 4 Disconnected;
                CallConnect None; AttemptSettles 5 (Fails "unreachable")]
               _ _))))).
  - vm_compute. discriminate.
  - simpl. intros [H | [H | [H | [H | []]]]]; discriminate H.
Defined.

Lemma connect_noop_while_connecting endpoint (s : State) :
  status (apiState s) = connecting -> connect endpoint s = s.
Proof. unfold connect. now intros ->. Qed.

Lemma connectLoop_status eps start i (s : State) :
  Nat.ltb i (List.length eps) = true ->
  status (apiState (connectLoop eps start i s)) = status (apiState s).
Proof. unfold connectLoop. now intros ->. Qed.

Lemma connect_leaves_connecting endpoint (s : State) :
  status (apiState (connect endpoint s)) = connecting.
Proof.
  unfold connect.
  destruct (Status_eqb (status (apiState s)) connecting) eqn:E.
  - now destruct (status (apiState s)).
  - destruct (truthy endpoint); now rewrite connectLoop_status.
Qed.

(** two calls of [connect()] with nothing in between: the second is a no-op *)
Lemma rapid_connect_twice endpoint endpoint' (s : State) :
  connect endpoint' (connect endpoint s) = connect endpoint s.
Proof. apply connect_noop_while_connecting, connect_leaves_connecting. Qed.

Lemma disconnect_resets (s : State) :
  apiState (disconnect s) = initialApiState /\
  api (disconnect s) = None /\
  healthCheckInterval (disconnect s) = None /\
  reconnectTimeout (disconnect s) = None /\
  currentProvider (disconnect s) = None.
Proof. repeat split. Qed.

Lemma disconnect_idempotent (s : State) :
  disconnect (disconnect s) = disconnect s.
Proof. reflexivity. Qed.

(** C10, as amended. [connect()] adds one to the attempt counter on every
    call that passes the guard on ["connecting"] (and leaves it alone on the
    others); the success path leaves the counter alone and resets the backoff
    delay and the endpoint index only; [disconnect()] sets the counter to 0 and
    no other step of the connection manager lowers it; so the cap counts every
    connect since the last disconnect, the successful ones too, and at the cap
    no reconnect timer is armed until a disconnect. *)
Theorem success_never_resets_attempt_counter :
  (forall s endpoint,
     attemptCount (connect endpoint s)
     = if Status_eqb (status (apiState s)) connecting then attemptCount s
       else attemptCount s + 1) /\
  (forall s provider now a,
     find (isAttemptOf provider) (attempts s) = Some a ->
     attemptCount (attemptSettles provider (Succeeds now) s) = attemptCount s /\
     retryDelay (attemptSettles provider (Succeeds now) s) = INITIAL_RETRY_DELAY /\
     currentEndpointIndex (attemptSettles provider (Succeeds now) s)
     = endpointIndex a /\
     status (apiState (attemptSettles provider (Succeeds now) s)) = connected) /\
  (forall s, attemptCount (disconnect s) = 0) /\
  (forall s e, e <> CallDisconnect -> attemptCount s <= attemptCount (step e s)) /\
  (forall trace later,
     MAX_RETRIES <= attemptCount (run trace initialState) ->
     ~ In CallDisconnect later ->
     reconnectTimeout (run later (run trace initialState)) = None).
Proof.
  split; [|split; [|split; [|split]]].
  - intros s endpoint. apply connect_attemptCount.
  - intros s provider now a Hfind.
    split; [apply attemptSettles_attemptCount|].
    unfold attemptSettles. rewrite Hfind. cbn.
    rewrite setupHealthMonitoring_apiState. cbn.
    unfold setupHealthMonitoring. cbn.
    destruct (healthCheckInterval s); cbn; auto.
  - reflexivity.
  - intros s e. apply step_attemptCount.
  - intros trace later Hcap Hlater.
    assert (H0 : capRespected initialState) by (intros _; reflexivity).
    apply (run_capRespected later _ (run_capRespected trace _ H0)).
    pose proof (run_attemptCount later (run trace initialState) Hlater). lia.
Qed.

Lemma success_never_resets_attempt_counter_witness :
  attemptCount (run fiveSuccessfulConnects initialState) = 5 /\
  status (apiState (run fiveSuccessfulConnects initialState)) = connected /\
  reconnectTimeout
    (run (failedHealthCheck 5) (run fiveSuccessfulConnects initialState)) = None.
Proof.
  split; [reflexivity|]. split; [reflexivity|].
  refine (proj2 (proj2 (proj2 (proj2 success_never_resets_attempt_counter)))
            fiveSuccessfulConnects (failedHealthCheck 5) _ _).
  - vm_compute. discriminate.
  - simpl. intros [H | [H | []]]; discriminate H.
Defined.

(** C10 as stated fails in its first part: a call of [connect()] made while
    the status is ["connecting"] does not count. *)
Lemma connect_does_not_count_every_invocation :
  ~ (forall s endpoint, attemptCount (connect endpoint s) = attemptCount s + 1).
Proof.
  intros H.
  specialize (H (connect None initialState) None).
  vm_compute in H. discriminate H.
Qed.

(** C6, at the failing run. Two calls of [connect()] in a row start one
    attempt. But the provider's ["connected"] handler sets the status to
    ["connected"] while the first call is still waiting for the API, and a
    call of [connect()] made then passes the guard: two calls are waiting. *)
Theorem connect_guard_reopens_before_attempt_settles :
  let s1 := step (CallConnect None) initialState in
  let s2 := step (ProviderEmits 0 (Connected 5)) s1 in
  let s3 := step (CallConnect None) s2 in
  status (apiState s1) = connecting /\
  List.length (attempts s1) = 1%nat /\
  step (CallConnect None) s1 = s1 /\
  status (apiState s2) = connected /\
  List.length (attempts s2) = 1%nat /\
  List.length (attempts s3) = 2%nat /\
  attemptCount s3 = 2.
Proof. vm_compute. repeat split. Qed.

(** C3, at the failing run. After [disconnect()] the state is the initial
    one and both timers are cleared, but the handlers stay on the provider
    that was closed: its ["disconnected"] event arms the reconnect timer, and
    the timer then calls [connect()] by itself. A health check that was
    waiting when [disconnect()] ran does the same when it fails. *)
Theorem callbacks_still_run_after_disconnect :
  let s := run connectThenDisconnect initialState in
  let s1 := step (ProviderEmits 0 Disconnected) s in
  let s2 := step ReconnectFires s1 in
  let w := run [CallConnect None; AttemptSettles 0 (Succeeds 100); HealthTick;
                CallDisconnect; HealthCheckSettles 1 (CheckFails "closed")]
             initialState in
  apiState s = initialApiState /\
  healthCheckInterval s = None /\
  reconnectTimeout s = None /\
  eventListeners s = [] /\
  isListening 0%nat s = true /\
  reconnectTimeout s1 = Some INITIAL_RETRY_DELAY /\
  status (apiState s2) = connecting /\
  attemptCount s2 = 1 /\
  status (apiState w) = error /\
  reconnectTimeout w = Some INITIAL_RETRY_DELAY.
Proof. vm_compute. repeat split. Qed.

End ConnectionFacts.

(** ** The balance formatters *)

Lemma digit_not_whitespace (c : ascii) :
  JsString.isDigit c = true -> JsString.isWhitespace c = false.
Proof. by_cases_on_char c. Qed.

Lemma digit_not_comma_or_space (c : ascii) :
  JsString.isDigit c = true -> Utils.isCommaOrSpace c = false.
Proof. by_cases_on_char c. Qed.

Lemma digit_not_minus (c : ascii) :
  JsString.isDigit c = true -> c <> "-"%char.
Proof. by_cases_on_char c. Qed.

Lemma digit_range (c : ascii) :
  JsString.isDigit c = true -> 0 <= JsString.code c - 48 <= 9.
Proof.
  unfold JsString.isDigit. rewrite andb_true_iff, !Z.leb_le. lia.
Qed.

Lemma removeAll_none p (s : string) :
  JsString.allChars (fun c => negb (p c)) s = true -> JsString.removeAll p s = s.
Proof.
  induction s as [|c s IH]; simpl; [reflexivity|].
  rewrite andb_true_iff. intros [Hc Hs].
  destruct (p c); [discriminate Hc|]. now rewrite IH.
Qed.

Lemma digits_no_whitespace (s : string) :
  JsString.allChars JsString.isDigit s = true ->
  JsString.allChars (fun c => negb (JsString.isWhitespace c)) s = true.
Proof.
  apply allChars_impl. intros c H. now rewrite (digit_not_whitespace c H).
Qed.

Lemma digits_no_comma_or_space (s : string) :
  JsString.allChars JsString.isDigit s = true ->
  JsString.allChars (fun c => negb (Utils.isCommaOrSpace c)) s = true.
Proof.
  apply allChars_impl. intros c H. now rewrite (digit_not_comma_or_space c H).
Qed.

Lemma parseBase_digits (s : string) :
  JsString.allChars JsString.isDigit s = true ->
  forall r, BN.parseBase s r = Returns (JsString.decimalValueFrom r s).
Proof.
  induction s as [|c s IH]; simpl; [reflexivity|].
  rewrite andb_true_iff. intros [Hc Hs] r.
  pose proof (digit_range c Hc) as Hr.
  destruct (49 <=? JsString.code c - 48) eqn:E1; [apply Z.leb_le in E1; lia|].
  destruct (17 <=? JsString.code c - 48) eqn:E2; [apply Z.leb_le in E2; lia|].
  replace (0 <=? JsString.code c - 48) with true by (symmetry; apply Z.leb_le; lia).
  replace (JsString.code c - 48 <? 10) with true by (symmetry; apply Z.ltb_lt; lia).
  simpl. apply IH, Hs.
Qed.

Lemma decimalValueFrom_nonneg (s : string) :
  JsString.allChars JsString.isDigit s = true ->
  forall r, 0 <= r -> 0 <= JsString.decimalValueFrom r s.
Proof.
  induction s as [|c s IH]; simpl; [auto|].
  rewrite andb_true_iff. intros [Hc Hs] r Hr.
  pose proof (digit_range c Hc). apply IH; [exact Hs | lia].
Qed.

Lemma decimal_parts (s : string) :
  JsString.isDecimalString s = true ->
  s <> EmptyString /\ JsString.allChars JsString.isDigit s = true.
Proof.
  unfold JsString.isDecimalString. rewrite andb_true_iff, negb_true_iff.
  intros [Hne Hd]. split; [now apply String.eqb_neq | exact Hd].
Qed.

(** [new BN(s)] of a decimal integer is its value *)
Lemma BN_ofString_decimal (s : string) :
  JsString.isDecimalString s = true ->
  BN.ofString s = Returns (JsString.decimalValue s).
Proof.
  intros H. destruct (decimal_parts s H) as [Hne Hd].
  unfold BN.ofString.
  rewrite (removeAll_none _ s (digits_no_whitespace s Hd)).
  destruct s as [|c s]; [congruence|].
  assert (Hc : c <> "-"%char).
  { apply digit_not_minus. simpl in Hd. now apply andb_true_iff in Hd. }
  replace (match String c s with
           | String "-"%char rest => bind (BN.parseBase rest 0) (fun v => Returns (- v))
           | _ => BN.parseBase (String c s) 0
           end) with (BN.parseBase (String c s) 0).
  - now apply parseBase_digits.
  - destruct c as [[] [] [] [] [] [] [] []]; try reflexivity. congruence.
Qed.

Lemma uint_string_no_dot (d : Decimal.uint) :
  JsString.allChars (fun c => negb (Ascii.eqb c ".")) (NilEmpty.string_of_uint d) = true.
Proof. induction d; simpl; auto. Qed.

Lemma BN_toString_no_dot (z : Z) :
  JsString.allChars (fun c => negb (Ascii.eqb c ".")) (BN.toString z) = true.
Proof.
  unfold BN.toString, NilZero.string_of_int.
  assert (H : forall d, JsString.allChars (fun c => negb (Ascii.eqb c "."))
                         (NilZero.string_of_uint d) = true).
  { intros d. unfold NilZero.string_of_uint.
    destruct d; try apply (uint_string_no_dot (_ _)); reflexivity. }
  destruct (Z.to_int z) as [d|d]; [apply H|].
  cbn [JsString.allChars]. now rewrite H.
Qed.

Lemma integerPart_whole (a : string) :
  JsString.allChars (fun c => negb (Ascii.eqb c ".")) a = true ->
  JsString.integerPart a = a.
Proof.
  induction a as [|c a IH]; simpl; [reflexivity|].
  rewrite andb_true_iff. intros [Hc Ha].
  destruct (Ascii.eqb c "."); [discriminate Hc|]. now rewrite IH.
Qed.

Lemma integerPart_before_dot (a b : string) :
  JsString.allChars (fun c => negb (Ascii.eqb c ".")) a = true ->
  JsString.integerPart (a ++ "." ++ b) = a.
Proof.
  induction a as [|c a IH]; simpl; [reflexivity|].
  rewrite andb_true_iff. intros [Hc Ha].
  destruct (Ascii.eqb c "."); [discriminate Hc|].
  f_equal. apply IH, Ha.
Qed.

Lemma store_formatTxor_decimal (s : string) (decimals : nat) :
  JsString.isDecimalString s = true ->
  exists r,
    Store.formatTxor s decimals = Returns r /\
    JsString.integerPart r
    = BN.toString (JsString.decimalValue s / 10 ^ Z.of_nat decimals).
Proof.
  intros H. unfold Store.formatTxor.
  destruct ((s =? EmptyString) || (s =? "0"))%string eqn:E.
  - exists "0"%string. split; [reflexivity|].
    apply orb_true_iff in E. destruct E as [E | E]; apply String.eqb_eq in E; subst s.
    + discriminate H.
    + change (JsString.decimalValue "0") with 0.
      rewrite Z.div_0_l by (apply Z.pow_nonzero; lia). reflexivity.
  - rewrite (BN_ofString_decimal s H). cbn [bind].
    destruct (decimal_parts s H) as [_ Hd].
    assert (Hv : 0 <= JsString.decimalValue s)
      by (apply decimalValueFrom_nonneg; [exact Hd | lia]).
    assert (Hp : 0 < 10 ^ Z.of_nat decimals) by (apply Z.pow_pos_nonneg; lia).
    unfold BN.div. rewrite Z.quot_div_nonneg by lia.
    eexists. split; [reflexivity|].
    destruct (JsString.stripTrailingZeros _ =? EmptyString)%string.
    + apply integerPart_whole, BN_toString_no_dot.
    + apply integerPart_before_dot, BN_toString_no_dot.
Qed.

Lemma allZeros_take n (s : string) :
  JsString.allChars (fun c => Ascii.eqb c "0") s = true ->
  JsString.allChars (fun c => Ascii.eqb c "0") (JsString.take n s) = true.
Proof.
  revert s. induction n as [|n IH]; intros [|c s]; simpl; try reflexivity.
  rewrite !andb_true_iff. intros [Hc Hs]. split; [exact Hc | now apply IH].
Qed.

Lemma allZeros_repeat n :
  JsString.allChars (fun c => Ascii.eqb c "0") (JsString.repeat "0" n) = true.
Proof. induction n; simpl; auto. Qed.

Lemma stripTrailingZeros_allZeros (s : string) :
  JsString.allChars (fun c => Ascii.eqb c "0") s = true ->
  JsString.stripTrailingZeros s = EmptyString.
Proof.
  induction s as [|c s IH]; simpl; [reflexivity|].
  rewrite andb_true_iff. intros [Hc Hs]. now rewrite (IH Hs), Hc.
Qed.

Lemma store_formatTxor_zero (s : string) (decimals : nat) :
  JsString.isDecimalString s = true ->
  JsString.decimalValue s = 0 ->
  Store.formatTxor s decimals = Returns "0"%string.
Proof.
  intros H Hz. unfold Store.formatTxor.
  destruct ((s =? EmptyString) || (s =? "0"))%string; [reflexivity|].
  rewrite (BN_ofString_decimal s H), Hz. cbn [bind].
  assert (Hp : 10 ^ Z.of_nat decimals <> 0) by (apply Z.pow_nonzero; lia).
  unfold BN.div, BN.mod_. rewrite Z.quot_0_l, Z.rem_0_l by exact Hp.
  change (BN.toString 0) with "0"%string.
  rewrite stripTrailingZeros_allZeros; [reflexivity|].
  apply allZeros_take. unfold JsString.padStart.
  rewrite allChars_append, allZeros_repeat. reflexivity.
Qed.

Lemma splitSign_cases (t : string) :
  (exists r, t = String "-" r /\ Double.splitSign t = (true, r)) \/
  (exists r, t = String "+" r /\ Double.splitSign t = (false, r)) \/
  Double.splitSign t = (false, t).
Proof.
  destruct t as [|c r]; [right; right; reflexivity|].
  destruct c as [[] [] [] [] [] [] [] []];
    first [ right; right; reflexivity
          | left; eexists; split; reflexivity
          | right; left; eexists; split; reflexivity ].
Qed.

Lemma splitSign_digit (c : ascii) (r : string) :
  JsString.isDigit c = true ->
  Double.splitSign (String c r) = (false, String c r).
Proof. by_cases_on_char c. Qed.

Lemma spanDigits_all (s : string) :
  JsString.allChars JsString.isDigit s = true ->
  Double.spanDigits s = (s, EmptyString).
Proof.
  induction s as [|c s IH]; simpl; [reflexivity|].
  rewrite andb_true_iff. intros [Hc Hs]. now rewrite Hc, (IH Hs).
Qed.

Lemma spanDigits_none (s : string) :
  Spec.hasNoDigit s = true -> Double.spanDigits s = (EmptyString, s).
Proof.
  unfold Spec.hasNoDigit. destruct s as [|c s]; simpl; [reflexivity|].
  rewrite andb_true_iff, negb_true_iff. now intros [-> _].
Qed.

Lemma hasNoDigit_tail (c : ascii) (s : string) :
  Spec.hasNoDigit (String c s) = true -> Spec.hasNoDigit s = true.
Proof. unfold Spec.hasNoDigit. simpl. rewrite andb_true_iff. tauto. Qed.

Lemma hasNoDigit_removeAll p (s : string) :
  Spec.hasNoDigit s = true -> Spec.hasNoDigit (JsString.removeAll p s) = true.
Proof.
  unfold Spec.hasNoDigit.
  induction s as [|c s IH]; simpl; [reflexivity|].
  rewrite andb_true_iff. intros [Hc Hs].
  destruct (p c); simpl; [now apply IH|]. now rewrite Hc, (IH Hs).
Qed.

Lemma hasNoDigit_trimStart (s : string) :
  Spec.hasNoDigit s = true -> Spec.hasNoDigit (JsString.trimStart s) = true.
Proof.
  induction s as [|c s IH]; simpl; [reflexivity|]. intros H.
  destruct (JsString.isWhitespace c); [|exact H].
  apply IH. exact (hasNoDigit_tail c s H).
Qed.

Lemma hasNoDigit_splitSign (t : string) :
  Spec.hasNoDigit t = true -> Spec.hasNoDigit (snd (Double.splitSign t)) = true.
Proof.
  intros H.
  destruct (splitSign_cases t) as [(r & -> & E) | [(r & -> & E) | E]];
    rewrite E; simpl; [exact (hasNoDigit_tail _ _ H) .. | exact H].
Qed.

Lemma splitFraction_none (u : string) :
  Spec.hasNoDigit u = true -> fst (Double.splitFraction u) = EmptyString.
Proof.
  destruct u as [|c r]; [reflexivity|]. intros H.
  pose proof (spanDigits_none r (hasNoDigit_tail c r H)) as Hr.
  destruct c as [[] [] [] [] [] [] [] []]; try reflexivity.
  cbn [Double.splitFraction]. now rewrite Hr.
Qed.

(** [parseFloat] of a text without a digit is [NaN] or an infinity *)
Lemma parseFloat_without_digit (s : string) :
  Spec.hasNoDigit s = true -> Double.isFinite (Double.parseFloat s) = false.
Proof.
  intros H. unfold Double.parseFloat.
  pose proof (hasNoDigit_splitSign _ (hasNoDigit_trimStart s H)) as Hu.
  destruct (Double.splitSign (JsString.trimStart s)) as [negative u].
  simpl in Hu.
  destruct (String.prefix "Infinity" u); [reflexivity|].
  rewrite (spanDigits_none u Hu).
  pose proof (splitFraction_none u Hu) as Hf.
  destruct (Double.splitFraction u) as [fp r2]. simpl in Hf. subst fp.
  reflexivity.
Qed.

(** [parseFloat] of a decimal integer is the Number nearest to its value *)
Lemma parseFloat_decimal (s : string) :
  JsString.isDecimalString s = true ->
  Double.parseFloat s = Double.ofZ (JsString.decimalValue s).
Proof.
  intros H. destruct (decimal_parts s H) as [Hne Hd].
  unfold Double.parseFloat.
  rewrite (trimStart_id s (digits_no_whitespace s Hd)).
  destruct s as [|c r]; [congruence|].
  assert (Hc : JsString.isDigit c = true)
    by (simpl in Hd; now apply andb_true_iff in Hd).
  rewrite (splitSign_digit c r Hc).
  replace (String.prefix "Infinity" (String c r)) with false.
  - rewrite (spanDigits_all _ Hd). cbn [Double.splitFraction].
    cbn [String.eqb andb]. rewrite append_nil_r.
    cbn [Double.exponentPart String.length Z.of_nat].
    unfold Double.ofDecimal, Double.ofZ. cbn [Z.sub Z.opp Z.add Z.leb Z.compare].
    destruct (JsString.decimalValue (String c r) =? 0) eqn:E.
    + apply Z.eqb_eq in E. now rewrite E.
    + now rewrite Z.pow_0_r, Z.mul_1_r.
  - cbn [String.prefix].
    destruct (ascii_dec "I" c) as [<-|]; [discriminate Hc | reflexivity].
Qed.

Lemma utils_formatTxor_decimal toLocaleString Math_pow (s : string)
    (decimals : nat) (maxFractionDigits : Z) :
  JsString.isDecimalString s = true ->
  Utils.formatTxor toLocaleString Math_pow (Utils.RawString s) decimals
    maxFractionDigits
  = let num := Double.ofZ (JsString.decimalValue s) in
    if negb (Double.isFinite num) || Double.isZero num then Returns "0.0000"%string
    else toLocaleString
           (Double.div num (Math_pow (Double.ofZ 10) (Double.ofNat decimals)))
           maxFractionDigits.
Proof.
  intros H. destruct (decimal_parts s H) as [_ Hd].
  unfold Utils.formatTxor.
  rewrite (removeAll_none _ s (digits_no_comma_or_space s Hd)).
  now rewrite (parseFloat_decimal s H).
Qed.

Lemma utils_formatTxor_without_digit toLocaleString Math_pow (s : string)
    (decimals : nat) (maxFractionDigits : Z) :
  Spec.hasNoDigit s = true ->
  Utils.formatTxor toLocaleString Math_pow (Utils.RawString s) decimals
    maxFractionDigits
  = Returns "0.0000"%string.
Proof.
  intros H. unfold Utils.formatTxor.
  now rewrite (parseFloat_without_digit _ (hasNoDigit_removeAll _ s H)).
Qed.

Lemma utils_formatTxor_zero toLocaleString Math_pow (s : string)
    (decimals : nat) (maxFractionDigits : Z) :
  JsString.isDecimalString s = true ->
  JsString.decimalValue s = 0 ->
  Utils.formatTxor toLocaleString Math_pow (Utils.RawString s) decimals
    maxFractionDigits
  = Returns "0.0000"%string.
Proof.
  intros H Hz. rewrite (utils_formatTxor_decimal _ _ s _ _ H), Hz. reflexivity.
Qed.

(** C2, as amended. The compact formatter of the store divides exactly: on
    every decimal integer it returns, and the text before the decimal point is
    the decimal numeral of [floor (value / 10 ^ decimals)]. The padded
    formatter of [utils.ts] goes through a Number: it returns ["0.0000"] when
    the Number nearest to the value is zero or not finite, and otherwise what
    [toLocaleString] makes of the floating-point quotient of that Number by
    what [Math.pow(10, decimals)] gives, whatever the engine's [Math.pow] and
    locale are. *)
Theorem compact_formatter_divides_exactly :
  (forall s decimals,
     JsString.isDecimalString s = true ->
     exists r,
       Store.formatTxor s decimals = Returns r /\
       JsString.integerPart r
       = BN.toString (JsString.decimalValue s / 10 ^ Z.of_nat decimals)) /\
  (forall toLocaleString Math_pow s decimals maxFractionDigits,
     JsString.isDecimalString s = true ->
     Utils.formatTxor toLocaleString Math_pow (Utils.RawString s) decimals
       maxFractionDigits
     = let num := Double.ofZ (JsString.decimalValue s) in
       if negb (Double.isFinite num) || Double.isZero num
       then Returns "0.0000"%string
       else toLocaleString
              (Double.div num (Math_pow (Double.ofZ 10) (Double.ofNat decimals)))
              maxFractionDigits).
Proof.
  split.
  - apply store_formatTxor_decimal.
  - apply utils_formatTxor_decimal.
Qed.

Lemma compact_formatter_divides_exactly_witness :
  exists r,
    Store.formatTxor "200000000000000010000000000000000000000" 18 = Returns r /\
    JsString.integerPart r = "200000000000000010000"%string.
Proof.
  exact (proj1 compact_formatter_divides_exactly
           "200000000000000010000000000000000000000"%string 18%nat eq_refl).
Defined.

(** C2 as stated fails: whatever the locale formatter, whatever [Math.pow]
    gives and whatever is read as the integer part of the output, the padded
    formatter cannot tell 200000000000000000000 from 200000000000000010000
    whole units, since both balances round to the same Number. *)
Lemma padded_formatter_is_not_exact :
  ~ exists toLocaleString Math_pow integerPartOf,
      Spec.paddedIsExact toLocaleString Math_pow integerPartOf.
Proof.
  intros (fmt & pw & ip & H).
  destruct (H "200000000000000000000000000000000000000"%string eq_refl
              ltac:(vm_compute; discriminate)) as (r1 & E1 & I1).
  destruct (H "200000000000000010000000000000000000000"%string eq_refl
              ltac:(vm_compute; discriminate)) as (r2 & E2 & I2).
  assert (E : Utils.formatTxor fmt pw
                (Utils.RawString "200000000000000000000000000000000000000") 18 4
              = Utils.formatTxor fmt pw
                  (Utils.RawString "200000000000000010000000000000000000000") 18 4)
    by (vm_compute; reflexivity).
  rewrite E1, E2 in E. injection E as ->.
  rewrite I1 in I2. vm_compute in I2. discriminate I2.
Qed.

(** the inputs on which both formatters return their canonical zero: the
    empty string, ["0"] and every decimal integer of value zero; the compact
    one returns on every decimal integer; the padded one returns its zero also
    on [null] and on every text without a digit *)
Lemma formatters_return_canonical_zero :
  (forall decimals, Store.formatTxor EmptyString decimals = Returns "0"%string) /\
  (forall decimals, Store.formatTxor "0" decimals = Returns "0"%string) /\
  (forall s decimals,
     JsString.isDecimalString s = true ->
     (exists r, Store.formatTxor s decimals = Returns r) /\
     (JsString.decimalValue s = 0 ->
      Store.formatTxor s decimals = Returns "0"%string)) /\
  (forall toLocaleString Math_pow decimals maxFractionDigits,
     Utils.formatTxor toLocaleString Math_pow Utils.RawNull decimals
       maxFractionDigits
     = Returns "0.0000"%string) /\
  (forall toLocaleString Math_pow s decimals maxFractionDigits,
     Spec.hasNoDigit s = true ->
     Utils.formatTxor toLocaleString Math_pow (Utils.RawString s) decimals
       maxFractionDigits
     = Returns "0.0000"%string) /\
  (forall toLocaleString Math_pow s decimals maxFractionDigits,
     JsString.isDecimalString s = true ->
     JsString.decimalValue s = 0 ->
     Utils.formatTxor toLocaleString Math_pow (Utils.RawString s) decimals
       maxFractionDigits
     = Returns "0.0000"%string).
Proof.
  split; [reflexivity|]. split; [reflexivity|].
  split; [|split; [reflexivity|split]].
  - intros s decimals H. split.
    + destruct (store_formatTxor_decimal s decimals H) as (r & E & _). eauto.
    + now apply store_formatTxor_zero.
  - intros. now apply utils_formatTxor_without_digit.
  - intros. now apply utils_formatTxor_zero.
Qed.

(** [parseBase] accepts the decimal digits only *)
Lemma parseBase_rejects (c : ascii) :
  JsString.isDigit c = false ->
  (0 <=? JsString.code c - 48)
  && ((if 49 <=? JsString.code c - 48 then JsString.code c - 48 - 49 + 10
       else if 17 <=? JsString.code c - 48 then JsString.code c - 48 - 17 + 10
       else JsString.code c - 48) <? 10) = false.
Proof. by_cases_on_char c. Qed.

(** a text with a character that is no digit makes [new BN] throw, wherever
    the character stands after the sign and whatever follows it *)
Lemma parseBase_throws (s : string) :
  JsString.allChars JsString.isDigit s = false ->
  forall r, BN.parseBase s r = Throws "Invalid character".
Proof.
  induction s as [|c s IH]; [discriminate|].
  cbn [JsString.allChars]. intros H r. cbn [BN.parseBase]. cbv zeta.
  destruct (JsString.isDigit c) eqn:Hc.
  - pose proof (digit_range c Hc) as Hr.
    destruct (49 <=? JsString.code c - 48) eqn:E1; [apply Z.leb_le in E1; lia|].
    destruct (17 <=? JsString.code c - 48) eqn:E2; [apply Z.leb_le in E2; lia|].
    replace (0 <=? JsString.code c - 48) with true by (symmetry; apply Z.leb_le; lia).
    replace (JsString.code c - 48 <? 10) with true by (symmetry; apply Z.ltb_lt; lia).
    cbn [andb]. apply IH. exact H.
  - now rewrite (parseBase_rejects c Hc).
Qed.

(** ** Rounding to a Number: how far the result can lie above the exact value *)











Lemma loc_of_shr_record_of_loc m l :
  loc_of_shr_record (shr_record_of_loc m l) = l.
Proof. destruct l as [|[]]; reflexivity. Qed.















(** * Further properties of the code *)

(** ** Decimal digits *)

Lemma decimalValueFrom_step (acc : Z) (c : ascii) (rest : string) :
  JsString.decimalValueFrom acc (String c rest)
  = JsString.decimalValueFrom (acc * 10 + (JsString.code c - 48)) rest.
Proof. reflexivity. Qed.

Ltac compute_code :=
  repeat match goal with
         | |- context [JsString.code ?c] =>
             let v := eval vm_compute in (JsString.code c) in
             change (JsString.code c) with v
         end.

Lemma uint_string_digits (d : Decimal.uint) :
  JsString.allChars JsString.isDigit (NilEmpty.string_of_uint d) = true.
Proof. induction d; simpl; auto. Qed.

Lemma decimalValueFrom_of_uint_acc (d : Decimal.uint) :
  forall acc : positive,
    JsString.decimalValueFrom (Z.pos acc) (NilEmpty.string_of_uint d)
    = Z.pos (Pos.of_uint_acc d acc).
Proof.
  induction d as [|d IH|d IH|d IH|d IH|d IH|d IH|d IH|d IH|d IH|d IH];
    intros acc; [reflexivity|..];
    cbn [NilEmpty.string_of_uint Pos.of_uint_acc];
    rewrite decimalValueFrom_step, <- IH; f_equal; compute_code; lia.
Qed.

Lemma decimalValue_of_uint (d : Decimal.uint) :
  JsString.decimalValue (NilEmpty.string_of_uint d) = Z.of_N (Pos.of_uint d).
Proof.
  unfold JsString.decimalValue.
  induction d as [|d IH|d IH|d IH|d IH|d IH|d IH|d IH|d IH|d IH|d IH];
    [reflexivity | exact IH |..];
    cbn [NilEmpty.string_of_uint Pos.of_uint N.of_uint];
    rewrite decimalValueFrom_step; compute_code; cbn [Z.of_N];
    rewrite <- decimalValueFrom_of_uint_acc; reflexivity.
Qed.

Lemma BN_toString_pos (p : positive) :
  BN.toString (Z.pos p) = NilEmpty.string_of_uint (Pos.to_uint p).
Proof.
  unfold BN.toString. cbn [Z.to_int NilZero.string_of_int].
  unfold NilZero.string_of_uint.
  pose proof (DecimalPos.Unsigned.to_uint_nonnil p) as Hn.
  now destruct (Pos.to_uint p).
Qed.

Lemma BN_toString_neg (p : positive) :
  BN.toString (Z.neg p) = String "-" (BN.toString (Z.pos p)).
Proof.
  rewrite BN_toString_pos. unfold BN.toString.
  cbn [Z.to_int NilZero.string_of_int]. unfold NilZero.string_of_uint.
  pose proof (DecimalPos.Unsigned.to_uint_nonnil p) as Hn.
  now destruct (Pos.to_uint p).
Qed.

(** the text of a natural number is a decimal integer, and reads back *)
Lemma BN_toString_decimal (z : Z) :
  0 <= z ->
  JsString.isDecimalString (BN.toString z) = true /\
  JsString.decimalValue (BN.toString z) = z.
Proof.
  intros Hz. destruct z as [|p|p]; [split; reflexivity | | lia].
  rewrite BN_toString_pos. split.
  - unfold JsString.isDecimalString. rewrite uint_string_digits, andb_true_r.
    pose proof (DecimalPos.Unsigned.to_uint_nonnil p) as Hn.
    now destruct (Pos.to_uint p).
  - rewrite decimalValue_of_uint, DecimalPos.Unsigned.of_to. reflexivity.
Qed.

(** [new BN(bn.toString())] is [bn] *)
Lemma BN_ofString_toString (z : Z) : BN.ofString (BN.toString z) = Returns z.
Proof.
  destruct z as [|p|p].
  - reflexivity.
  - destruct (BN_toString_decimal (Z.pos p)) as [Hd Hv]; [lia|].
    now rewrite (BN_ofString_decimal _ Hd), Hv.
  - destruct (BN_toString_decimal (Z.pos p)) as [Hd Hv]; [lia|].
    destruct (decimal_parts _ Hd) as [_ Hdigits].
    rewrite BN_toString_neg. unfold BN.ofString.
    cbn [JsString.removeAll]. change (JsString.isWhitespace "-") with false.
    cbv iota.
    rewrite (removeAll_none _ _ (digits_no_whitespace _ Hdigits)).
    rewrite (parseBase_digits _ Hdigits). cbn [bind].
    unfold JsString.decimalValue in Hv. rewrite Hv. reflexivity.
Qed.

(** the text of a positive number does not start with a zero *)
Lemma BN_toString_head (p : positive) :
  exists c rest,
    BN.toString (Z.pos p) = String c rest /\ 1 <= JsString.code c - 48 <= 9.
Proof.
  rewrite BN_toString_pos.
  assert (Decimal.unorm (Pos.to_uint p) = Pos.to_uint p) as Hnorm.
  { rewrite <- (DecimalPos.Unsigned.to_of (Pos.to_uint p)).
    now rewrite DecimalPos.Unsigned.of_to. }
  pose proof (DecimalPos.Unsigned.to_uint_nonnil p) as Hnil.
  pose proof (DecimalPos.Unsigned.to_uint_nonzero p) as Hzero.
  destruct (Pos.to_uint p) as [|d|d|d|d|d|d|d|d|d|d] eqn:E;
    [congruence | |
     eexists; eexists; (split; [reflexivity | compute_code; lia])..].
  exfalso. unfold Decimal.unorm in Hnorm. cbn [Decimal.nzhead] in Hnorm.
  destruct (Decimal.nzhead d) as [|e|e|e|e|e|e|e|e|e|e] eqn:Hd;
    try (rewrite <- Hd in Hnorm; now apply (DecimalFacts.nzhead_nonzero d d)).
  now apply Hzero.
Qed.

(** digit strings as numbers *)
Lemma decimalValueFrom_split (s : string) :
  JsString.allChars JsString.isDigit s = true ->
  forall acc,
    JsString.decimalValueFrom acc s
    = acc * 10 ^ Z.of_nat (String.length s) + JsString.decimalValue s /\
    0 <= JsString.decimalValue s < 10 ^ Z.of_nat (String.length s).
Proof.
  unfold JsString.decimalValue.
  induction s as [|c s IH]; intros Hd acc.
  - simpl. lia.
  - cbn [JsString.allChars] in Hd. apply andb_true_iff in Hd.
    destruct Hd as [Hc Hs]. pose proof (digit_range c Hc) as Hr.
    rewrite !decimalValueFrom_step.
    destruct (IH Hs (acc * 10 + (JsString.code c - 48))) as [E1 B].
    destruct (IH Hs (0 * 10 + (JsString.code c - 48))) as [E2 _].
    rewrite E1, E2. cbn [String.length].
    rewrite Nat2Z.inj_succ, Z.pow_succ_r by lia.
    assert (0 < 10 ^ Z.of_nat (String.length s)) by (apply Z.pow_pos_nonneg; lia).
    split; nia.
Qed.

Lemma decimalValue_append (a b : string) :
  JsString.allChars JsString.isDigit a = true ->
  JsString.allChars JsString.isDigit b = true ->
  JsString.decimalValue (a ++ b)
  = JsString.decimalValue a * 10 ^ Z.of_nat (String.length b)
    + JsString.decimalValue b.
Proof.
  intros Ha Hb. unfold JsString.decimalValue at 1 2.
  generalize 0 as acc. induction a as [|c a IH]; intros acc.
  - simpl. apply (decimalValueFrom_split b Hb).
  - cbn [JsString.allChars] in Ha. apply andb_true_iff in Ha.
    change ((String c a ++ b)%string) with (String c (a ++ b)).
    rewrite !decimalValueFrom_step. apply IH, Ha.
Qed.

Lemma length_append (a b : string) :
  String.length (a ++ b) = (String.length a + String.length b)%nat.
Proof. induction a as [|c a IH]; simpl; [reflexivity | now rewrite IH]. Qed.

Lemma length_repeat (c : ascii) (n : nat) :
  String.length (JsString.repeat c n) = n.
Proof. induction n as [|n IH]; simpl; [reflexivity | now rewrite IH]. Qed.

Lemma digits_repeat_zero (n : nat) :
  JsString.allChars JsString.isDigit (JsString.repeat "0" n) = true /\
  JsString.decimalValue (JsString.repeat "0" n) = 0.
Proof.
  unfold JsString.decimalValue.
  induction n as [|n [IH1 IH2]]; [split; reflexivity|].
  cbn [JsString.repeat JsString.allChars]. rewrite IH1.
  rewrite decimalValueFrom_step. split; [reflexivity | exact IH2].
Qed.

(** the length of the text of a number below [10 ^ d] *)
Lemma BN_toString_length (r : Z) (d : nat) :
  0 <= r < 10 ^ Z.of_nat d -> (1 <= d)%nat ->
  (String.length (BN.toString r) <= d)%nat.
Proof.
  intros Hr Hd. destruct r as [|p|p]; [simpl; lia | | lia].
  destruct (BN_toString_head p) as (c & rest & E & Hc).
  destruct (BN_toString_decimal (Z.pos p)) as [Hdec Hval]; [lia|].
  destruct (decimal_parts _ Hdec) as [_ Hdigits].
  rewrite E in *. cbn [JsString.allChars] in Hdigits.
  apply andb_true_iff in Hdigits. destruct Hdigits as [_ Hrest].
  unfold JsString.decimalValue in Hval. rewrite decimalValueFrom_step in Hval.
  destruct (decimalValueFrom_split rest Hrest (0 * 10 + (JsString.code c - 48)))
    as [Hsplit Hb].
  rewrite Hsplit in Hval. cbn [String.length].
  destruct (Nat.le_gt_cases (S (String.length rest)) d) as [Hle | Hgt];
    [exact Hle|].
  exfalso.
  assert (10 ^ Z.of_nat d <= 10 ^ Z.of_nat (String.length rest)) as Hpow
    by (apply Z.pow_le_mono_r; lia).
  nia.
Qed.

Lemma take_append_length (a b : string) (n : nat) :
  String.length a = n -> JsString.take n (a ++ b) = a.
Proof.
  revert n. induction a as [|c a IH]; intros n Hn; simpl in *.
  - subst n. now destruct b.
  - destruct n as [|n]; [discriminate|]. cbn [JsString.take]. f_equal.
    apply IH. lia.
Qed.

Lemma take_drop (n : nat) (s : string) :
  (JsString.take n s ++ JsString.drop n s)%string = s.
Proof.
  revert s. induction n as [|n IH]; intros [|c s]; simpl; try reflexivity.
  now rewrite IH.
Qed.

Lemma take_length (n : nat) (s : string) :
  (n <= String.length s)%nat -> String.length (JsString.take n s) = n.
Proof.
  revert s. induction n as [|n IH]; intros [|c s]; simpl; try lia.
  intros H. rewrite IH; lia.
Qed.

Lemma digits_take_drop (n : nat) (s : string) :
  JsString.allChars JsString.isDigit s = true ->
  JsString.allChars JsString.isDigit (JsString.take n s) = true /\
  JsString.allChars JsString.isDigit (JsString.drop n s) = true.
Proof.
  intros H. rewrite <- (take_drop n s), allChars_append in H.
  now apply andb_true_iff in H.
Qed.

(** the first [n] digits of a digit string are its value divided by the
    power of ten of the digits that follow *)
Lemma decimalValue_take (n : nat) (s : string) :
  JsString.allChars JsString.isDigit s = true ->
  (n <= String.length s)%nat ->
  JsString.decimalValue (JsString.take n s)
  = JsString.decimalValue s / 10 ^ Z.of_nat (String.length s - n).
Proof.
  intros Hd Hn. destruct (digits_take_drop n s Hd) as [Ht Hr].
  pose proof (decimalValue_append _ _ Ht Hr) as E. rewrite take_drop in E.
  assert (String.length (JsString.drop n s) = (String.length s - n)%nat) as Hlen.
  { pose proof (length_append (JsString.take n s) (JsString.drop n s)) as L.
    rewrite take_drop, take_length in L by exact Hn. lia. }
  rewrite Hlen in E.
  destruct (decimalValueFrom_split _ Hr 0) as [_ Hb]. rewrite Hlen in Hb.
  rewrite E. apply Z.div_unique with (JsString.decimalValue (JsString.drop n s)).
  - left. exact Hb.
  - ring.
Qed.

(** stripping the zeros at the end *)
Lemma stripTrailingZeros_spec (s : string) :
  JsString.allChars JsString.isDigit s = true ->
  let t := JsString.stripTrailingZeros s in
  JsString.allChars JsString.isDigit t = true /\
  (String.length t <= String.length s)%nat /\
  JsString.decimalValue t
  * 10 ^ Z.of_nat (String.length s - String.length t)
  = JsString.decimalValue s /\
  (forall u, t <> (u ++ "0")%string).
Proof.
  induction s as [|c s IH]; intros Hd t; subst t.
  - simpl. repeat split; try lia. intros [|d u]; discriminate.
  - cbn [JsString.allChars] in Hd. apply andb_true_iff in Hd.
    destruct Hd as [Hc Hs]. destruct (IH Hs) as (Ht & Hlen & Hval & Hlast).
    cbn [JsString.stripTrailingZeros].
    destruct (JsString.stripTrailingZeros s) as [|d t] eqn:E.
    + (* the rest is all zeros *)
      assert (JsString.decimalValue s = 0) as Hzero.
      { rewrite <- Hval. reflexivity. }
      unfold JsString.decimalValue in *. rewrite decimalValueFrom_step.
      destruct (decimalValueFrom_split s Hs (0 * 10 + (JsString.code c - 48)))
        as [Hsplit _].
      unfold JsString.decimalValue in Hsplit. rewrite Hsplit, Hzero.
      destruct (Ascii.eqb c "0") eqn:Ec.
      * apply Ascii.eqb_eq in Ec. subst c. cbn. repeat split; try lia.
        intros [|d u]; discriminate.
      * cbn [JsString.allChars String.length]. rewrite Hc.
        repeat split; try lia.
        -- rewrite decimalValueFrom_step. cbn [JsString.decimalValueFrom].
           replace (S (String.length s) - 1)%nat with (String.length s) by lia.
           ring.
        -- intros u Hu. destruct u as [|d u]; cbn in Hu.
           ++ injection Hu as ->. discriminate Ec.
           ++ injection Hu as _ Hu. destruct u; discriminate.
    + cbn [JsString.allChars String.length] in *. rewrite Hc, Ht.
      repeat split; try lia.
      * unfold JsString.decimalValue in *.
        apply andb_true_iff in Ht.
        rewrite decimalValueFrom_step.
        rewrite (decimalValueFrom_step 0 c s).
        destruct (decimalValueFrom_split (String d t)
                    ltac:(cbn; now apply andb_true_iff)
                    (0 * 10 + (JsString.code c - 48))) as [S1 _].
        destruct (decimalValueFrom_split s Hs (0 * 10 + (JsString.code c - 48)))
          as [S2 _].
        unfold JsString.decimalValue in S1, S2. rewrite S1, S2, <- Hval.
        cbn [String.length].
        replace (S (String.length s) - S (S (String.length t)))%nat
          with (String.length s - S (String.length t))%nat by lia.
        replace (Z.of_nat (String.length s))
          with (Z.of_nat (S (String.length t))
                + Z.of_nat (String.length s - S (String.length t))) by lia.
        rewrite Z.pow_add_r by lia. ring.
      * intros [|e u]; cbn; [discriminate|]. intros [= _ H].
        now apply (Hlast u).
Qed.

(** ** The compact formatter on valid input *)

(** the remainder, padded to [decimals] digits *)
Lemma padded_remainder (r : Z) (decimals : nat) :
  0 <= r < 10 ^ Z.of_nat decimals -> (1 <= decimals)%nat ->
  let padded := JsString.padStart decimals "0" (BN.toString r) in
  JsString.allChars JsString.isDigit padded = true /\
  String.length padded = decimals /\
  JsString.decimalValue padded = r.
Proof.
  intros Hr Hd padded. subst padded. unfold JsString.padStart.
  destruct (BN_toString_decimal r) as [Hdec Hval]; [lia|].
  destruct (decimal_parts _ Hdec) as [_ Hdigits].
  destruct (digits_repeat_zero (decimals - String.length (BN.toString r)))
    as [Hz Hzv].
  pose proof (BN_toString_length r decimals Hr Hd) as Hlen.
  split; [|split].
  - now rewrite allChars_append, Hz, Hdigits.
  - rewrite length_append, length_repeat. lia.
  - rewrite (decimalValue_append _ _ Hz Hdigits), Hzv, Hval. lia.
Qed.

(** X1. the compact formatter truncates to four decimals. For a valid
    decimal integer and at least four decimals, the result is the whole
    units, followed, unless they are zero, by a point and the first four
    fractional digits without the zeros at their end. Nothing is rounded up:
    the number printed is the balance cut after the fourth decimal. *)
Theorem compact_formatter_truncates_to_four_decimals
    (s : string) (decimals : nat) :
  JsString.isDecimalString s = true ->
  (4 <= decimals)%nat ->
  let value := JsString.decimalValue s in
  let units := value / 10 ^ Z.of_nat decimals in
  let fourDigits :=
    (value mod 10 ^ Z.of_nat decimals) / 10 ^ (Z.of_nat decimals - 4) in
  exists fraction,
    Store.formatTxor s decimals
    = Returns (if (fraction =? EmptyString)%string then BN.toString units
               else BN.toString units ++ "." ++ fraction) /\
    JsString.allChars JsString.isDigit fraction = true /\
    (String.length fraction <= 4)%nat /\
    JsString.decimalValue fraction
    * 10 ^ (4 - Z.of_nat (String.length fraction)) = fourDigits /\
    (forall u, fraction <> (u ++ "0")%string) /\
    0 <= fourDigits < 10000.
Proof.
  intros H Hd4 value units fourDigits.
  destruct (decimal_parts s H) as [Hne Hdigits].
  assert (0 <= value) as Hv
    by (apply decimalValueFrom_nonneg; [exact Hdigits | lia]).
  assert (0 < 10 ^ Z.of_nat decimals) as Hp by (apply Z.pow_pos_nonneg; lia).
  assert (0 < 10 ^ (Z.of_nat decimals - 4)) as Hp4
    by (apply Z.pow_pos_nonneg; lia).
  assert (10 ^ Z.of_nat decimals = 10 ^ (Z.of_nat decimals - 4) * 10000) as Hsplit.
  { replace (Z.of_nat decimals) with ((Z.of_nat decimals - 4) + 4) at 1 by lia.
    rewrite Z.pow_add_r by lia. reflexivity. }
  pose proof (Z.mod_pos_bound value _ Hp) as Hr.
  assert (0 <= fourDigits < 10000) as Hfour.
  { subst fourDigits. split.
    - apply Z.div_pos; lia.
    - apply Z.div_lt_upper_bound; lia. }
  unfold Store.formatTxor.
  destruct ((s =? EmptyString) || (s =? "0"))%string eqn:E.
  - apply orb_true_iff in E.
    destruct E as [E | E]; apply String.eqb_eq in E; [congruence|].
    exists EmptyString. subst s.
    assert (value = 0) as Hz by reflexivity.
    subst units fourDigits. rewrite Hz.
    rewrite Z.div_0_l, Z.mod_0_l, Z.div_0_l by lia.
    split; [reflexivity|]. split; [reflexivity|]. split; [simpl; lia|].
    split; [reflexivity|]. split; [intros [|c u]; discriminate | lia].
  - rewrite (BN_ofString_decimal s H). cbn [bind]. fold value.
    unfold BN.div, BN.mod_.
    rewrite Z.quot_div_nonneg, Z.rem_mod_nonneg by lia. fold units.
    destruct (padded_remainder (value mod 10 ^ Z.of_nat decimals) decimals Hr
                ltac:(lia)) as (Hpd & Hpl & Hpv).
    set (padded := JsString.padStart decimals "0"
                     (BN.toString (value mod 10 ^ Z.of_nat decimals))) in *.
    destruct (digits_take_drop 4 padded Hpd) as [Hgd _].
    pose proof (decimalValue_take 4 padded Hpd ltac:(lia)) as Hgv.
    pose proof (take_length 4 padded ltac:(lia)) as Hgl.
    rewrite Hpl, Hpv in Hgv.
    replace (Z.of_nat (decimals - 4)) with (Z.of_nat decimals - 4) in Hgv by lia.
    fold fourDigits in Hgv.
    destruct (stripTrailingZeros_spec (JsString.take 4 padded) Hgd)
      as (Hfd & Hfl & Hfv & Hlast).
    exists (JsString.stripTrailingZeros (JsString.take 4 padded)).
    rewrite Hgl in Hfl, Hfv. rewrite Hgv in Hfv.
    split; [reflexivity|]. split; [exact Hfd|]. split; [exact Hfl|].
    split; [|split; [exact Hlast | exact Hfour]].
    rewrite <- Hfv. f_equal. f_equal. lia.
Qed.

Lemma compact_formatter_truncates_to_four_decimals_witness :
  exists fraction,
    Store.formatTxor "1999990000000000000" 18
    = Returns (if (fraction =? EmptyString)%string then BN.toString 1
               else BN.toString 1 ++ "." ++ fraction) /\
    JsString.decimalValue fraction
    * 10 ^ (4 - Z.of_nat (String.length fraction)) = 9999.
Proof.
  destruct (compact_formatter_truncates_to_four_decimals "1999990000000000000" 18
              eq_refl ltac:(lia))
    as (fraction & H1 & _ & _ & H2 & _).
  exists fraction. split; [exact H1 | exact H2].
Defined.

(** ** The metrics of the aggregator *)

Lemma sumActiveStake_total (ledgers : list (option Z)) :
  forall total,
    Aggregator.sumActiveStake ledgers total
    = total + Spec.activeStakeSum ledgers.
Proof.
  unfold Spec.activeStakeSum.
  induction ledgers as [|[a|] ledgers IH]; intros total; simpl.
  - lia.
  - rewrite IH. lia.
  - apply IH.
Qed.

Lemma lockedStake_nonneg (ledgers : list (option Z)) :
  (forall active, In (Some active) ledgers -> 0 <= active) ->
  0 <= Spec.activeStakeSum ledgers.
Proof.
  induction ledgers as [|[a|] l IH]; intros Hpos; [cbn; lia | |].
  - assert (0 <= a) by (apply Hpos; now left).
    assert (0 <= Spec.activeStakeSum l) as Hl.
    { apply IH. intros b Hb. apply Hpos. now right. }
    change (Spec.activeStakeSum (Some a :: l)) with (a + Spec.activeStakeSum l).
    lia.
  - change (Spec.activeStakeSum (None :: l)) with (Spec.activeStakeSum l).
    apply IH. intros b Hb. apply Hpos. now right.
Qed.

Lemma store_formatTxor_of_BN (z : Z) (decimals : nat) :
  exists r, Store.formatTxor (BN.toString z) decimals = Returns r.
Proof.
  unfold Store.formatTxor.
  destruct ((_ =? EmptyString) || (_ =? "0"))%string; [eauto|].
  rewrite BN_ofString_toString. cbn [bind]. eauto.
Qed.

(** X2. the metrics never fail once the four queries have settled.
    Whatever the validators and ledgers read, the metrics are computed: the
    validators online are those that are not blocked and never more than all
    of them, and the value locked is the formatted sum of the active stake of
    the ledgers that exist, a missing ledger counting for nothing. When no
    stake is negative its whole units are that sum divided by [10 ^ 18]. *)
Theorem network_metrics_never_fail
    (validatorsEntries : list Aggregator.ValidatorPrefs)
    (stakingLedgers : list (option Z)) :
  let locked := Spec.activeStakeSum stakingLedgers in
  exists m,
    Aggregator.fetchNetworkDataWithTimeout validatorsEntries stakingLedgers
    = Returns m /\
    Aggregator.totalValidators m = List.length validatorsEntries /\
    Aggregator.validatorsOnline m
    = List.length (filter Aggregator.isOnline validatorsEntries) /\
    (Aggregator.validatorsOnline m <= Aggregator.totalValidators m)%nat /\
    Store.formatTxor (BN.toString locked) 18
    = Returns (Aggregator.totalValueLocked m) /\
    ((forall active, In (Some active) stakingLedgers -> 0 <= active) ->
     JsString.integerPart (Aggregator.totalValueLocked m)
     = BN.toString (locked / 10 ^ 18)).
Proof.
  intros locked. unfold Aggregator.fetchNetworkDataWithTimeout.
  rewrite sumActiveStake_total, Z.add_0_l. fold locked.
  destruct (store_formatTxor_of_BN locked 18) as [tvl Htvl].
  rewrite Htvl. cbn [bind]. eexists. split; [reflexivity|].
  cbn [Aggregator.totalValidators Aggregator.validatorsOnline
         Aggregator.totalValueLocked].
  split; [reflexivity|]. split; [reflexivity|].
  split; [apply filter_length_le|]. split; [reflexivity|].
  intros Hpos.
  assert (0 <= locked) as Hl by (apply lockedStake_nonneg, Hpos).
  destruct (BN_toString_decimal locked Hl) as [Hdec Hval].
  destruct (store_formatTxor_decimal (BN.toString locked) 18 Hdec)
    as (r & Hr & Hint).
  rewrite Htvl in Hr. injection Hr as <-. now rewrite Hint, Hval.
Qed.

Lemma network_metrics_never_fail_witness :
  exists m,
    Aggregator.fetchNetworkDataWithTimeout
      [{| Aggregator.blocked := None |}; {| Aggregator.blocked := Some true |}]
      [Some 1500000000000000000; None; Some 2000000000000000000] = Returns m /\
    JsString.integerPart (Aggregator.totalValueLocked m) = "3"%string.
Proof.
  destruct (network_metrics_never_fail
              [{| Aggregator.blocked := None |}; {| Aggregator.blocked := Some true |}]
              [Some 1500000000000000000; None; Some 2000000000000000000])
    as (m & Hm & _ & _ & _ & _ & H).
  exists m. split; [exact Hm|]. apply H.
  intros active [[= <-] | [[=] | [[= <-] | []]]]; lia.
Defined.

(** ** Transfer detection by method name *)

Lemma prefix_iff (p s : string) :
  String.prefix p s = true <-> exists post, s = (p ++ post)%string.
Proof.
  revert s. induction p as [|c p IH]; intros [|d s]; simpl.
  - split; [intros _; now exists EmptyString | reflexivity].
  - split; [intros _; now exists (String d s) | reflexivity].
  - split; [discriminate | intros [post [=]]].
  - destruct (ascii_dec c d) as [->|Hcd].
    + rewrite IH. split; intros [post H]; exists post.
      * now rewrite H.
      * now injection H.
    + split; [discriminate | intros [post [= H _]]; now elim Hcd].
Qed.

Lemma includes_iff (s sub : string) :
  JsString.includes s sub = true
  <-> exists pre post, s = (pre ++ sub ++ post)%string.
Proof.
  induction s as [|c s IH].
  - change (JsString.includes EmptyString sub) with (String.prefix sub EmptyString).
    rewrite prefix_iff. split.
    + intros [post H]. exists EmptyString, post. exact H.
    + intros [[|d pre] [post H]]; [now exists post | discriminate].
  - change (JsString.includes (String c s) sub)
      with (String.prefix sub (String c s) || JsString.includes s sub).
    rewrite orb_true_iff, prefix_iff, IH. split.
    + intros [[post H] | [pre [post H]]].
      * exists EmptyString, post. exact H.
      * exists (String c pre), post. simpl. now rewrite H.
    + intros [[|d pre] [post H]].
      * left. now exists post.
      * right. injection H as _ H. now exists pre, post.
Qed.

Lemma includes_trans (s a b : string) :
  JsString.includes s a = true -> JsString.includes a b = true ->
  JsString.includes s b = true.
Proof.
  rewrite !includes_iff. intros [pre [post ->]] [pre' [post' ->]].
  exists (pre ++ pre')%string, (post' ++ post)%string.
  now rewrite !append_assoc.
Qed.

(** X3. a call is taken for a transfer by its name exactly when the
    lower-cased name contains "transfer". *)
Theorem transfer_method_is_any_name_with_transfer (method : string) :
  Store.isTransferMethod method
  = JsString.includes (JsString.toLowerCase method) "transfer".
Proof.
  unfold Store.isTransferMethod.
  destruct (JsString.includes (JsString.toLowerCase method) "transfer") eqn:H.
  - apply existsb_exists. exists "transfer"%string.
    split; [now left | exact H].
  - apply not_true_is_false. intros Hex.
    apply existsb_exists in Hex. destruct Hex as [tm [Hin Htm]].
    assert (JsString.includes (JsString.toLowerCase tm) "transfer" = true) as Hsub.
    { unfold Store.transferMethods in Hin. simpl in Hin.
      repeat (destruct Hin as [<- | Hin]; [vm_compute; reflexivity|]).
      contradiction. }
    now rewrite (includes_trans _ _ _ Htm Hsub) in H.
Qed.

Lemma filter_nil_existsb {A} (p : A -> bool) (l : list A) :
  filter p l = [] <-> existsb p l = false.
Proof.
  induction l as [|x l IH]; simpl; [tauto|].
  destruct (p x); simpl; [split; discriminate | exact IH].
Qed.

Lemma filter_cons_existsb {A} (p : A -> bool) (l : list A) x rest :
  filter p l = x :: rest -> existsb p l = true.
Proof.
  intros H. destruct (existsb p l) eqn:E; [reflexivity|].
  apply filter_nil_existsb in E. congruence.
Qed.

(** X4. whether an extrinsic is marked as a transfer, and in which asset.
    It is marked exactly when its call is a transfer call by pallet and name
    or one of its events passes the transfer filter; the asset is always
    "XOR", whichever pallet moved it. When no event passes the filter, the
    fields are those of a transfer call: the signer, and the first two
    arguments if the call has two. *)
Theorem transfer_flag_and_call_fields
    (api : Chain.ApiPromise) (ext : Chain.Extrinsic)
    (events : list Chain.EventRecord) :
  let info := Store.detectTransferFromExtrinsic ext events api in
  let byCall := Store.isTransferPallet (Chain.section ext)
                && Store.isTransferMethod (Chain.method ext) in
  Store.isTransfer info = byCall || existsb (Store.isTransferEvent api) events /\
  Store.asset info = "XOR"%string /\
  (existsb (Store.isTransferEvent api) events = false ->
   Store.from info
   = (if byCall then option_map Chain.toString (Chain.signer ext) else None) /\
   Store.to info
   = (if byCall && (2 <=? List.length (Chain.args ext))%nat
      then option_map Chain.toString (nth_error (Chain.args ext) 0) else None) /\
   Store.amount info
   = (if byCall && (2 <=? List.length (Chain.args ext))%nat
      then option_map Chain.toString (nth_error (Chain.args ext) 1) else None)).
Proof.
  intros info byCall. subst info.
  unfold Store.detectTransferFromExtrinsic.
  destruct (detectStaking_keeps ext
              (Store.detectByEvents api events
                 (Store.detectByMethod ext Store.initialTransferInfo)))
    as (Ht & Hf & Hto & Ha).
  rewrite Ht, Hf, Hto, Ha.
  assert (Store.asset
            (Store.detectStaking ext
               (Store.detectByEvents api events
                  (Store.detectByMethod ext Store.initialTransferInfo)))
          = "XOR"%string) as Hasset.
  { unfold Store.detectStaking, Store.detectByEvents, Store.detectByMethod.
    destruct (_ && existsb _ Store.stakingMethods);
      destruct (filter _ events) as [|first rest];
      destruct (Store.isTransferPallet _ && Store.isTransferMethod _);
      cbn [Store.asset]; try reflexivity;
      repeat match goal with
             | |- context [match ?l with _ => _ end] => destruct l
             end; reflexivity. }
  split; [|split; [exact Hasset|]].
  - unfold Store.detectByEvents, Store.detectByMethod. fold byCall.
    destruct (filter (Store.isTransferEvent api) events) as [|first rest] eqn:Hfl.
    + apply filter_nil_existsb in Hfl. rewrite Hfl, orb_false_r.
      destruct byCall; [|reflexivity].
      destruct (Chain.args ext) as [|a0 [|a1 more]]; reflexivity.
    + rewrite (filter_cons_existsb _ _ _ _ Hfl), orb_true_r.
      destruct (Chain.data (Chain.event first)) as [|d0 [|d1 [|d2 more]]];
        reflexivity.
  - intros Hnone. apply filter_nil_existsb in Hnone.
    unfold Store.detectByEvents. rewrite Hnone.
    unfold Store.detectByMethod. fold byCall.
    destruct byCall; [|now split].
    destruct (Chain.args ext) as [|a0 [|a1 more]]; now split.
Qed.

Lemma transfer_flag_and_call_fields_witness :
  Store.isTransfer
    (Store.detectTransferFromExtrinsic Spec.transferCall [] Spec.bareApi) = true /\
  Store.to (Store.detectTransferFromExtrinsic Spec.transferCall [] Spec.bareApi)
  = Some "bob"%string.
Proof.
  pose proof (transfer_flag_and_call_fields Spec.bareApi Spec.transferCall [])
    as (H1 & _ & H3).
  destruct (H3 eq_refl) as (_ & Hto & _).
  split; [exact H1 | exact Hto].
Defined.

(** ** The fee of an extrinsic *)

Lemma last_of_rev {A B} (f : A -> B) (d : B) (l : list A) :
  match List.rev l with
  | [] => d
  | final :: _ => f final
  end = List.last (map f l) d.
Proof.
  induction l as [|x l IH] using rev_ind; [reflexivity|].
  rewrite rev_app_distr, map_app. simpl.
  now rewrite last_last.
Qed.

Lemma filter_first {A} (p : A -> bool) (before after : list A) (x : A) :
  (forall y, In y before -> p y = false) -> p x = true ->
  filter p (before ++ x :: after)%list = x :: filter p after.
Proof.
  intros Hb Hx. rewrite filter_app, (filter_none p before Hb). simpl.
  now rewrite Hx.
Qed.

(** X5. the fee of an extrinsic is the text of the last data field of the
    first of its events that is a [balances.Withdraw] or a
    [transactionPayment.TransactionFeePaid]; later fee events are not read.
    It is "0" when that event has no data and when there is no fee event. *)
Theorem fee_is_last_field_of_first_fee_event
    (api : Chain.ApiPromise) (events : list Chain.EventRecord) :
  (existsb (Store.isFeeEvent api) events = false ->
   Store.calculateTransactionFee events api = "0"%string) /\
  (forall before r after,
     events = (before ++ r :: after)%list ->
     (forall e, In e before -> Store.isFeeEvent api e = false) ->
     Store.isFeeEvent api r = true ->
     Store.calculateTransactionFee events api
     = List.last (map Chain.toString (Chain.data (Chain.event r))) "0"%string).
Proof.
  unfold Store.calculateTransactionFee. split.
  - intros H. apply filter_nil_existsb in H. now rewrite H.
  - intros before r after -> Hb Hr.
    rewrite (filter_first _ _ _ _ Hb Hr).
    apply (last_of_rev Chain.toString).
Qed.

Lemma fee_is_last_field_of_first_fee_event_witness :
  Store.calculateTransactionFee
    [Spec.eventAt 1 "system" "ExtrinsicSuccess" [];
     Spec.eventAt 1 "transactionPayment" "TransactionFeePaid"
       ["alice"; "7000"; "3"];
     Spec.eventAt 1 "balances" "Withdraw" ["alice"; "7003"]] Spec.bareApi
  = "3"%string.
Proof.
  apply (proj2 (fee_is_last_field_of_first_fee_event Spec.bareApi _)
           [Spec.eventAt 1 "system" "ExtrinsicSuccess" []]
           (Spec.eventAt 1 "transactionPayment" "TransactionFeePaid"
              ["alice"; "7000"; "3"])
           [Spec.eventAt 1 "balances" "Withdraw" ["alice"; "7003"]]).
  - reflexivity.
  - intros e [<- | []]. reflexivity.
  - reflexivity.
Defined.

(** ** The compact formatter on a text that is no number *)

(** the amount of a [transferAll] call that no transfer event overrides is the
    text of its [keepAlive] flag *)
Lemma transferAll_amount (api : Chain.ApiPromise)
    (events : list Chain.EventRecord) :
  existsb (Store.isTransferEvent api) events = false ->
  Store.amount (Store.detectTransferFromExtrinsic Spec.transferAllCall events api)
  = Some "false"%string.
Proof.
  intros Hnone. unfold Store.detectTransferFromExtrinsic.
  destruct (detectStaking_keeps Spec.transferAllCall
              (Store.detectByEvents api events
                 (Store.detectByMethod Spec.transferAllCall
                    Store.initialTransferInfo))) as (_ & _ & _ & ->).
  unfold Store.detectByEvents.
  now rewrite (proj2 (filter_nil_existsb _ _) Hnone).
Qed.

(** C5, at the failing input. The compact formatter of the store throws on
    ["false"], the text of the [keepAlive] flag that a [transferAll] call has
    where other transfers have their amount, and on an account address. It
    gives every text that is not empty and not ["0"] to [new BN], which
    rejects a character that is no digit: the formatter throws on every
    ASCII text that, without its white space and after an optional sign,
    holds such a character. The padded formatter returns its zero on
    ["false"]. The store reaches the throw by itself: building the
    transaction of a [balances.transferAll(bob, false)] call throws when none
    of its events is a transfer event, as after a failed call, and its fee
    formats. *)
Theorem compact_formatter_throws_on_text_that_is_no_number :
  Store.formatTxor "false" 18 = Throws "Invalid character" /\
  Store.formatTxor Spec.aliceAddress 18 = Throws "Invalid character" /\
  (forall s decimals,
     JsString.allChars JsString.isAscii s = true ->
     JsString.allChars JsString.isDigit
       (JsString.removeAll JsString.isWhitespace s) = false ->
     (forall rest, JsString.removeAll JsString.isWhitespace s
                   = String "-" rest ->
                   JsString.allChars JsString.isDigit rest = false) ->
     Store.formatTxor s decimals = Throws "Invalid character") /\
  (forall toLocaleString Math_pow decimals maxFractionDigits,
     Utils.formatTxor toLocaleString Math_pow (Utils.RawString "false") decimals
       maxFractionDigits
     = Returns "0.0000"%string) /\
  (forall api blockNumber blockHashHex timestamp events index fee,
     existsb (Store.isTransferEvent api) (filter (Store.appliesTo index) events)
     = false ->
     Store.formatTxorHangs
       (Store.calculateTransactionFee (filter (Store.appliesTo index) events) api)
     = false ->
     Store.formatTxor
       (Store.calculateTransactionFee (filter (Store.appliesTo index) events) api)
       18 = Returns fee ->
     Store.buildTransaction api blockNumber blockHashHex timestamp events index
       Spec.transferAllCall
     = Throws "Invalid character") /\
  Store.buildTransaction Spec.bareApi 7 "0x07" None
    [Spec.eventAt 1 "balances" "Withdraw" ["alice"; "7000000000000000"];
     Spec.eventAt 1 "system" "ExtrinsicFailed" ["Token"; "FundsUnavailable"]]
    1 Spec.transferAllCall
  = Throws "Invalid character".
Proof.
  split; [reflexivity|]. split; [reflexivity|].
  split; [|split; [|split; [|reflexivity]]].
  - intros s decimals _ Hd Hsign. unfold Store.formatTxor.
    destruct ((s =? EmptyString) || (s =? "0"))%string eqn:G.
    + apply orb_true_iff in G.
      destruct G as [G | G]; apply String.eqb_eq in G; subst s; discriminate Hd.
    + unfold BN.ofString.
      destruct (JsString.removeAll JsString.isWhitespace s) as [|c u] eqn:E;
        [discriminate Hd|].
      destruct (Ascii.eqb c "-") eqn:Hc.
      * apply Ascii.eqb_eq in Hc. subst c.
        rewrite (parseBase_throws u (Hsign u eq_refl)). reflexivity.
      * assert (BN.parseBase (String c u) 0 = Throws "Invalid character") as Hp
          by (apply parseBase_throws; exact Hd).
        destruct c as [[] [] [] [] [] [] [] []];
          try discriminate Hc; rewrite Hp; reflexivity.
  - intros. now apply utils_formatTxor_without_digit.
  - intros api bn bh ts events index fee Hnone _ Hfee.
    unfold Store.buildTransaction.
    rewrite Hfee, (transferAll_amount api _ Hnone). reflexivity.
Qed.

(** ** The shape of the recent activity *)

Lemma StronglySorted_app {A} (R : A -> A -> Prop) (l1 l2 : list A) :
  StronglySorted R l1 -> StronglySorted R l2 ->
  (forall x y, In x l1 -> In y l2 -> R x y) ->
  StronglySorted R (l1 ++ l2)%list.
Proof.
  intros H1 H2 H12. induction H1 as [|x l1 Hs IH Hx]; simpl; [exact H2|].
  constructor.
  - apply IH. intros u v Hu Hv. apply H12; [now right | exact Hv].
  - apply Forall_app. split; [exact Hx|].
    apply Forall_forall. intros y Hy. apply H12; [now left | exact Hy].
Qed.

Lemma StronglySorted_filter {A} (R : A -> A -> Prop) (p : A -> bool) (l : list A) :
  StronglySorted R l -> StronglySorted R (filter p l).
Proof.
  intros H. induction H as [|x l Hs IH Hx]; simpl; [constructor|].
  destruct (p x); [|exact IH]. constructor; [exact IH|].
  apply Forall_forall. intros y Hy. apply filter_In in Hy.
  rewrite Forall_forall in Hx. now apply Hx.
Qed.

Lemma StronglySorted_firstn {A} (R : A -> A -> Prop) (k : nat) (l : list A) :
  StronglySorted R l -> StronglySorted R (firstn k l).
Proof.
  intros H. revert k. induction H as [|x l Hs IH Hx]; intros [|k]; simpl;
    try constructor.
  - apply IH.
  - apply Forall_forall. intros y Hy. rewrite Forall_forall in Hx.
    apply Hx. now apply (In_firstn_In l k).
Qed.

Lemma StronglySorted_same_key {A} (key : A -> Z) (n : Z) (l : list A) :
  (forall x, In x l -> key x = n) ->
  StronglySorted (fun t u => key u <= key t) l.
Proof.
  induction l as [|x l IH]; intros H; constructor.
  - apply IH. intros y Hy. apply H. now right.
  - apply Forall_forall. intros y Hy.
    rewrite (H x (or_introl eq_refl)), (H y (or_intror Hy)). lia.
Qed.

Lemma flat_map_newest_first {A} (key : A -> Z) (f : Z -> list A) (ns : list Z) :
  (forall n x, In x (f n) -> key x = n) ->
  StronglySorted Z.gt ns ->
  StronglySorted (fun t u => key u <= key t) (flat_map f ns).
Proof.
  intros Hkey H. induction H as [|n ns Hs IH Hn]; simpl; [constructor|].
  apply StronglySorted_app; [|exact IH|].
  - apply (StronglySorted_same_key key n). apply Hkey.
  - intros x y Hx Hy. apply in_flat_map in Hy. destruct Hy as [m [Hm Hy]].
    rewrite (Hkey n x Hx), (Hkey m y Hy).
    rewrite Forall_forall in Hn. specialize (Hn m Hm). lia.
Qed.

Lemma flat_map_descending {A} (key : A -> Z) (f : Z -> list A) (ns : list Z) :
  (forall n, (List.length (f n) <= 1)%nat) ->
  (forall n x, In x (f n) -> key x = n) ->
  StronglySorted Z.gt ns ->
  StronglySorted Z.gt (map key (flat_map f ns)) /\
  (List.length (flat_map f ns) <= List.length ns)%nat.
Proof.
  intros Hone Hkey H. induction H as [|n ns Hs [IH IHlen] Hn]; simpl.
  - split; [constructor | lia].
  - rewrite map_app, length_app. specialize (Hone n).
    assert (forall y, In y (map key (flat_map f ns)) -> n > y) as Hbelow.
    { intros y Hy. apply in_map_iff in Hy. destruct Hy as [x [<- Hx]].
      apply in_flat_map in Hx. destruct Hx as [m [Hm Hx]].
      rewrite (Hkey m x Hx). rewrite Forall_forall in Hn. now apply Hn. }
    split; [|lia].
    pose proof (Hkey n) as Hk.
    destruct (f n) as [|x [|y more]]; simpl in *; [exact IH | | lia].
    constructor; [exact IH|]. apply Forall_forall. intros y Hy.
    rewrite (Hk x (or_introl eq_refl)). now apply Hbelow.
Qed.

Lemma insertByBlockNumber_head (t : Store.Transaction) (l : list Store.Transaction) :
  Forall (fun u => Store.blockNumber u <= Store.blockNumber t) l ->
  Store.insertByBlockNumber t l = t :: l.
Proof.
  intros H. destruct H as [|u l Hu _]; [reflexivity|]. simpl.
  destruct (Store.blockNumber t <? Store.blockNumber u) eqn:E; [lia | reflexivity].
Qed.

(** sorting what is sorted changes nothing *)
Lemma sortByBlockNumberDesc_sorted (l : list Store.Transaction) :
  StronglySorted (fun t u => Store.blockNumber u <= Store.blockNumber t) l ->
  Store.sortByBlockNumberDesc l = l.
Proof.
  intros H. induction H as [|t l Hs IH Ht]; [reflexivity|].
  unfold Store.sortByBlockNumberDesc in *. simpl. rewrite IH.
  now apply insertByBlockNumber_head.
Qed.

Lemma recentBlockNumbers_descending (latest : Z) :
  StronglySorted Z.gt (Store.recentBlockNumbers latest) /\
  (List.length (Store.recentBlockNumbers latest) <= 5)%nat /\
  forall n, In n (Store.recentBlockNumbers latest) ->
            0 <= n /\ latest - 4 <= n <= latest.
Proof.
  unfold Store.recentBlockNumbers. split; [|split].
  - apply StronglySorted_filter. cbn [seq map].
    repeat (constructor; [|repeat (constructor; [lia|]); constructor]).
    constructor.
  - etransitivity; [apply filter_length_le|]. now rewrite length_map, length_seq.
  - intros n Hn. apply filter_In in Hn. destruct Hn as [Hn H0].
    apply in_map_iff in Hn. destruct Hn as [i [<- Hi]]. apply in_seq in Hi.
    lia.
Qed.

Lemma buildTransaction_fields api bn bh ts events index ext t :
  Store.buildTransaction api bn bh ts events index ext = Returns t ->
  let own := filter (Store.appliesTo index) events in
  Store.txHash t = Chain.toHex (Chain.hash ext) /\
  Store.blockNumber t = bn /\
  Store.blockHash t = bh /\
  Store.index t = index /\
  Store.timestamp t = ts /\
  Store.txMethod t = Chain.method ext /\
  Store.txSection t = Chain.section ext /\
  Store.events t = map Store.summarizeEvent own /\
  Store.success t
  = negb (existsb (fun r => Chain.isExtrinsicFailed api (Chain.event r)) own) /\
  Store.formatTxor (Store.calculateTransactionFee own api) 18
  = Returns (Store.fee t).
Proof.
  intros H own. unfold Store.buildTransaction in H. fold own in H.
  destruct (Store.formatTxor (Store.calculateTransactionFee own api) 18)
    as [fee'|] eqn:Hfee; simpl in H; [|discriminate].
  destruct (Store.amount (Store.detectTransferFromExtrinsic ext own api))
    as [a|]; simpl in H.
  - destruct (a =? EmptyString)%string; simpl in H.
    + injection H as <-. simpl. repeat split; reflexivity.
    + destruct (Store.formatTxor a 18); simpl in H; [|discriminate].
      injection H as <-. simpl. repeat split; reflexivity.
  - injection H as <-. simpl. repeat split; reflexivity.
Qed.

Lemma forEachExtrinsic_nth api bn bh ts events exts :
  forall index i t,
    nth_error
      (Store.collectedTransactions
         (fst (Store.forEachExtrinsic api bn bh ts events index exts
                 Spec.nothingCollected))) i = Some t ->
    exists ext,
      nth_error exts i = Some ext /\
      Store.buildTransaction api bn bh ts events (index + i) ext = Returns t.
Proof.
  induction exts as [|ext rest IH]; intros index i t; simpl.
  - destruct i; discriminate.
  - destruct (Store.buildTransaction api bn bh ts events index ext) as [u|e] eqn:E;
      simpl; [|destruct i; discriminate].
    rewrite forEachExtrinsic_append. simpl. destruct i as [|i]; simpl.
    + intros [= <-]. exists ext. now rewrite Nat.add_0_r.
    + intros H. destruct (IH (S index) i t H) as [ext' [Hn Hb]].
      exists ext'. split; [exact Hn|]. now rewrite Nat.add_succ_r.
Qed.

(** what one height yields: nothing, or the record of its block and the
    transactions built from a prefix of its extrinsics *)
Lemma contribution_shape api n :
  Spec.contributionOf api n = Spec.nothingCollected \/
  exists h block events ts,
    Chain.getBlockHash api n = Returns h /\
    Chain.getBlock api h = Returns block /\
    Chain.eventsAt api h = Returns events /\
    Store.blockTimestampOf (Chain.extrinsics block) = Returns ts /\
    Store.collectedBlocks (Spec.contributionOf api n)
    = [{| Store.height := n;
          Store.blockHashHex := Chain.toHex h;
          Store.blockTimestamp := ts;
          Store.txCount := List.length (Chain.extrinsics block);
          Store.proposer := "Unknown";
          Store.size := BN.toString (Z.of_nat (Chain.jsonLength block)) |}] /\
    forall i t,
      nth_error (Store.collectedTransactions (Spec.contributionOf api n)) i
      = Some t ->
      exists ext,
        nth_error (Chain.extrinsics block) i = Some ext /\
        Store.buildTransaction api n (Chain.toHex h) ts events i ext = Returns t.
Proof.
  unfold Spec.contributionOf, Store.collectBlocks; simpl.
  unfold Store.fetchBlockHash.
  destruct (Chain.getBlockHash api n) as [h|] eqn:Hh; simpl; [|now left].
  destruct (Chain.getBlock api h) as [block|] eqn:Hb; simpl; [|now left].
  destruct (Chain.eventsAt api h) as [events|] eqn:He; simpl; [|now left].
  unfold Store.processBlock.
  destruct (Store.blockTimestampOf (Chain.extrinsics block)) as [ts|] eqn:Hts;
    simpl; [|now left].
  right. exists h, block, events, ts.
  split; [reflexivity|]. split; [exact Hb|]. split; [exact He|].
  split; [exact Hts|]. split.
  - now rewrite forEachExtrinsic_blocks.
  - intros i t. rewrite forEachExtrinsic_append. simpl.
    intros H. apply forEachExtrinsic_nth in H. exact H.
Qed.

Lemma contribution_blocks_le_one api n :
  (List.length (Store.collectedBlocks (Spec.contributionOf api n)) <= 1)%nat.
Proof.
  destruct (contribution_shape api n) as [-> | (h & block & events & ts & H)].
  - simpl. lia.
  - destruct H as (_ & _ & _ & _ & -> & _). simpl. lia.
Qed.

Lemma fetch_cases api now d :
  Store.fetchEnhancedTransactionData api now = Returns d ->
  d = Store.emptyTransactionData now \/
  exists head latest,
    Chain.getFinalizedHead api = Returns head /\
    Chain.getHeader api head = Returns latest /\
    d = Store.resultOf
          (Store.collectBlocks api (Store.recentBlockNumbers latest)) now.
Proof.
  rewrite fetch_unfold.
  destruct (Chain.getFinalizedHead api) as [head|] eqn:Hhead;
    [|intros [= <-]; now left].
  destruct (Chain.getHeader api head) as [latest|] eqn:Hlatest;
    intros [= <-]; [|now left].
  right. now exists head, latest.
Qed.

Lemma collected_newest_first api latest :
  StronglySorted (fun t u => Store.blockNumber u <= Store.blockNumber t)
    (Store.collectedTransactions
       (Store.collectBlocks api (Store.recentBlockNumbers latest))).
Proof.
  rewrite collectBlocks_transactions.
  apply (flat_map_newest_first Store.blockNumber).
  - intros n x. apply contribution_blockNumber.
  - apply recentBlockNumbers_descending.
Qed.

Lemma result_transactions api latest now :
  Store.transactions
    (Store.resultOf (Store.collectBlocks api (Store.recentBlockNumbers latest)) now)
  = firstn 100
      (flat_map (fun n => Store.collectedTransactions (Spec.contributionOf api n))
         (Store.recentBlockNumbers latest)).
Proof.
  unfold Store.resultOf; cbn [Store.transactions].
  rewrite <- collectBlocks_transactions.
  apply sortByBlockNumberDesc_sorted, StronglySorted_firstn, collected_newest_first.
Qed.

(** X6. the recent transactions are the first hundred that were collected,
    in the order of collection: newest block first, and within a block in the
    order of its extrinsics. The sort changes nothing, and what the limit of
    one hundred drops belongs to the oldest blocks. *)
Theorem recent_transactions_keep_collection_order
    (api : Chain.ApiPromise) (now : Z) (d : Store.TransactionData) :
  Store.fetchEnhancedTransactionData api now = Returns d ->
  StronglySorted (fun t u => Store.blockNumber u <= Store.blockNumber t)
    (Store.transactions d) /\
  (List.length (Store.transactions d) <= 100)%nat /\
  Store.lastUpdated d = now /\
  (forall head latest,
     Chain.getFinalizedHead api = Returns head ->
     Chain.getHeader api head = Returns latest ->
     Store.transactions d
     = firstn 100
         (flat_map (fun n => Store.collectedTransactions (Spec.contributionOf api n))
            (Store.recentBlockNumbers latest))).
Proof.
  intros H. destruct (fetch_cases api now d H)
    as [-> | (head & latest & Hhead & Hlatest & ->)].
  - split; [constructor|]. split; [simpl; lia|]. split; [reflexivity|].
    intros head latest Hhead Hlatest. rewrite fetch_unfold, Hhead, Hlatest in H.
    rewrite <- (result_transactions api latest now).
    now apply (f_equal (fun r => match r with
                                 | Returns d => Store.transactions d
                                 | Throws _ => []
                                 end)) in H.
  - rewrite result_transactions. split; [|split; [|split]].
    + apply StronglySorted_firstn. rewrite <- collectBlocks_transactions.
      apply collected_newest_first.
    + apply firstn_le_length.
    + reflexivity.
    + intros head' latest'. rewrite Hhead. intros [= <-]. rewrite Hlatest.
      now intros [= <-].
Qed.

Lemma recent_transactions_keep_collection_order_witness :
  map (fun t => (Store.blockNumber t, Store.index t))
    (Store.transactions
       (Store.resultOf
          (Store.collectBlocks Spec.demoApi (Store.recentBlockNumbers 2)) 0))
  = [(2, 0%nat); (1, 0%nat); (1, 1%nat)] /\
  StronglySorted (fun t u => Store.blockNumber u <= Store.blockNumber t)
    (Store.transactions
       (Store.resultOf
          (Store.collectBlocks Spec.demoApi (Store.recentBlockNumbers 2)) 0)).
Proof.
  split; [vm_compute; reflexivity|].
  exact (proj1 (recent_transactions_keep_collection_order Spec.demoApi 0 _ eq_refl)).
Defined.

(** X7. the recent blocks are at most five, at strictly decreasing heights
    between the finalized height and four below it, never below zero; each
    record carries the hash and the number of extrinsics of the block at its
    height. *)
Theorem recent_blocks_descend_from_the_finalized_head
    (api : Chain.ApiPromise) (now : Z) (d : Store.TransactionData) :
  Store.fetchEnhancedTransactionData api now = Returns d ->
  (List.length (Store.blocks d) <= 5)%nat /\
  StronglySorted Z.gt (map Store.height (Store.blocks d)) /\
  (forall b, In b (Store.blocks d) ->
     exists head latest h block,
       Chain.getFinalizedHead api = Returns head /\
       Chain.getHeader api head = Returns latest /\
       0 <= Store.height b /\
       latest - 4 <= Store.height b <= latest /\
       Chain.getBlockHash api (Store.height b) = Returns h /\
       Chain.getBlock api h = Returns block /\
       Store.blockHashHex b = Chain.toHex h /\
       Store.txCount b = List.length (Chain.extrinsics block)).
Proof.
  intros H. destruct (fetch_cases api now d H)
    as [-> | (head & latest & Hhead & Hlatest & ->)].
  - simpl. repeat split; [lia | constructor | tauto].
  - unfold Store.resultOf; cbn [Store.blocks]. rewrite collectBlocks_blocks.
    destruct (recentBlockNumbers_descending latest) as (Hsorted & Hlen & Hrange).
    destruct (flat_map_descending Store.height
                (fun n => Store.collectedBlocks (Spec.contributionOf api n))
                (Store.recentBlockNumbers latest)) as [Hdesc Hle].
    + intros n. apply contribution_blocks_le_one.
    + intros n x. apply contribution_height.
    + exact Hsorted.
    + split; [lia|]. split; [exact Hdesc|].
      intros b Hb. apply in_flat_map in Hb. destruct Hb as [n [Hn Hb]].
      pose proof (contribution_height api n b Hb) as Hh.
      destruct (Hrange n Hn) as [H0 Hwin].
      destruct (contribution_shape api n)
        as [Hnone | (h & block & events & ts & Hh1 & Hb1 & _ & _ & Hblocks & _)].
      * rewrite Hnone in Hb. destruct Hb.
      * rewrite Hblocks in Hb. destruct Hb as [<- | []]. simpl in *.
        exists head, latest, h, block. repeat split; try assumption; lia.
Qed.

Lemma recent_blocks_descend_from_the_finalized_head_witness :
  exists d,
    Store.fetchEnhancedTransactionData Spec.demoApi 0 = Returns d /\
    StronglySorted Z.gt (map Store.height (Store.blocks d)) /\
    map Store.height (Store.blocks d) = [2; 1; 0].
Proof.
  eexists. split; [reflexivity|]. split; [|vm_compute; reflexivity].
  exact (proj1 (proj2 (recent_blocks_descend_from_the_finalized_head
                         Spec.demoApi 0 _ eq_refl))).
Defined.

Lemma In_result_transactions api latest now t :
  In t (Store.transactions
          (Store.resultOf
             (Store.collectBlocks api (Store.recentBlockNumbers latest)) now)) ->
  exists n i,
    In n (Store.recentBlockNumbers latest) /\
    nth_error (Store.collectedTransactions (Spec.contributionOf api n)) i = Some t.
Proof.
  rewrite result_transactions. intros H. apply In_firstn_In in H.
  apply in_flat_map in H. destruct H as [n [Hn H]].
  apply In_nth_error in H. destruct H as [i H]. now exists n, i.
Qed.

(** X8. every listed transaction has its block listed, with the same hash
    and timestamp, and an index below the block's count of extrinsics. *)
Theorem listed_transaction_has_its_block_listed
    (api : Chain.ApiPromise) (now : Z) (d : Store.TransactionData)
    (t : Store.Transaction) :
  Store.fetchEnhancedTransactionData api now = Returns d ->
  In t (Store.transactions d) ->
  exists b,
    In b (Store.blocks d) /\
    Store.height b = Store.blockNumber t /\
    Store.blockHashHex b = Store.blockHash t /\
    Store.blockTimestamp b = Store.timestamp t /\
    (Store.index t < Store.txCount b)%nat.
Proof.
  intros H Ht. destruct (fetch_cases api now d H)
    as [-> | (head & latest & Hhead & Hlatest & ->)]; [destruct Ht|].
  destruct (In_result_transactions api latest now t Ht) as (n & i & Hn & Hi).
  destruct (contribution_shape api n)
    as [Hnone | (h & block & events & ts & _ & _ & _ & _ & Hblocks & Htxs)].
  - rewrite Hnone in Hi. destruct i; discriminate.
  - destruct (Htxs i t Hi) as [ext [Hext Hbuild]].
    destruct (buildTransaction_fields _ _ _ _ _ _ _ _ Hbuild)
      as (_ & Hbn & Hbh & Hidx & Hts & _).
    eexists. split.
    + unfold Store.resultOf; cbn [Store.blocks]. rewrite collectBlocks_blocks.
      apply in_flat_map. exists n. split; [exact Hn|].
      rewrite Hblocks. now left.
    + simpl. rewrite Hbn, Hbh, Hidx, Hts. repeat split.
      apply nth_error_Some. congruence.
Qed.

Lemma listed_transaction_has_its_block_listed_witness :
  exists d t b,
    Store.fetchEnhancedTransactionData Spec.demoApi 0 = Returns d /\
    In t (Store.transactions d) /\
    In b (Store.blocks d) /\
    Store.height b = Store.blockNumber t /\
    Store.blockNumber t = 2.
Proof.
  eexists. 
  assert (exists t rest,
            (Store.transactions
               (Store.resultOf
                  (Store.collectBlocks Spec.demoApi (Store.recentBlockNumbers 2)) 0)
             = t :: rest) /\ Store.blockNumber t = 2) as (t & rest & Hl & H2).
  { vm_compute. eauto. }
  assert (In t (Store.transactions
                  (Store.resultOf
                     (Store.collectBlocks Spec.demoApi
                        (Store.recentBlockNumbers 2)) 0))) as Hin.
  { rewrite Hl. now left. }
  destruct (listed_transaction_has_its_block_listed Spec.demoApi 0 _ t eq_refl Hin)
    as (b & Hb & Hh & _).
  exists t, b. split; [reflexivity|]. repeat split; assumption.
Defined.

(** X9. a listed transaction is the extrinsic at its index in the block at
    its height: it has that extrinsic's hash, call and signer, the events
    whose phase is that index and no others, it succeeded when none of them
    is [system.ExtrinsicFailed], and its fee is the formatted fee of those
    events. *)
Theorem listed_transaction_is_the_extrinsic_at_its_index
    (api : Chain.ApiPromise) (now : Z) (d : Store.TransactionData)
    (t : Store.Transaction) :
  Store.fetchEnhancedTransactionData api now = Returns d ->
  In t (Store.transactions d) ->
  exists h block events ext,
    Chain.getBlockHash api (Store.blockNumber t) = Returns h /\
    Chain.getBlock api h = Returns block /\
    Chain.eventsAt api h = Returns events /\
    nth_error (Chain.extrinsics block) (Store.index t) = Some ext /\
    Store.txHash t = Chain.toHex (Chain.hash ext) /\
    Store.txMethod t = Chain.method ext /\
    Store.txSection t = Chain.section ext /\
    Store.events t
    = map Store.summarizeEvent (filter (Store.appliesTo (Store.index t)) events) /\
    Store.success t
    = negb (existsb (fun r => Chain.isExtrinsicFailed api (Chain.event r))
              (filter (Store.appliesTo (Store.index t)) events)) /\
    Store.formatTxor
      (Store.calculateTransactionFee
         (filter (Store.appliesTo (Store.index t)) events) api) 18
    = Returns (Store.fee t).
Proof.
  intros H Ht. destruct (fetch_cases api now d H)
    as [-> | (head & latest & Hhead & Hlatest & ->)]; [destruct Ht|].
  destruct (In_result_transactions api latest now t Ht) as (n & i & Hn & Hi).
  destruct (contribution_shape api n)
    as [Hnone | (h & block & events & ts & Hh & Hb & He & _ & _ & Htxs)].
  - rewrite Hnone in Hi. destruct i; discriminate.
  - destruct (Htxs i t Hi) as [ext [Hext Hbuild]].
    destruct (buildTransaction_fields _ _ _ _ _ _ _ _ Hbuild)
      as (Hhash & Hbn & _ & Hidx & _ & Hm & Hs & Hev & Hsucc & Hfee).
    exists h, block, events, ext. rewrite Hbn, Hidx.
    repeat split; assumption.
Qed.

Lemma listed_transaction_is_the_extrinsic_at_its_index_witness :
  exists d t ext,
    Store.fetchEnhancedTransactionData Spec.demoApi 0 = Returns d /\
    In t (Store.transactions d) /\
    Store.blockNumber t = 1 /\ Store.index t = 1%nat /\
    Store.txHash t = Chain.toHex (Chain.hash ext) /\
    Store.txMethod t = Chain.method ext.
Proof.
  eexists.
  assert (exists t0 t1 t rest,
            Store.transactions
              (Store.resultOf
                 (Store.collectBlocks Spec.demoApi (Store.recentBlockNumbers 2)) 0)
            = t0 :: t1 :: t :: rest /\
            Store.blockNumber t = 1 /\ Store.index t = 1%nat)
    as (t0 & t1 & t & rest & Hl & H1 & Hi).
  { vm_compute. eauto 10. }
  assert (In t (Store.transactions
                  (Store.resultOf
                     (Store.collectBlocks Spec.demoApi
                        (Store.recentBlockNumbers 2)) 0))) as Hin.
  { rewrite Hl. right. right. now left. }
  destruct (listed_transaction_is_the_extrinsic_at_its_index Spec.demoApi 0 _ t
              eq_refl Hin)
    as (h & block & events & ext & _ & _ & _ & _ & Hhash & Hm & _).
  exists t, ext. split; [reflexivity|]. repeat split; assumption.
Defined.

Lemma buildTransaction_returns api bn bh ts events index ext :
  let own := filter (Store.appliesTo index) events in
  (exists f, Store.formatTxor (Store.calculateTransactionFee own api) 18
             = Returns f) ->
  (forall a, Store.amount (Store.detectTransferFromExtrinsic ext own api) = Some a ->
             a <> EmptyString -> exists r, Store.formatTxor a 18 = Returns r) ->
  exists t, Store.buildTransaction api bn bh ts events index ext = Returns t.
Proof.
  intros own [f Hf] Ha. unfold Store.buildTransaction. fold own.
  rewrite Hf. cbn [bind].
  destruct (Store.amount (Store.detectTransferFromExtrinsic ext own api))
    as [a|] eqn:E; cbn [bind]; [|eauto].
  destruct (a =? EmptyString)%string eqn:Ea; cbn [bind]; [eauto|].
  apply String.eqb_neq in Ea. destruct (Ha a eq_refl Ea) as [r Hr].
  rewrite Hr. cbn [bind]. eauto.
Qed.

Lemma forEachExtrinsic_all api bn bh ts events exts :
  forall index,
    (forall i ext, nth_error exts i = Some ext ->
       exists t, Store.buildTransaction api bn bh ts events (index + i) ext
                 = Returns t) ->
    let pushed :=
      Store.collectedTransactions
        (fst (Store.forEachExtrinsic api bn bh ts events index exts
                Spec.nothingCollected)) in
    map Store.txHash pushed = map (fun e => Chain.toHex (Chain.hash e)) exts /\
    map Store.index pushed = seq index (List.length exts).
Proof.
  induction exts as [|ext rest IH]; intros index Hall; [now split|].
  cbv zeta. cbn [Store.forEachExtrinsic].
  destruct (Hall 0%nat ext eq_refl) as [t Ht]. rewrite Nat.add_0_r in Ht.
  rewrite Ht, forEachExtrinsic_append.
  cbn [Spec.appendCollected Store.collectedTransactions Store.pushTransaction
         Spec.nothingCollected app map List.length seq].
  destruct (IH (S index)) as [IH1 IH2].
  { intros i e He. rewrite Nat.add_succ_l, <- Nat.add_succ_r. now apply (Hall (S i)). }
  cbv zeta in IH1, IH2. rewrite IH1, IH2.
  destruct (buildTransaction_fields _ _ _ _ _ _ _ _ Ht) as (-> & _ & _ & -> & _).
  now split.
Qed.

(** X10. a block whose fees and amounts format is listed completely. When
    the requests for a height settle, the block's timestamp call has its
    argument, and for each of its extrinsics the fee text and the transfer
    amount, if there is one, format, then the height yields its block record
    and one transaction for each extrinsic, in the order of the block and
    numbered from zero. *)
Theorem block_that_formats_is_listed_completely
    (api : Chain.ApiPromise) (n : Z) (h : Chain.Hash) (block : Chain.SignedBlock)
    (events : list Chain.EventRecord) (ts : option Store.Date) :
  Chain.getBlockHash api n = Returns h ->
  Chain.getBlock api h = Returns block ->
  Chain.eventsAt api h = Returns events ->
  Store.blockTimestampOf (Chain.extrinsics block) = Returns ts ->
  (forall i ext,
     nth_error (Chain.extrinsics block) i = Some ext ->
     (exists f,
        Store.formatTxor
          (Store.calculateTransactionFee (filter (Store.appliesTo i) events) api)
          18 = Returns f) /\
     (forall a,
        Store.amount
          (Store.detectTransferFromExtrinsic ext
             (filter (Store.appliesTo i) events) api) = Some a ->
        a <> EmptyString -> exists r, Store.formatTxor a 18 = Returns r)) ->
  let listed := Store.collectedTransactions (Spec.contributionOf api n) in
  map Store.txHash listed
  = map (fun e => Chain.toHex (Chain.hash e)) (Chain.extrinsics block) /\
  map Store.index listed = seq 0 (List.length (Chain.extrinsics block)) /\
  map Store.height (Store.collectedBlocks (Spec.contributionOf api n)) = [n].
Proof.
  intros Hh Hb He Hts Hall listed. subst listed.
  unfold Spec.contributionOf, Store.collectBlocks; simpl.
  unfold Store.fetchBlockHash. rewrite Hh. simpl. rewrite Hb, He. simpl.
  unfold Store.processBlock. rewrite Hts. simpl.
  rewrite forEachExtrinsic_blocks, forEachExtrinsic_append. simpl.
  destruct (forEachExtrinsic_all api n (Chain.toHex h) ts events
              (Chain.extrinsics block) 0) as [H1 H2].
  { intros i ext Hext. destruct (Hall i ext Hext) as [Hf Ha].
    now apply buildTransaction_returns. }
  cbv zeta in H1, H2. rewrite H1, H2. now repeat split.
Qed.

Lemma block_that_formats_is_listed_completely_witness :
  map Store.txHash (Store.collectedTransactions (Spec.contributionOf Spec.demoApi 1))
  = ["0x10"; "0xabcd"]%string.
Proof.
  refine (proj1 (block_that_formats_is_listed_completely Spec.demoApi 1 [Byte.x01]
                   {| Chain.extrinsics := [Spec.timestampSet; Spec.transferCall];
                      Chain.number := 1; Chain.jsonLength := 200 |}
                   _ _ eq_refl eq_refl eq_refl eq_refl _)).
  intros [|[|i]] ext Hext; simpl in Hext.
  - injection Hext as <-.
    split; [vm_compute; eauto | intros a Ha; vm_compute in Ha; discriminate].
  - injection Hext as <-.
    split; [vm_compute; eauto|]. intros a Ha. vm_compute in Ha.
    injection Ha as <-. intros _. vm_compute. eauto.
  - destruct i; discriminate.
Defined.

(** ** One block that fails *)

Lemma Returns_inj {A} (a b : A) : @Returns A a = Returns b -> a = b.
Proof. intros H. now injection H. Qed.






(** ** The search through the recent blocks *)

Lemma findIndex_first {A} (p : A -> bool) (l : list A) (i : nat) :
  Store.findIndex p l = Some i ->
  exists x,
    nth_error l i = Some x /\ p x = true /\
    forall j y, (j < i)%nat -> nth_error l j = Some y -> p y = false.
Proof.
  revert i. induction l as [|x l IH]; intros i; simpl; [discriminate|].
  destruct (p x) eqn:Hx.
  - intros [= <-]. exists x. repeat split; [exact Hx|]. intros j y Hj. lia.
  - destruct (Store.findIndex p l) as [k|]; [|discriminate]. simpl.
    intros [= <-]. destruct (IH k eq_refl) as (y & Hn & Hy & Hfirst).
    exists y. repeat split; [exact Hn | exact Hy |].
    intros [|j] z Hj; simpl; [now intros [= <-]|].
    apply Hfirst. lia.
Qed.

Lemma findIndex_none {A} (p : A -> bool) (l : list A) :
  Store.findIndex p l = None -> forall x, In x l -> p x = false.
Proof.
  induction l as [|x l IH]; simpl; [tauto|].
  destruct (p x) eqn:Hx; [discriminate|].
  destruct (Store.findIndex p l); [discriminate|].
  intros _ y [<- | Hy]; [exact Hx | now apply IH].
Qed.


Lemma buildDetails_fields api bn bh block events i ext d :
  Store.buildDetails api bn bh block events i ext = Returns d ->
  Store.detailHash d = Chain.toHex (Chain.hash ext) /\
  Store.detailBlockNumber d = bn /\
  Store.detailBlockHash d = Chain.toHex bh /\
  Store.detailIndex d = i /\
  Store.detailMethod d = Chain.method ext /\
  Store.detailSection d = Chain.section ext /\
  Store.detailSuccess d
  = negb (existsb (fun r => Chain.isExtrinsicFailed api (Chain.event r))
            (filter (Store.appliesTo i) events)) /\
  Store.error d
  = (if Store.detailSuccess d then None else Some "Transaction failed"%string).
Proof.
  unfold Store.buildDetails.
  destruct (Store.blockTimestampOf (Chain.extrinsics block)) as [ts|]; simpl;
    [|discriminate].
  destruct (Store.formatTxor _ 18) as [fee|]; simpl; [|discriminate].
  intros [= <-]. simpl. repeat split; reflexivity.
Qed.

Lemma searchBlock_found api sh nh n d :
  Store.searchBlock api sh nh n = Returns (Some d) ->
  exists h block events i ext,
    Chain.getBlockHash api n = Returns h /\
    Chain.getBlock api h = Returns block /\
    Chain.eventsAt api h = Returns events /\
    Store.findIndex
      (fun e => Store.hashMatches (Chain.toHex (Chain.hash e)) sh nh)
      (Chain.extrinsics block) = Some i /\
    nth_error (Chain.extrinsics block) i = Some ext /\
    Store.buildDetails api n h block events i ext = Returns d.
Proof.
  unfold Store.searchBlock.
  destruct (Chain.getBlockHash api n) as [h|] eqn:Hh; simpl; [|discriminate].
  destruct (Chain.getBlock api h) as [block|] eqn:Hb; simpl; [|discriminate].
  destruct (Chain.eventsAt api h) as [events|] eqn:He; simpl; [|discriminate].
  destruct (Store.findIndex _ (Chain.extrinsics block)) as [i|] eqn:Hi;
    [|discriminate].
  destruct (nth_error (Chain.extrinsics block) i) as [ext|] eqn:Hext;
    [|discriminate].
  destruct (Store.buildDetails api n h block events i ext) as [det|] eqn:Hd;
    simpl; [|discriminate].
  intros [= <-]. now exists h, block, events, i, ext.
Qed.


(** the loop from offset [start]: what it returns is the first hit from the
    newest height downwards, above zero *)
Lemma searchLoop_seq api sh nh latest :
  forall len start,
    match Store.searchLoop api sh nh latest (seq start len) with
    | Some d =>
        exists i, (start <= i < start + len)%nat /\
                  0 <= latest - Z.of_nat i /\
                  Store.searchBlock api sh nh (latest - Z.of_nat i)
                  = Returns (Some d) /\
                  forall j, (start <= j < i)%nat ->
                            forall d', Store.searchBlock api sh nh
                                         (latest - Z.of_nat j)
                                       <> Returns (Some d')
    | None =>
        forall i, (start <= i < start + len)%nat ->
                  0 <= latest - Z.of_nat i ->
                  forall d', Store.searchBlock api sh nh (latest - Z.of_nat i)
                             <> Returns (Some d')
    end.
Proof.
  induction len as [|len IH]; intros start.
  - simpl. intros i Hi. lia.
  - cbn [seq Store.searchLoop].
    destruct (latest - Z.of_nat start <? 0) eqn:Hneg.
    + intros i Hi H0. lia.
    + specialize (IH (S start)).
      destruct (Store.searchBlock api sh nh (latest - Z.of_nat start))
        as [[d|]|e] eqn:Hs.
      * exists start. split; [lia|]. split; [lia|]. split; [exact Hs|].
        intros j Hj. lia.
      * destruct (Store.searchLoop api sh nh latest (seq (S start) len)) as [d|].
        -- destruct IH as (i & Hi & H0 & Hfound & Hfirst).
           exists i. split; [lia|]. split; [lia|]. split; [exact Hfound|].
           intros j Hj d'. destruct (Nat.eq_dec j start) as [->|Hne].
           ++ rewrite Hs. discriminate.
           ++ apply Hfirst. lia.
        -- intros i Hi H0 d'. destruct (Nat.eq_dec i start) as [->|Hne].
           ++ rewrite Hs. discriminate.
           ++ apply IH; [lia | exact H0].
      * destruct (Store.searchLoop api sh nh latest (seq (S start) len)) as [d|].
        -- destruct IH as (i & Hi & H0 & Hfound & Hfirst).
           exists i. split; [lia|]. split; [lia|]. split; [exact Hfound|].
           intros j Hj d'. destruct (Nat.eq_dec j start) as [->|Hne].
           ++ rewrite Hs. discriminate.
           ++ apply Hfirst. lia.
        -- intros i Hi H0 d'. destruct (Nat.eq_dec i start) as [->|Hne].
           ++ rewrite Hs. discriminate.
           ++ apply IH; [lia | exact H0].
Qed.

Lemma search_unfold api sh nh :
  Store.performTransactionSearch api sh nh
  = match Chain.getFinalizedHead api with
    | Throws e => Throws e
    | Returns head =>
        match Chain.getBlock api head with
        | Throws e => Throws e
        | Returns finalizedBlock =>
            Returns (Store.searchLoop api sh nh (Chain.number finalizedBlock)
                       (seq 0 100))
        end
    end.
Proof.
  unfold Store.performTransactionSearch.
  destruct (Chain.getFinalizedHead api) as [head|]; [|reflexivity]. cbn [bind].
  destruct (Chain.getBlock api head); reflexivity.
Qed.

(** X11. what the search returns is an extrinsic of one of the hundred
    blocks below the finalized head, at a height that is not negative: the
    first extrinsic of its block whose hash the comparison accepts, reported
    with its own hash, height and index and with the failure flag of its
    events. *)
Theorem search_result_is_a_matching_extrinsic
    (api : Chain.ApiPromise) (searchHash normalizedHash : string)
    (d : Store.TransactionDetails) :
  Store.performTransactionSearch api searchHash normalizedHash
  = Returns (Some d) ->
  exists head finalizedBlock h block events ext,
    Chain.getFinalizedHead api = Returns head /\
    Chain.getBlock api head = Returns finalizedBlock /\
    0 <= Store.detailBlockNumber d /\
    Chain.number finalizedBlock - 99 <= Store.detailBlockNumber d
    <= Chain.number finalizedBlock /\
    Chain.getBlockHash api (Store.detailBlockNumber d) = Returns h /\
    Chain.getBlock api h = Returns block /\
    Chain.eventsAt api h = Returns events /\
    nth_error (Chain.extrinsics block) (Store.detailIndex d) = Some ext /\
    Store.detailHash d = Chain.toHex (Chain.hash ext) /\
    Store.detailBlockHash d = Chain.toHex h /\
    Store.hashMatches (Store.detailHash d) searchHash normalizedHash = true /\
    (forall j other,
       (j < Store.detailIndex d)%nat ->
       nth_error (Chain.extrinsics block) j = Some other ->
       Store.hashMatches (Chain.toHex (Chain.hash other)) searchHash normalizedHash
       = false) /\
    Store.detailSuccess d
    = negb (existsb (fun r => Chain.isExtrinsicFailed api (Chain.event r))
              (filter (Store.appliesTo (Store.detailIndex d)) events)) /\
    Store.error d
    = (if Store.detailSuccess d then None else Some "Transaction failed"%string).
Proof.
  rewrite search_unfold.
  destruct (Chain.getFinalizedHead api) as [head|] eqn:Hhead; [|discriminate].
  destruct (Chain.getBlock api head) as [fb|] eqn:Hfb; [|discriminate].
  intros Hloop. apply Returns_inj in Hloop.
  pose proof (searchLoop_seq api searchHash normalizedHash (Chain.number fb) 100 0)
    as Hseq.
  rewrite Hloop in Hseq. destruct Hseq as (i & Hi & H0 & Hfound & _).
  destruct (searchBlock_found _ _ _ _ _ Hfound)
    as (h & block & events & k & ext & Hh & Hb & He & Hk & Hext & Hd).
  destruct (buildDetails_fields _ _ _ _ _ _ _ _ Hd)
    as (Hhash & Hbn & Hbh & Hidx & _ & _ & Hsucc & Herr).
  destruct (findIndex_first _ _ _ Hk) as (x & Hx & Hmatch & Hfirst).
  assert (x = ext) as -> by congruence.
  exists head, fb, h, block, events, ext.
  rewrite Hbn, Hidx, Hhash.
  repeat split; try assumption; lia.
Qed.

Lemma search_result_is_a_matching_extrinsic_witness :
  exists d,
    Store.performTransactionSearch Spec.demoApi "0xabcd" "abcd" = Returns (Some d) /\
    Store.detailBlockNumber d = 2 /\
    Store.detailIndex d = 2%nat /\
    Store.hashMatches (Store.detailHash d) "0xabcd" "abcd" = true.
Proof.
  assert (exists d,
            Store.performTransactionSearch Spec.demoApi "0xabcd" "abcd"
            = Returns (Some d) /\
            Store.detailBlockNumber d = 2 /\ Store.detailIndex d = 2%nat)
    as (d & Hd & Hn & Hi).
  { vm_compute. eauto. }
  destruct (search_result_is_a_matching_extrinsic Spec.demoApi _ _ d Hd)
    as (head & fb & h & block & events & ext & H).
  exists d. repeat split; try assumption. apply H.
Defined.



Lemma trimStart_whitespace (pre s : string) :
  JsString.allChars JsString.isWhitespace pre = true ->
  JsString.trimStart (pre ++ s) = JsString.trimStart s.
Proof.
  induction pre as [|c pre IH]; simpl; [reflexivity|].
  intros H. apply andb_true_iff in H. destruct H as [Hc Hpre].
  rewrite Hc. now apply IH.
Qed.

Lemma trimEnd_whitespace (s post : string) :
  JsString.allChars JsString.isWhitespace post = true ->
  JsString.trimEnd (s ++ post) = JsString.trimEnd s.
Proof.
  intros H. unfold JsString.trimEnd. rewrite rev_append, trimStart_whitespace;
    [reflexivity|]. now rewrite allChars_rev.
Qed.

Lemma trimEnd_id (s : string) :
  JsString.allChars (fun c => negb (JsString.isWhitespace c)) s = true ->
  JsString.trimEnd s = s.
Proof.
  intros H. unfold JsString.trimEnd.
  rewrite trimStart_id; [apply rev_involutive|]. now rewrite allChars_rev.
Qed.

Lemma trim_surrounded (pre m post : string) :
  JsString.allChars JsString.isWhitespace pre = true ->
  JsString.allChars JsString.isWhitespace post = true ->
  JsString.allChars (fun c => negb (JsString.isWhitespace c)) m = true ->
  JsString.trim (pre ++ m ++ post) = m.
Proof.
  intros Hpre Hpost Hm. unfold JsString.trim.
  rewrite trimStart_whitespace by exact Hpre.
  destruct m as [|c m].
  - simpl. rewrite <- (append_nil_r post) at 1.
    rewrite trimStart_whitespace by exact Hpost. reflexivity.
  - simpl in Hm. apply andb_true_iff in Hm. destruct Hm as [Hc Hm].
    change ((String c m ++ post)%string) with (String c (m ++ post)).
    cbn [JsString.trimStart]. apply negb_true_iff in Hc. rewrite Hc.
    change (String c (m ++ post)) with ((String c m ++ post)%string).
    rewrite trimEnd_whitespace by exact Hpost.
    apply trimEnd_id. simpl. now rewrite Hc, Hm.
Qed.

Lemma findTransactionByHash_trim api (q q' : string) :
  JsString.trim q = JsString.trim q' ->
  Store.findTransactionByHash api q = Store.findTransactionByHash api q'.
Proof.
  intros H. unfold Store.findTransactionByHash. now rewrite H.
Qed.

(** X13. white space around the hash is not part of the query: a hash
    typed with blanks, tabs or line breaks before or after it is looked up
    as the hash alone. *)
Theorem lookup_ignores_surrounding_white_space
    (api : Chain.ApiPromise) (before after h : string) (withPrefix : bool) :
  JsString.allChars JsString.isWhitespace before = true ->
  JsString.allChars JsString.isWhitespace after = true ->
  Spec.isHexString h = true ->
  Store.findTransactionByHash api (before ++ Spec.supplied withPrefix h ++ after)
  = Store.findTransactionByHash api (Spec.supplied withPrefix h).
Proof.
  intros Hb Ha Hh. apply findTransactionByHash_trim.
  pose proof (supplied_not_whitespace withPrefix h Hh) as Hm.
  rewrite (trim_surrounded _ _ _ Hb Ha Hm). symmetry. now apply trim_id.
Qed.

Lemma lookup_ignores_surrounding_white_space_witness :
  Store.findTransactionByHash Spec.demoApi "  0xabcd "
  = Store.findTransactionByHash Spec.demoApi "0xabcd".
Proof.
  exact (lookup_ignores_surrounding_white_space Spec.demoApi "  " " " "abcd" true
           eq_refl eq_refl eq_refl).
Defined.

(** ** The earlier fetcher *)

Lemma mapWithIndex_length {A B} (f : nat -> A -> B) (l : list A) :
  forall index, List.length (Store.mapWithIndex f index l) = List.length l.
Proof.
  induction l as [|x l IH]; intros index; simpl; [reflexivity|]. now rewrite IH.
Qed.

Lemma mapWithIndex_In {A B} (f : nat -> A -> B) (l : list A) :
  forall index y,
    In y (Store.mapWithIndex f index l) ->
    exists i x, (i < List.length l)%nat /\ nth_error l i = Some x /\
                y = f (index + i)%nat x.
Proof.
  induction l as [|x l IH]; intros index y; simpl; [tauto|].
  intros [<- | H].
  - exists 0%nat, x. rewrite Nat.add_0_r. repeat split. lia.
  - destruct (IH (S index) y H) as (i & z & Hi & Hz & ->).
    exists (S i), z. rewrite Nat.add_succ_r. repeat split; [lia | exact Hz].
Qed.

Lemma collectPlainBlocks_flat_map api (ns : list Z) :
  forall blocks transactions,
    Store.collectPlainBlocks api ns blocks transactions
    = ((blocks ++ flat_map (Spec.plainBlocksOf api) ns)%list,
       (transactions ++ flat_map (Spec.plainTransactionsOf api) ns)%list).
Proof.
  induction ns as [|n ns IH]; intros blocks transactions; simpl.
  - now rewrite !app_nil_r.
  - unfold Spec.plainBlocksOf at 1, Spec.plainTransactionsOf at 1.
    destruct (Store.fetchPlainBlock api n) as [[b pushed]|]; rewrite IH; simpl.
    + now rewrite <- !app_assoc.
    + reflexivity.
Qed.

Lemma fetchPlainBlock_shape api n b pushed :
  Store.fetchPlainBlock api n = Returns (b, pushed) ->
  exists h block ts,
    Chain.getBlockHash api n = Returns h /\
    Chain.getBlock api h = Returns block /\
    Store.blockTimestampOf (Chain.extrinsics block) = Returns ts /\
    Store.height b = n /\
    Store.blockHashHex b = Chain.toHex h /\
    Store.txCount b = List.length (Chain.extrinsics block) /\
    pushed
    = Store.mapWithIndex (Store.plainTransactionOf n (Chain.toHex h) ts) 0
        (firstn 10 (Chain.extrinsics block)).
Proof.
  unfold Store.fetchPlainBlock.
  destruct (Chain.getBlockHash api n) as [h|] eqn:Hh; simpl; [|discriminate].
  destruct (Chain.getBlock api h) as [block|] eqn:Hb; simpl; [|discriminate].
  destruct (Store.blockTimestampOf (Chain.extrinsics block)) as [ts|] eqn:Hts;
    simpl; [|discriminate].
  intros [= <- <-]. exists h, block, ts. repeat split; assumption.
Qed.

Lemma plainTransactionsOf_le_ten api n :
  (List.length (Spec.plainTransactionsOf api n) <= 10)%nat.
Proof.
  unfold Spec.plainTransactionsOf.
  destruct (Store.fetchPlainBlock api n) as [[b pushed]|] eqn:E; [|simpl; lia].
  destruct (fetchPlainBlock_shape api n b pushed E) as (h & block & ts & H).
  destruct H as (_ & _ & _ & _ & _ & _ & ->).
  rewrite mapWithIndex_length. apply firstn_le_length.
Qed.

Lemma plainTransactionsOf_key api n t :
  In t (Spec.plainTransactionsOf api n) -> Store.plainBlockNumber t = n.
Proof.
  unfold Spec.plainTransactionsOf.
  destruct (Store.fetchPlainBlock api n) as [[b pushed]|] eqn:E; [|intros []].
  destruct (fetchPlainBlock_shape api n b pushed E) as (h & block & ts & H).
  destruct H as (_ & _ & _ & _ & _ & _ & ->).
  intros Ht. apply mapWithIndex_In in Ht. destruct Ht as (i & x & _ & _ & ->).
  reflexivity.
Qed.

Lemma plainBlocksOf_key api n b :
  In b (Spec.plainBlocksOf api n) -> Store.height b = n.
Proof.
  unfold Spec.plainBlocksOf.
  destruct (Store.fetchPlainBlock api n) as [[b' pushed]|] eqn:E; [|intros []].
  destruct (fetchPlainBlock_shape api n b' pushed E) as (h & block & ts & H).
  intros [<- | []]. apply H.
Qed.

Lemma flat_map_length_le {A} (f : Z -> list A) (k : nat) (ns : list Z) :
  (forall n, (List.length (f n) <= k)%nat) ->
  (List.length (flat_map f ns) <= k * List.length ns)%nat.
Proof.
  intros H. induction ns as [|n ns IH]; simpl; [lia|].
  rewrite length_app. specialize (H n). lia.
Qed.

Lemma filter_flat_map_key {A} (key : A -> Z) (f : Z -> list A) (n : Z) (ns : list Z) :
  (forall m x, In x (f m) -> key x = m) ->
  StronglySorted Z.gt ns ->
  (List.length (filter (fun x => Z.eqb (key x) n) (flat_map f ns))
   <= List.length (f n))%nat.
Proof.
  intros Hkey H. induction H as [|m ns Hs IH Hm]; simpl; [lia|].
  rewrite filter_app, length_app.
  destruct (Z.eq_dec m n) as [->|Hne].
  - assert (filter (fun x => Z.eqb (key x) n) (flat_map f ns) = []) as ->.
    { apply filter_none. intros x Hx. apply in_flat_map in Hx.
      destruct Hx as [k [Hk Hx]]. rewrite (Hkey k x Hx).
      rewrite Forall_forall in Hm. specialize (Hm k Hk). lia. }
    simpl. rewrite Nat.add_0_r. apply filter_length_le.
  - assert (filter (fun x => Z.eqb (key x) n) (f m) = []) as ->.
    { apply filter_none. intros x Hx. rewrite (Hkey m x Hx). lia. }
    simpl. exact IH.
Qed.

Lemma plainBlockNumbers_descending (latest : Z) :
  StronglySorted Z.gt (Store.plainBlockNumbers latest) /\
  List.length (Store.plainBlockNumbers latest) = 5%nat /\
  forall n, In n (Store.plainBlockNumbers latest) -> latest - 4 <= n <= latest.
Proof.
  unfold Store.plainBlockNumbers. split; [|split].
  - cbn [seq map].
    repeat (constructor; [|repeat (constructor; [lia|]); constructor]).
    constructor.
  - now rewrite length_map, length_seq.
  - intros n Hn. apply in_map_iff in Hn. destruct Hn as [i [<- Hi]].
    apply in_seq in Hi. lia.
Qed.

Lemma plain_unfold api now :
  Store.fetchTransactionDataWithTimeout api now
  = match Chain.getFinalizedHead api with
    | Throws e => Throws e
    | Returns head =>
        match Chain.getBlock api head with
        | Throws e => Throws e
        | Returns finalizedBlock =>
            let ns := Store.plainBlockNumbers (Chain.number finalizedBlock) in
            Returns
              {| Store.plainTransactions :=
                   firstn 50 (flat_map (Spec.plainTransactionsOf api) ns);
                 Store.plainBlocks := flat_map (Spec.plainBlocksOf api) ns;
                 Store.plainLastUpdated := now |}
        end
    end.
Proof.
  unfold Store.fetchTransactionDataWithTimeout.
  destruct (Chain.getFinalizedHead api) as [head|]; [|reflexivity]. cbn [bind].
  destruct (Chain.getBlock api head) as [fb|]; [|reflexivity]. cbn [bind].
  now rewrite collectPlainBlocks_flat_map.
Qed.

(** X14. the earlier fetcher, [fetchTransactionDataWithTimeout]. It
    rejects exactly when the finalized head or its block cannot be read.
    Otherwise it lists at most five blocks, at strictly decreasing heights
    from the finalized one, and at most the first ten extrinsics of each, so
    never more than fifty transactions: its limit of fifty drops nothing.
    Every transaction is reported as successful, with fee "0", as no
    transfer and without events, and its block is listed. *)
Theorem earlier_fetcher_lists_ten_per_block (api : Chain.ApiPromise) (now : Z) :
  ((exists e, Store.fetchTransactionDataWithTimeout api now = Throws e)
   <-> (exists e, Chain.getFinalizedHead api = Throws e) \/
       (exists head e, Chain.getFinalizedHead api = Returns head /\
                       Chain.getBlock api head = Throws e)) /\
  (forall d,
     Store.fetchTransactionDataWithTimeout api now = Returns d ->
     (List.length (Store.plainBlocks d) <= 5)%nat /\
     StronglySorted Z.gt (map Store.height (Store.plainBlocks d)) /\
     (List.length (Store.plainTransactions d) <= 50)%nat /\
     (forall head finalizedBlock,
        Chain.getFinalizedHead api = Returns head ->
        Chain.getBlock api head = Returns finalizedBlock ->
        Store.plainTransactions d
        = flat_map (Spec.plainTransactionsOf api)
            (Store.plainBlockNumbers (Chain.number finalizedBlock)) /\
        forall b, In b (Store.plainBlocks d) ->
                  Chain.number finalizedBlock - 4 <= Store.height b
                  <= Chain.number finalizedBlock) /\
     (forall n,
        (List.length
           (filter (fun t => Z.eqb (Store.plainBlockNumber t) n)
              (Store.plainTransactions d)) <= 10)%nat) /\
     (forall t, In t (Store.plainTransactions d) ->
        Store.plainSuccess t = true /\
        Store.plainFee t = "0"%string /\
        Store.plainIsTransfer t = false /\
        Store.plainEvents t = [] /\
        exists b, In b (Store.plainBlocks d) /\
                  Store.height b = Store.plainBlockNumber t /\
                  Store.blockHashHex b = Store.plainBlockHash t /\
                  (Store.plainIndex t < Store.txCount b)%nat /\
                  (Store.plainIndex t < 10)%nat)).
Proof.
  rewrite plain_unfold. split.
  - destruct (Chain.getFinalizedHead api) as [head|e] eqn:Hhead.
    + destruct (Chain.getBlock api head) as [fb|e] eqn:Hfb.
      * split; [intros [e [=]]|].
        intros [[e [=]] | (head' & e & [= <-] & H)]. congruence.
      * split; [intros _; right; now exists head, e | intros _; now exists e].
    + split; [intros _; left; now exists e | intros _; now exists e].
  - intros d.
    destruct (Chain.getFinalizedHead api) as [head|e] eqn:Hhead; [|discriminate].
    destruct (Chain.getBlock api head) as [fb|e] eqn:Hfb; [|discriminate].
    cbv zeta. intros Hd.
    destruct (plainBlockNumbers_descending (Chain.number fb))
      as (Hsorted & Hlen & Hrange).
    set (ns := Store.plainBlockNumbers (Chain.number fb)) in *.
    assert (d = {| Store.plainTransactions :=
                     firstn 50 (flat_map (Spec.plainTransactionsOf api) ns);
                   Store.plainBlocks := flat_map (Spec.plainBlocksOf api) ns;
                   Store.plainLastUpdated := now |}) as -> by congruence.
    clear Hd. cbn [Store.plainBlocks Store.plainTransactions].
    assert (List.length (flat_map (Spec.plainTransactionsOf api) ns) <= 50)%nat
      as Hfifty.
    { pose proof (flat_map_length_le (Spec.plainTransactionsOf api) 10 ns
                    (plainTransactionsOf_le_ten api)). lia. }
    assert (firstn 50 (flat_map (Spec.plainTransactionsOf api) ns)
            = flat_map (Spec.plainTransactionsOf api) ns) as Hall.
    { now apply firstn_all2. }
    rewrite Hall.
    destruct (flat_map_descending Store.height (Spec.plainBlocksOf api) ns)
      as [Hdesc Hle].
    { intros n. unfold Spec.plainBlocksOf.
      destruct (Store.fetchPlainBlock api n) as [[b p]|]; simpl; lia. }
    { intros n b. apply plainBlocksOf_key. }
    { exact Hsorted. }
    split; [lia|]. split; [exact Hdesc|]. split; [exact Hfifty|].
    split; [|split].
    + intros head' fb' [= <-] Hfb'. rewrite Hfb in Hfb'.
      injection Hfb' as <-. fold ns. split; [reflexivity|].
      intros b Hb. apply in_flat_map in Hb. destruct Hb as [n [Hn Hb]].
      rewrite (plainBlocksOf_key api n b Hb). now apply Hrange.
    + intros n.
      etransitivity;
        [apply (filter_flat_map_key Store.plainBlockNumber
                  (Spec.plainTransactionsOf api) n ns)|].
      * intros m t. apply plainTransactionsOf_key.
      * exact Hsorted.
      * apply plainTransactionsOf_le_ten.
    + intros t Ht. apply in_flat_map in Ht. destruct Ht as [n [Hn Ht]].
      unfold Spec.plainTransactionsOf in Ht.
      destruct (Store.fetchPlainBlock api n) as [[b pushed]|] eqn:E; [|destruct Ht].
      destruct (fetchPlainBlock_shape api n b pushed E)
        as (h & block & ts & _ & _ & _ & Hh & Hhex & Hcount & ->).
      apply mapWithIndex_In in Ht. destruct Ht as (i & x & Hi & Hx & ->).
      cbn [Store.plainSuccess Store.plainFee Store.plainIsTransfer
             Store.plainEvents Store.plainBlockNumber Store.plainBlockHash
             Store.plainIndex Store.plainTransactionOf].
      split; [reflexivity|]. split; [reflexivity|]. split; [reflexivity|].
      split; [reflexivity|]. exists b. split.
      * apply in_flat_map. exists n. split; [exact Hn|].
        unfold Spec.plainBlocksOf. rewrite E. now left.
      * rewrite Hh, Hhex, Hcount. rewrite length_firstn in Hi.
        split; [reflexivity|]. split; [reflexivity|]. split; lia.
Qed.

Lemma earlier_fetcher_lists_ten_per_block_witness :
  exists d,
    Store.fetchTransactionDataWithTimeout Spec.demoApi 0 = Returns d /\
    map Store.height (Store.plainBlocks d) = [2; 1; 0] /\
    (List.length (Store.plainTransactions d) <= 50)%nat.
Proof.
  eexists. split; [reflexivity|]. split; [vm_compute; reflexivity|].
  exact (proj1 (proj2 (proj2 (proj2 (earlier_fetcher_lists_ten_per_block
                                       Spec.demoApi 0) _ eq_refl)))).
Defined.

(** ** What the runs of the connection manager keep *)

Section ConnectionRuns.
Import ConnectionManager.

Lemma closeProvider_open (id : ProviderId) (ps : list Provider) :
  (forall p, In p (filter (fun p => negb (closed p)) ps) -> providerId p = id) ->
  filter (fun p => negb (closed p)) (closeProvider id ps) = [].
Proof.
  induction ps as [|p ps IH]; simpl; [reflexivity|]. intros H.
  destruct (closed p) eqn:Hc; simpl in H.
  - destruct (Nat.eqb (providerId p) id); simpl; rewrite ?Hc; simpl; now apply IH.
  - rewrite (H p (or_introl eq_refl)), Nat.eqb_refl. simpl.
    apply IH. intros q Hq. apply H. now right.
Qed.

Lemma closeProvider_keeps (id : ProviderId) (ps : list Provider) (q : Provider) :
  In q (closeProvider id ps) ->
  exists p, In p ps /\ providerId q = providerId p /\ listening q = listening p.
Proof.
  unfold closeProvider. intros H. apply in_map_iff in H.
  destruct H as [p [<- Hp]]. exists p. split; [exact Hp|].
  now destruct (Nat.eqb (providerId p) id).
Qed.

Lemma cleanupConnection_closes (s : State) :
  eventListeners s = [] -> currentApi s = None -> oneSocket s ->
  openProviders (cleanupConnection s) = [] /\
  currentProvider (cleanupConnection s) = None /\
  forall q, In q (providers (cleanupConnection s)) ->
            exists p, In p (providers s) /\ providerId q = providerId p /\
                      listening q = listening p.
Proof.
  intros Hl Ha [_ Hone]. unfold cleanupConnection, openProviders in *. cbn.
  rewrite Hl, Ha. cbn. destruct (currentProvider s) as [id|] eqn:Hcp; cbn.
  - split; [|split; [reflexivity | apply closeProvider_keeps]].
    apply closeProvider_open. intros p Hp. specialize (Hone p Hp). congruence.
  - split; [|split; [reflexivity | intros q Hq; now exists q]].
    destruct (filter (fun p => negb (closed p)) (providers s)) as [|p rest];
      [reflexivity|].
    specialize (Hone p (or_introl eq_refl)). discriminate.
Qed.

Lemma scheduleReconnect_backoff (s : State) :
  backoffInRange s -> backoffInRange (scheduleReconnect s).
Proof.
  unfold backoffInRange, scheduleReconnect, INITIAL_RETRY_DELAY, MAX_RETRY_DELAY.
  intros [Hd Ht].
  destruct (reconnectTimeout s) as [d|] eqn:E; [now rewrite E|].
  destruct (MAX_RETRIES <=? _); [now rewrite E|]. cbn.
  split; [lia|]. intros delay [= <-]. lia.
Qed.

Lemma scheduleReconnect_frame (s : State) :
  providers (scheduleReconnect s) = providers s /\
  currentProvider (scheduleReconnect s) = currentProvider s /\
  attempts (scheduleReconnect s) = attempts s /\
  healthChecks (scheduleReconnect s) = healthChecks s /\
  nextId (scheduleReconnect s) = nextId s /\
  eventListeners (scheduleReconnect s) = eventListeners s /\
  currentApi (scheduleReconnect s) = currentApi s.
Proof.
  unfold scheduleReconnect.
  destruct (reconnectTimeout s); [repeat split|].
  destruct (MAX_RETRIES <=? _); repeat split.
Qed.

(** a step that leaves the environment and the handles alone *)
Lemma wellFormed_frame (s s' : State) :
  providers s' = providers s -> currentProvider s' = currentProvider s ->
  attempts s' = attempts s -> healthChecks s' = healthChecks s ->
  nextId s' = nextId s ->
  eventListeners s' = eventListeners s -> currentApi s' = currentApi s ->
  backoffInRange s' ->
  wellFormed s -> wellFormed s'.
Proof.
  unfold wellFormed, allListening, oneSocket, idsAreFresh, openProviders.
  intros -> -> -> -> -> -> -> Hb (Hl & Ha & Hon & Ho & Hi & _).
  split; [exact Hl|]. split; [exact Ha|]. split; [exact Hon|].
  split; [exact Ho|]. split; [exact Hi | exact Hb].
Qed.

Lemma wellFormed_scheduleReconnect (s : State) :
  wellFormed s -> wellFormed (scheduleReconnect s).
Proof.
  intros H.
  destruct (scheduleReconnect_frame s) as (H1 & H2 & H3 & H4 & H5 & H6 & H7).
  apply (wellFormed_frame s); try assumption.
  apply scheduleReconnect_backoff, H.
Qed.

(** the loop of [connect], entered after a cleanup *)
Lemma wellFormed_connectLoop eps start i (s : State) :
  wellFormed s -> openProviders s = [] -> currentProvider s = None ->
  wellFormed (connectLoop eps start i s).
Proof.
  intros H Hopen Hcp. unfold connectLoop.
  destruct (Nat.ltb i (List.length eps)).
  - destruct H as (Hl & Ha & Hon & _ & (Hat & Hpr & Hhc) & Hb).
    unfold wellFormed, allListening, oneSocket, idsAreFresh, openProviders,
      createProvider in *.
    cbn. rewrite filter_app, Hopen. cbn.
    split; [exact Hl|]. split; [exact Ha|]. split; [|split; [|split; [|exact Hb]]].
    + intros p Hin. apply in_app_iff in Hin.
      destruct Hin as [Hin | [<- | []]]; [now apply Hon | reflexivity].
    + split; [lia|]. intros p [<- | []]. reflexivity.
    + split; [|split].
      * intros a Hin. apply in_app_iff in Hin. destruct Hin as [Hin | [<- | []]].
        -- specialize (Hat a Hin). lia.
        -- cbn. lia.
      * intros p Hin. apply in_app_iff in Hin. destruct Hin as [Hin | [<- | []]].
        -- specialize (Hpr p Hin). lia.
        -- cbn. lia.
      * intros h Hin. specialize (Hhc h Hin). lia.
  - apply wellFormed_scheduleReconnect.
    apply (wellFormed_frame s); try reflexivity; [apply H | exact H].
Qed.

Lemma wellFormed_cleanupConnection (s : State) :
  wellFormed s ->
  wellFormed (cleanupConnection s) /\
  openProviders (cleanupConnection s) = [] /\
  currentProvider (cleanupConnection s) = None.
Proof.
  intros (Hl & Ha & Hon & Ho & (Hat & Hpr & Hhc) & [Hd Ht]).
  destruct (cleanupConnection_closes s Hl Ha Ho) as (Hopen & Hcp & Hkeeps).
  split; [|split; assumption].
  unfold wellFormed, allListening, oneSocket, idsAreFresh, backoffInRange.
  rewrite Hopen, Hcp.
  split; [reflexivity|]. split; [reflexivity|]. split; [|split; [|split]].
  - intros q Hq. destruct (Hkeeps q Hq) as (p & Hp & _ & ->). now apply Hon.
  - split; [simpl; lia | intros p []].
  - split; [exact Hat|]. split; [|exact Hhc].
    intros q Hq. destruct (Hkeeps q Hq) as (p & Hp & -> & _). now apply Hpr.
  - split; [exact Hd | discriminate].
Qed.

Lemma wellFormed_connect endpoint (s : State) :
  wellFormed s -> wellFormed (connect endpoint s).
Proof.
  intros H. unfold connect.
  destruct (Status_eqb (status (apiState s)) connecting); [exact H|].
  set (s1 := withApiState _ (setLoading true s)).
  assert (wellFormed s1) as H1.
  { apply (wellFormed_frame s); try reflexivity; [apply H | exact H]. }
  destruct (wellFormed_cleanupConnection s1 H1) as (H2 & Hopen & Hcp).
  destruct (truthy endpoint); now apply wellFormed_connectLoop.
Qed.

Lemma wellFormed_disconnect (s : State) :
  wellFormed s -> wellFormed (disconnect s).
Proof.
  intros H. unfold disconnect.
  destruct (wellFormed_cleanupConnection s H) as (H2 & _).
  apply (wellFormed_frame (cleanupConnection s)); try reflexivity;
    [apply H2 | exact H2].
Qed.

Lemma wellFormed_attemptSettles provider outcome (s : State) :
  wellFormed s -> wellFormed (attemptSettles provider outcome s).
Proof.
  intros H. unfold attemptSettles.
  destruct (find (isAttemptOf provider) (attempts s)) as [a|]; [|exact H].
  set (s1 := setEnvironment _ _ _ _ s).
  assert (wellFormed s1) as H1.
  { destruct H as (Hl & Ha & Hon & Ho & (Hat & Hpr & Hhc) & Hb).
    unfold wellFormed, allListening, oneSocket, idsAreFresh, openProviders in *.
    cbn.
    split; [exact Hl|]. split; [exact Ha|]. split; [exact Hon|].
    split; [exact Ho|]. split; [|exact Hb]. split; [|split; [exact Hpr | exact Hhc]].
    intros b Hb'. apply filter_In in Hb'. now apply Hat. }
  destruct outcome as [now|message].
  - assert (backoffInRange
              (setLoading false
                 (setRetry (endpointIndex a) INITIAL_RETRY_DELAY
                    (setupHealthMonitoring
                       (withApiState (setConnected (targetEndpoint a) now)
                          (setApi (Some provider) s1)))))) as Hb.
    { destruct H1 as (_ & _ & _ & _ & _ & [_ Ht]).
      unfold backoffInRange, setupHealthMonitoring,
        INITIAL_RETRY_DELAY, MAX_RETRY_DELAY in *. cbn.
      destruct (healthCheckInterval s); cbn; (split; [lia | exact Ht]). }
    apply (wellFormed_frame s1); try exact Hb; try exact H1;
      unfold setupHealthMonitoring; cbn; destruct (healthCheckInterval s);
      reflexivity.
  - set (s2 := withApiState (setLastError (Some message)) s1).
    assert (wellFormed s2) as H2.
    { apply (wellFormed_frame s1); try reflexivity; [apply H1 | exact H1]. }
    destruct (wellFormed_cleanupConnection s2 H2) as (H3 & Hopen & Hcp).
    now apply wellFormed_connectLoop.
Qed.

Lemma wellFormed_providerEmits provider e (s : State) :
  wellFormed s -> wellFormed (providerEmits provider e s).
Proof.
  intros H. unfold providerEmits.
  destruct (isListening provider s); [|exact H].
  destruct e; try apply wellFormed_scheduleReconnect;
    (apply (wellFormed_frame s); try reflexivity; [apply H | exact H]).
Qed.

Lemma wellFormed_healthTick (s : State) :
  wellFormed s -> wellFormed (healthTick s).
Proof.
  intros H. unfold healthTick.
  destruct (healthCheckInterval s), (api s); try exact H.
  destruct (_ || _); [|exact H].
  destruct H as (Hl & Ha & Hon & Ho & (Hat & Hpr & Hhc) & Hb).
  unfold wellFormed, allListening, oneSocket, idsAreFresh, openProviders in *. cbn.
  split; [exact Hl|]. split; [exact Ha|]. split; [exact Hon|].
  split; [exact Ho|]. split; [|exact Hb]. split; [|split].
  - intros a Hin. specialize (Hat a Hin). lia.
  - intros q Hin. specialize (Hpr q Hin). lia.
  - intros h Hin. apply in_app_iff in Hin. destruct Hin as [Hin | [<- | []]].
    + specialize (Hhc h Hin). lia.
    + cbn. lia.
Qed.

Lemma wellFormed_healthCheckSettles check outcome (s : State) :
  wellFormed s -> wellFormed (healthCheckSettles check outcome s).
Proof.
  intros H. unfold healthCheckSettles.
  destruct (find _ (healthChecks s)) as [h|]; [|exact H].
  set (s1 := setEnvironment _ _ _ _ s).
  assert (wellFormed s1) as H1.
  { destruct H as (Hl & Ha & Hon & Ho & (Hat & Hpr & Hhc) & Hb).
    unfold wellFormed, allListening, oneSocket, idsAreFresh, openProviders in *.
    cbn.
    split; [exact Hl|]. split; [exact Ha|]. split; [exact Hon|].
    split; [exact Ho|]. split; [|exact Hb]. split; [exact Hat|]. split; [exact Hpr|].
    intros k Hk. apply filter_In in Hk. now apply Hhc. }
  destruct outcome as [elapsed|message].
  - destruct (MAX_LATENCY <? elapsed), (Status_eqb (seenStatus h) degraded);
      (apply (wellFormed_frame s1); try reflexivity; [apply H1 | exact H1]).
  - apply wellFormed_scheduleReconnect.
    apply (wellFormed_frame s1); try reflexivity; [apply H1 | exact H1].
Qed.

Lemma wellFormed_reconnectFires (s : State) :
  wellFormed s -> wellFormed (reconnectFires s).
Proof.
  intros H. unfold reconnectFires.
  destruct (reconnectTimeout s) eqn:E; [|exact H].
  apply wellFormed_connect.
  apply (wellFormed_frame s); try reflexivity; [|exact H].
  destruct H as (_ & _ & _ & _ & _ & [Hd _]).
  split; [exact Hd | discriminate].
Qed.

Lemma wellFormed_step (e : Event) (s : State) :
  wellFormed s -> wellFormed (step e s).
Proof.
  destruct e; simpl.
  - apply wellFormed_connect.
  - apply wellFormed_attemptSettles.
  - apply wellFormed_providerEmits.
  - apply wellFormed_healthTick.
  - apply wellFormed_healthCheckSettles.
  - apply wellFormed_reconnectFires.
  - apply wellFormed_disconnect.
Qed.

Lemma wellFormed_initialState : wellFormed initialState.
Proof.
  unfold wellFormed, allListening, oneSocket, idsAreFresh, backoffInRange,
    openProviders, INITIAL_RETRY_DELAY, MAX_RETRY_DELAY. cbn.
  repeat split; try tauto; try lia; try discriminate.
Qed.

Lemma wellFormed_run (trace : list Event) :
  forall s, wellFormed s -> wellFormed (run trace s).
Proof.
  induction trace as [|e trace IH]; intros s H; [exact H|].
  simpl. apply IH, wellFormed_step, H.
Qed.

Lemma wellFormed_reachable (trace : list Event) :
  wellFormed (run trace initialState).
Proof. apply wellFormed_run, wellFormed_initialState. Qed.

(** X15. the store never has two sockets. After any sequence of calls,
    provider events, health checks and timer firings, at most one provider
    that the store created has not been told to disconnect, and it is the one
    held in [currentProvider]. *)
Theorem at_most_one_provider_is_open (trace : list Event) :
  let s := run trace initialState in
  (List.length (openProviders s) <= 1)%nat /\
  (forall p, In p (openProviders s) -> currentProvider s = Some (providerId p)) /\
  (currentProvider s = None -> openProviders s = []).
Proof.
  intros s. destruct (wellFormed_reachable trace) as (_ & _ & _ & [Hlen Hcur] & _).
  fold s in Hlen, Hcur. split; [exact Hlen|]. split; [exact Hcur|].
  intros Hnone. destruct (openProviders s) as [|p rest]; [reflexivity|].
  specialize (Hcur p (or_introl eq_refl)). congruence.
Qed.

(** X16. the backoff stays in its range. After any run the delay of the
    next reconnect is between 2000 and 30000 ms, and so is the delay of a
    reconnect timer that is armed. *)
Theorem backoff_delay_stays_in_range (trace : list Event) :
  let s := run trace initialState in
  INITIAL_RETRY_DELAY <= retryDelay s <= MAX_RETRY_DELAY /\
  forall delay, reconnectTimeout s = Some delay ->
                INITIAL_RETRY_DELAY <= delay <= MAX_RETRY_DELAY.
Proof.
  intros s. now destruct (wellFormed_reachable trace) as (_ & _ & _ & _ & _ & H).
Qed.

(** X17. no handler is ever taken off a provider. In every run the
    registry of cleanup functions stays empty and [currentApi] stays null, so
    [cleanupConnection] detaches nothing and disconnects no client; every
    provider that was ever created, closed or not, still has its three
    handlers and reacts to what the socket emits. *)
Theorem provider_handlers_are_never_removed (trace : list Event) :
  let s := run trace initialState in
  eventListeners s = [] /\
  currentApi s = None /\
  (forall p, In p (providers s) -> listening p = true) /\
  (forall p, In p (providers s) -> isListening (providerId p) s = true).
Proof.
  intros s. destruct (wellFormed_reachable trace) as (Hl & Ha & Hon & _).
  fold s in Hl, Ha, Hon. split; [exact Hl|]. split; [exact Ha|].
  split; [exact Hon|].
  intros p Hp. unfold isListening. apply existsb_exists. exists p.
  split; [exact Hp|]. now rewrite Nat.eqb_refl, (Hon p Hp).
Qed.

End ConnectionRuns.

(** ** Calls of [connect] and [reconnect], and the health check *)

Section ConnectionCalls.
Import ConnectionManager.

Lemma Status_eqb_eq (a b : Status) : Status_eqb a b = true <-> a = b.
Proof. destruct a, b; simpl; split; congruence. Qed.

Lemma connect_starts endpoint (s : State) :
  status (apiState s) <> connecting ->
  let c := connect endpoint s in
  attempts c = (attempts s ++ [firstAttempt endpoint s])%list /\
  providers c
  = (providers (cleanupConnection s) ++ [firstProvider endpoint s])%list /\
  currentProvider c = Some (nextId s) /\
  nextId c = S (nextId s) /\
  apiState c
  = setConnectionAttempts (connectionAttempts (apiState s) + 1)
      (setStatus connecting (apiState s)) /\
  api c = api s /\
  isLoading c = true /\
  healthCheckInterval c = None /\
  reconnectTimeout c = None /\
  retryDelay c = retryDelay s /\
  healthChecks c = healthChecks s /\
  eventListeners c = [] /\
  currentApi c = None.
Proof.
  intros Hs c. subst c. unfold connect.
  destruct (Status_eqb (status (apiState s)) connecting) eqn:E.
  - apply Status_eqb_eq in E. contradiction.
  - unfold firstProvider, firstTarget, firstAttempt.
    destruct (truthy endpoint) as [e|]; unfold connectLoop; cbn;
      repeat split; try reflexivity.
Qed.

Lemma find_fresh (id : ProviderId) (old : list Attempt) (a : Attempt) :
  (forall b, In b old -> (attemptProvider b < id)%nat) ->
  attemptProvider a = id ->
  find (isAttemptOf id) (old ++ [a]) = Some a /\
  filter (fun b => negb (isAttemptOf id b)) (old ++ [a]) = old.
Proof.
  intros Hold Ha. induction old as [|b old IH]; simpl.
  - unfold isAttemptOf. rewrite Ha, Nat.eqb_refl. now split.
  - assert (isAttemptOf id b = false) as Hb.
    { unfold isAttemptOf. apply Nat.eqb_neq.
      specialize (Hold b (or_introl eq_refl)). lia. }
    rewrite Hb. simpl. destruct IH as [IH1 IH2].
    + intros x Hx. apply Hold. now right.
    + now rewrite IH1, IH2.
Qed.

Lemma firstTarget_cases endpoint (s : State) :
  firstTarget endpoint s
  = match truthy endpoint with
    | Some e => e
    | None => "wss://node01.xorion.network"%string
    end.
Proof.
  unfold firstTarget, firstAttempt. now destruct (truthy endpoint).
Qed.

(** X18. a call of [connect] whose attempt succeeds. From any state that
    a run reaches and that is not connecting, the call and the success of its
    attempt leave the store connected to the endpoint that was tried, with
    the new client, the loading flag off, the health check armed, no
    reconnect timer, the backoff delay back at its initial value and the
    attempt counter one higher; the only open provider is the new one. *)
Theorem connect_then_success_connects
    (trace : list Event) (endpoint : option string) (now : Z) :
  let s := run trace initialState in
  status (apiState s) <> connecting ->
  let s' := run [CallConnect endpoint; AttemptSettles (nextId s) (Succeeds now)] s in
  status (apiState s') = connected /\
  api s' = Some (nextId s) /\
  currentProvider s' = Some (nextId s) /\
  ConnectionManager.endpoint (apiState s') = Some (firstTarget endpoint s) /\
  lastError (apiState s') = None /\
  lastConnected (apiState s') = Some now /\
  lastSuccessfulConnection (apiState s') = Some now /\
  isLoading s' = false /\
  healthCheckInterval s' = Some HEALTH_CHECK_INTERVAL /\
  reconnectTimeout s' = None /\
  retryDelay s' = INITIAL_RETRY_DELAY /\
  attemptCount s' = attemptCount s + 1 /\
  attempts s' = attempts s /\
  openProviders s' = [firstProvider endpoint s].
Proof.
  intros s Hs s'. subst s'. cbn [run step].
  pose proof (wellFormed_reachable trace) as Hwf. fold s in Hwf.
  destruct (connect_starts endpoint s Hs)
    as (Hat & Hpr & Hcp & Hid & Hst & Hapi & Hld & Hhc & Hrt & Hrd & _).
  destruct Hwf as (Hl & Ha & _ & Ho & (Hfresh & _) & _).
  destruct (find_fresh (nextId s) (attempts s) (firstAttempt endpoint s)
              Hfresh eq_refl) as [Hfind Hfilter].
  destruct (cleanupConnection_closes s Hl Ha Ho) as (Hopen & _).
  cbv zeta in *. remember (connect endpoint s) as c eqn:Hc.
  unfold attemptSettles. rewrite Hat, Hfind, Hfilter.
  unfold setupHealthMonitoring, attemptCount, openProviders.
  cbn [healthCheckInterval withApiState setApi setEnvironment]. rewrite Hhc.
  cbn -[cleanupConnection].
  rewrite Hst, Hrt, Hcp, Hpr, filter_app.
  unfold openProviders in Hopen. rewrite Hopen.
  repeat split; reflexivity.
Qed.

Lemma connect_then_success_connects_witness :
  status (apiState
            (run [CallConnect None; AttemptSettles 1 (Succeeds 7)]
               (run [CallConnect None; AttemptSettles 0 (Fails "refused")]
                  initialState))) = connected /\
  attemptCount
    (run [CallConnect None; AttemptSettles 1 (Succeeds 7)]
       (run [CallConnect None; AttemptSettles 0 (Fails "refused")]
          initialState)) = 2.
Proof.
  pose proof (connect_then_success_connects
                [CallConnect None; AttemptSettles 0 (Fails "refused")] None 7)
    as H.
  cbv zeta in H. destruct H as (H1 & H); [discriminate|].
  split; [exact H1|]. apply H.
Defined.

(** X19. a call of [connect] whose attempt fails. There is one endpoint
    to try, so the failure ends the call: the status is "error", the error
    text is "All endpoints failed" and not the message of the failure, the
    loading flag is off, no provider is open, and the store still holds the
    client it had before the call. Below the retry cap a reconnect timer is
    armed with the current backoff delay, which is then doubled up to its
    maximum; at the cap nothing is armed. *)
Theorem connect_then_failure_gives_up
    (trace : list Event) (endpoint : option string) (message : string) :
  let s := run trace initialState in
  status (apiState s) <> connecting ->
  let s' := run [CallConnect endpoint; AttemptSettles (nextId s) (Fails message)] s in
  status (apiState s') = error /\
  lastError (apiState s') = Some "All endpoints failed"%string /\
  isLoading s' = false /\
  openProviders s' = [] /\
  currentProvider s' = None /\
  api s' = api s /\
  attempts s' = attempts s /\
  attemptCount s' = attemptCount s + 1 /\
  (attemptCount s + 1 < MAX_RETRIES ->
   reconnectTimeout s' = Some (retryDelay s) /\
   retryDelay s' = Z.min (retryDelay s * 2) MAX_RETRY_DELAY) /\
  (MAX_RETRIES <= attemptCount s + 1 ->
   reconnectTimeout s' = None /\ retryDelay s' = retryDelay s).
Proof.
  intros s Hs s'. subst s'. cbn [run step].
  pose proof (wellFormed_reachable trace) as Hwf. fold s in Hwf.
  pose proof (wellFormed_connect endpoint s Hwf) as Hwc.
  destruct (connect_starts endpoint s Hs)
    as (Hat & Hpr & Hcp & Hid & Hst & Hapi & Hld & Hhc & Hrt & Hrd & Hhk & Hel & Hca).
  destruct Hwf as (Hl & Ha & _ & Ho & (Hfresh & _) & _).
  destruct (find_fresh (nextId s) (attempts s) (firstAttempt endpoint s)
              Hfresh eq_refl) as [Hfind Hfilter].
  cbv zeta in *. remember (connect endpoint s) as c eqn:Hc.
  unfold attemptSettles. rewrite Hat, Hfind, Hfilter.
  set (c1 := withApiState (setLastError (Some message))
               (setEnvironment (providers c) (attempts s) (healthChecks c)
                  (nextId c) c)).
  assert (wellFormed c1) as Hw1.
  { apply (wellFormed_frame
             (setEnvironment (providers c) (attempts s) (healthChecks c)
                (nextId c) c)); try reflexivity.
    - apply Hwc.
    - destruct Hwc as (W1 & W2 & W3 & W4 & (_ & W5 & W6) & W7).
      split; [exact W1|]. split; [exact W2|]. split; [exact W3|].
      split; [exact W4|]. split; [|exact W7].
      split; [|split; [exact W5 | exact W6]].
      intros b Hb. specialize (Hfresh b Hb). cbn. rewrite Hid. lia. }
  destruct (wellFormed_cleanupConnection c1 Hw1) as (_ & Hopen & Hcur).
  assert (endpointsToTry (firstAttempt endpoint s) <> [] /\
          List.length (endpointsToTry (firstAttempt endpoint s)) = 1%nat) as [_ Hlen].
  { unfold firstAttempt. now destruct (truthy endpoint). }
  unfold connectLoop. rewrite Hlen. cbn [loopIndex firstAttempt Nat.ltb Nat.leb].
  remember (withApiState
              (fun a => setLastError (Some "All endpoints failed"%string)
                          (setStatus error a))
              (setLoading false (cleanupConnection c1))) as c2 eqn:Hc2def.
  assert (openProviders c2 = [] /\ currentProvider c2 = None /\
          api c2 = api s /\ attempts c2 = attempts s /\
          isLoading c2 = false /\ reconnectTimeout c2 = None /\
          retryDelay c2 = retryDelay s /\
          apiState c2
          = setLastError (Some "All endpoints failed"%string)
              (setStatus error
                 (setLastError (Some message)
                    (setConnectionAttempts (connectionAttempts (apiState s) + 1)
                       (setStatus connecting (apiState s))))))
    as (Ho2 & Hc2 & Ha2 & Hat2 & Hl2 & Hr2 & Hd2 & Hs2).
  { subst c2. subst c1. unfold openProviders in *. cbn in *.
    rewrite Hst, Hrd, Hapi. repeat split; try reflexivity; assumption. }
  destruct (scheduleReconnect_frame c2) as (F1 & F2 & F3 & _).
  unfold openProviders, attemptCount in *. rewrite F1, F2, F3.
  assert (apiState (scheduleReconnect c2) = apiState c2 /\
          api (scheduleReconnect c2) = api c2 /\
          isLoading (scheduleReconnect c2) = isLoading c2) as (G1 & G2 & G3).
  { unfold scheduleReconnect. destruct (reconnectTimeout c2); [now repeat split|].
    destruct (MAX_RETRIES <=? _); now repeat split. }
  rewrite G1, G2, G3, Hs2, Ho2, Hc2, Ha2, Hat2, Hl2. cbn.
  split; [reflexivity|]. split; [reflexivity|]. split; [reflexivity|].
  split; [reflexivity|]. split; [reflexivity|]. split; [reflexivity|].
  split; [reflexivity|]. split; [reflexivity|].
  unfold scheduleReconnect. rewrite Hr2, Hs2. cbn.
  split; intros Hcap.
  - destruct (MAX_RETRIES <=? connectionAttempts (apiState s) + 1) eqn:E;
      [apply Z.leb_le in E; lia|]. cbn. rewrite Hd2. now split.
  - destruct (MAX_RETRIES <=? connectionAttempts (apiState s) + 1) eqn:E;
      [| apply Z.leb_gt in E; lia]. rewrite Hr2, Hd2. now split.
Qed.

Lemma connect_then_failure_gives_up_witness :
  lastError (apiState
               (run [CallConnect None; AttemptSettles 0 (Fails "refused")]
                  initialState)) = Some "All endpoints failed"%string /\
  reconnectTimeout
    (run [CallConnect None; AttemptSettles 0 (Fails "refused")] initialState)
  = Some 2000.
Proof.
  pose proof (connect_then_failure_gives_up [] None "refused") as H.
  cbv zeta in H. destruct H as (_ & H1 & _ & _ & _ & _ & _ & _ & H2 & _);
    [discriminate|].
  split; [exact H1|]. apply H2. reflexivity.
Defined.

End ConnectionCalls.

Section ConnectionCalls2.
Import ConnectionManager.

Lemma truthy_idempotent (endpoint : option string) :
  truthy (truthy endpoint) = truthy endpoint.
Proof.
  destruct endpoint as [e|]; [|reflexivity]. simpl.
  destruct (e =? EmptyString)%string eqn:E; [reflexivity|]. simpl. now rewrite E.
Qed.

Lemma firstAttempt_truthy (endpoint : option string) (s : State) :
  firstAttempt (truthy endpoint) s = firstAttempt endpoint s.
Proof. unfold firstAttempt. now rewrite truthy_idempotent. Qed.

(** X20. [reconnect] starts over, whatever the state. With nothing else
    happening during its wait, it leaves the store connecting with the
    attempt counter at 1, no client, no timer, every earlier provider closed,
    and one new attempt: at the endpoint the store was last connected to if
    there is one, otherwise at the configured endpoint. Unlike [connect], it
    is not a no-op while a connection is being made. *)
Theorem reconnect_starts_over (trace : list Event) :
  let s := run trace initialState in
  let s' := reconnect [] s in
  let previous := ConnectionManager.endpoint (apiState s) in
  status (apiState s') = connecting /\
  attemptCount s' = 1 /\
  api s' = None /\
  isLoading s' = true /\
  healthCheckInterval s' = None /\
  reconnectTimeout s' = None /\
  (exists a,
     attempts s' = (attempts s ++ [a])%list /\
     attemptProvider a = nextId s /\
     targetEndpoint a
     = match truthy previous with
       | Some e => e
       | None => "wss://node01.xorion.network"%string
       end /\
     endpointsToTry a = [targetEndpoint a]) /\
  map providerId (openProviders s') = [nextId s].
Proof.
  intros s s' previous. subst s'. unfold reconnect, reconnectBegins, reconnectResumes.
  cbn [run]. fold previous.
  pose proof (wellFormed_reachable trace) as Hwf. fold s in Hwf.
  pose proof (wellFormed_disconnect s Hwf) as Hwd.
  assert (status (apiState (disconnect s)) <> connecting) as Hs by discriminate.
  destruct (connect_starts (truthy previous) (disconnect s) Hs)
    as (Hat & Hpr & Hcp & Hid & Hst & Hapi & Hld & Hhc & Hrt & _).
  cbv zeta in *. rewrite firstAttempt_truthy in Hat.
  destruct Hwd as (Hl & Ha & _ & Ho & _).
  destruct (cleanupConnection_closes (disconnect s) Hl Ha Ho) as (Hopen & _).
  remember (connect (truthy previous) (disconnect s)) as c eqn:Hc.
  unfold attemptCount, openProviders in *. rewrite Hst, Hapi, Hld, Hhc, Hrt, Hat, Hpr.
  rewrite filter_app, Hopen.
  split; [reflexivity|]. split; [reflexivity|]. split; [reflexivity|].
  split; [reflexivity|]. split; [reflexivity|]. split; [reflexivity|].
  split; [|reflexivity].
  exists (firstAttempt previous (disconnect s)).
  split; [reflexivity|]. split; [reflexivity|].
  unfold firstAttempt. destruct (truthy previous); split; reflexivity.
Qed.

Lemma healthCheck_fresh (id : nat) (old : list HealthCheck) (h : HealthCheck) :
  (forall k, In k old -> (checkId k < id)%nat) ->
  checkId h = id ->
  find (fun k => Nat.eqb (checkId k) id) (old ++ [h]) = Some h /\
  filter (fun k => negb (Nat.eqb (checkId k) id)) (old ++ [h]) = old.
Proof.
  intros Hold Hh. induction old as [|k old IH]; simpl.
  - rewrite Hh, Nat.eqb_refl. now split.
  - assert (Nat.eqb (checkId k) id = false) as Hk.
    { apply Nat.eqb_neq. specialize (Hold k (or_introl eq_refl)). lia. }
    rewrite Hk. simpl. destruct IH as [IH1 IH2].
    + intros x Hx. apply Hold. now right.
    + now rewrite IH1, IH2.
Qed.

(** X21. a health check decides the status by its round trip alone. When
    the interval is armed and the store holds a client, a tick in the status
    "connected" or "degraded" followed by the answer of the node records the
    round-trip time and leaves the status "degraded" if it took more than
    1000 ms and "connected" otherwise; the attempt counter and the timers are
    not touched. In any other status the tick does nothing. *)
Theorem health_check_sets_status_by_latency (trace : list Event) (elapsed : Z) :
  let s := run trace initialState in
  (healthCheckInterval s <> None -> api s <> None ->
   status (apiState s) = connected \/ status (apiState s) = degraded ->
   let s' := run [HealthTick; HealthCheckSettles (nextId s) (RoundTrip elapsed)] s in
   status (apiState s') = (if MAX_LATENCY <? elapsed then degraded else connected) /\
   latency (apiState s') = Some elapsed /\
   attemptCount s' = attemptCount s /\
   reconnectTimeout s' = reconnectTimeout s /\
   healthCheckInterval s' = healthCheckInterval s /\
   healthChecks s' = healthChecks s) /\
  (status (apiState s) <> connected -> status (apiState s) <> degraded ->
   step HealthTick s = s).
Proof.
  intros s. split.
  - intros Hint Hapi Hst s'. subst s'. cbn [run step].
    pose proof (wellFormed_reachable trace) as Hwf. fold s in Hwf.
    destruct Hwf as (_ & _ & _ & _ & (_ & _ & Hfresh) & _).
    unfold healthTick.
    destruct (healthCheckInterval s) as [interval|] eqn:Ei; [|contradiction].
    destruct (api s) as [client|] eqn:Ea; [|contradiction].
    assert (Status_eqb (status (apiState s)) connected
            || Status_eqb (status (apiState s)) degraded = true) as Hguard.
    { destruct Hst as [-> | ->]; reflexivity. }
    rewrite Hguard.
    destruct (healthCheck_fresh (nextId s) (healthChecks s)
                {| checkId := nextId s; seenStatus := status (apiState s) |}
                Hfresh eq_refl) as [Hfind Hfilter].
    unfold healthCheckSettles.
    cbn [healthChecks setEnvironment]. rewrite Hfind, Hfilter.
    cbn [seenStatus]. unfold attemptCount.
    destruct (MAX_LATENCY <? elapsed);
      destruct Hst as [Hst | Hst]; rewrite Hst; cbn;
      rewrite ?Hst, ?Ei; repeat split; reflexivity.
  - intros Hc Hd. cbn [step]. unfold healthTick.
    destruct (healthCheckInterval s), (api s); try reflexivity.
    destruct (status (apiState s)); try reflexivity; contradiction.
Qed.

Lemma health_check_sets_status_by_latency_witness :
  status (apiState
            (run [HealthTick; HealthCheckSettles 1 (RoundTrip 1500)]
               (run connectThenDisconnect initialState))) = disconnected /\
  status (apiState
            (run [HealthTick; HealthCheckSettles 1 (RoundTrip 1500)]
               (run [CallConnect None; AttemptSettles 0 (Succeeds 7)]
                  initialState))) = degraded.
Proof.
  split; [reflexivity|].
  pose proof (health_check_sets_status_by_latency
                [CallConnect None; AttemptSettles 0 (Succeeds 7)] 1500) as [H _].
  cbv zeta in H. apply H; [discriminate | discriminate | now left].
Defined.

End ConnectionCalls2.

(** ** The fetching actions *)

Section ActionFacts.
Import Actions.

(** X22. what a lookup leaves in the store. Connected, the loading flag
    is off when the lookup has settled, and there is no error exactly when
    the transaction was found. A lookup that finds nothing, that fails, or
    that is made while not connected sets an error and keeps the details that
    were in the store before it; made while not connected it also leaves the
    loading flag as it was. *)
Theorem lookup_that_fails_keeps_earlier_details
    (c : ConnectionManager.State) (query : js (option Store.TransactionDetails))
    (s : Details) :
  let s' := fetchTransactionDetails c query s in
  (notConnected c = false ->
   isDetailsLoading s' = false /\
   (detailsError s' = None <-> exists d, query = Returns (Some d)) /\
   (forall d, query = Returns (Some d) -> transactionDetails s' = Some d)) /\
  (notConnected c = true \/ (forall d, query <> Returns (Some d)) ->
   transactionDetails s' = transactionDetails s /\ detailsError s' <> None) /\
  (notConnected c = true ->
   isDetailsLoading s' = isDetailsLoading s /\
   detailsError s' = Some "Not connected to network"%string).
Proof.
  intros s'. subst s'.
  unfold fetchTransactionDetails, fetchTransactionDetailsBegins,
    fetchTransactionDetailsSettles.
  destruct (notConnected c); cbn.
  - split; [discriminate|]. split; [|now split]. intros _. split; [reflexivity|].
    discriminate.
  - split; [intros _ | split; [|discriminate]].
    + destruct query as [[d|]|message]; cbn.
      * split; [reflexivity|]. split; [split; eauto|]. now intros d' [= <-].
      * split; [reflexivity|]. split; [|discriminate].
        split; [discriminate | intros [d [=]]].
      * split; [reflexivity|]. split; [|discriminate].
        split; [discriminate | intros [d [=]]].
    + intros [[=] | Hnone].
      destruct query as [[d|]|message]; cbn.
      * now elim (Hnone d).
      * split; [reflexivity | discriminate].
      * split; [reflexivity | discriminate].
Qed.

Lemma lookup_that_fails_keeps_earlier_details_witness :
  isDetailsLoading
    (fetchTransactionDetails ConnectionManager.initialState (Returns None)
       initialDetails) = true /\
  detailsError
    (fetchTransactionDetails ConnectionManager.initialState (Returns None)
       initialDetails) = Some "Not connected to network"%string.
Proof.
  pose proof (lookup_that_fails_keeps_earlier_details
                ConnectionManager.initialState (Returns None) initialDetails) as H.
  cbv zeta in H. destruct H as (_ & _ & H). exact (H eq_refl).
Defined.

(** X23. the time stamp of the transaction data is always the clock.
    [setTransactionData] stores the reading of the clock whatever
    [lastUpdated] its argument carries, so the zero that
    [refreshTransactionData] writes is never in the store. A refresh ends
    with both flags off; made while not connected it leaves the lists empty,
    stamped with the time of the refresh and not with zero. *)
Theorem refresh_stamps_the_clock_not_zero
    (c : ConnectionManager.State) (query : js Store.TransactionData)
    (cleared now now' : Z) (s : Recent) :
  (forall updates clock r,
     Store.lastUpdated (transactionData (setTransactionData updates clock r))
     = clock) /\
  let s' := refreshTransactionData c query cleared now now' s in
  isTransactionLoading s' = false /\
  isTransactionFetching s' = false /\
  (notConnected c = true ->
   transactionData s' = Store.emptyTransactionData cleared) /\
  (notConnected c = false ->
   Store.lastUpdated (transactionData s') = now' /\
   (forall d, query = Returns d ->
      Store.transactions (transactionData s') = Store.transactions d /\
      Store.blocks (transactionData s') = Store.blocks d) /\
   (forall e, query = Throws e ->
      Store.transactions (transactionData s') = [] /\
      Store.blocks (transactionData s') = [])).
Proof.
  split; [reflexivity|]. intros s'. subst s'.
  unfold refreshTransactionData, fetchTransactionData,
    fetchTransactionDataBegins, fetchTransactionDataSettles.
  destruct (notConnected c); cbn.
  - repeat split; discriminate.
  - destruct query as [d|e]; cbn.
    + split; [reflexivity|]. split; [reflexivity|]. split; [discriminate|].
      intros _. split; [reflexivity|]. split.
      * now intros d' [= <-].
      * discriminate.
    + split; [reflexivity|]. split; [reflexivity|]. split; [discriminate|].
      intros _. split; [reflexivity|]. split; [discriminate|]. now intros.
Qed.

Lemma refresh_stamps_the_clock_not_zero_witness :
  transactionData
    (refreshTransactionData ConnectionManager.initialState (Throws "unused")
       1700 1701 1702 initialRecent)
  = Store.emptyTransactionData 1700.
Proof.
  pose proof (refresh_stamps_the_clock_not_zero ConnectionManager.initialState
                (Throws "unused") 1700 1701 1702 initialRecent) as [_ H].
  cbv zeta in H. destruct H as (_ & _ & H & _). exact (H eq_refl).
Defined.

Lemma validatorInfoOf_cases (q : StakingQueries) (codec : Chain.Codec) :
  let v := validatorInfoOf q codec in
  address v = Chain.toString codec /\
  nominators v = 0 /\
  totalStake v = "0"%string /\
  ((validatorStatus v = "active"%string /\
    exists perbill ledger,
      stakingValidators q (Chain.toString codec) = Returns perbill /\
      stakingLedger q (Chain.toString codec) = Returns ledger /\
      commission v = Double.div (Double.ofZ perbill) (Double.ofZ 10000000) /\
      selfBonded v = match ledger with
                     | Some active => Chain.toString active
                     | None => "0"%string
                     end) \/
   (validatorStatus v = "unknown"%string /\
    commission v = Double.ofZ 0 /\
    selfBonded v = "0"%string /\
    ((exists e, stakingValidators q (Chain.toString codec) = Throws e) \/
     (exists e, stakingLedger q (Chain.toString codec) = Throws e)))).
Proof.
  intros v. subst v. unfold validatorInfoOf.
  destruct (stakingValidators q (Chain.toString codec)) as [perbill|e] eqn:Hv.
  - destruct (stakingLedger q (Chain.toString codec)) as [ledger|e] eqn:Hl; cbn.
    + repeat split. left. split; [reflexivity|]. now exists perbill, ledger.
    + repeat split. right. repeat split. right. now exists e.
  - cbn. repeat split. right. repeat split. left. now exists e.
Qed.

(** X24. the validators query lists the first ten validators of the
    session, in their order, and never more. A validator whose preferences
    or ledger cannot be read is still listed, as "unknown" with commission 0
    and nothing bonded: one failing validator does not fail the query. The
    query fails only when the list of session validators cannot be read. *)
Theorem validators_query_lists_the_first_ten (q : StakingQueries) :
  (forall e, sessionValidators q = Throws e -> validatorsQuery q = Throws e) /\
  (forall addresses,
     sessionValidators q = Returns addresses ->
     exists infos,
       validatorsQuery q = Returns infos /\
       (List.length infos <= 10)%nat /\
       map address infos = map Chain.toString (firstn 10 addresses) /\
       forall v, In v infos ->
         nominators v = 0 /\
         totalStake v = "0"%string /\
         ((validatorStatus v = "active"%string /\
           exists perbill ledger,
             stakingValidators q (address v) = Returns perbill /\
             stakingLedger q (address v) = Returns ledger /\
             commission v
             = Double.div (Double.ofZ perbill) (Double.ofZ 10000000) /\
             selfBonded v = match ledger with
                            | Some active => Chain.toString active
                            | None => "0"%string
                            end) \/
          (validatorStatus v = "unknown"%string /\
           commission v = Double.ofZ 0 /\
           selfBonded v = "0"%string /\
           ((exists e, stakingValidators q (address v) = Throws e) \/
            (exists e, stakingLedger q (address v) = Throws e))))).
Proof.
  unfold validatorsQuery. split.
  - intros e ->. reflexivity.
  - intros addresses ->. cbn [bind]. eexists. split; [reflexivity|].
    split; [|split].
    + rewrite length_map. apply firstn_le_length.
    + rewrite map_map. apply map_ext. intros codec.
      apply (validatorInfoOf_cases q codec).
    + intros v Hv. apply in_map_iff in Hv. destruct Hv as [codec [<- _]].
      destruct (validatorInfoOf_cases q codec) as (Ha & Hn & Ht & Hcases).
      rewrite Ha. split; [exact Hn|]. split; [exact Ht | exact Hcases].
Qed.

End ActionFacts.

(** ** The wallet's network *)

Section WalletFacts.
Import Wallet.

Lemma expectedChainId_is_0x38 : expectedChainId = "0x38"%string.
Proof. reflexivity. Qed.

Lemma isUnrecognizedChain_iff (code : option Z) :
  isUnrecognizedChain code = true <-> code = Some 4902.
Proof.
  destruct code as [c|]; simpl; [|split; discriminate].
  rewrite Z.eqb_eq. split; congruence.
Qed.

(** X25. the requests of [ensureBSCNetwork]. It asks the wallet for its
    chain, then at most once to switch to chain "0x38", then at most once to
    add that chain, in this order. It asks to add the chain exactly when the
    switch was rejected with code 4902. A wallet that is already on "0x38"
    gets the one question. Any other rejection of the switch is swallowed:
    the promise resolves although the wallet is on another chain. The
    promise rejects only with the rejection of the chain question or of the
    request to add the chain. Without a wallet nothing is asked. *)
Theorem ensureBSCNetwork_asks_in_order (ethereum : option Ethereum) :
  let requests := fst (ensureBSCNetwork ethereum) in
  let settled := snd (ensureBSCNetwork ethereum) in
  (exists k,
     requests
     = firstn k [EthChainId; SwitchEthereumChain "0x38";
                 AddEthereumChain bscParameters]) /\
  (In (AddEthereumChain bscParameters) requests
   <-> exists wallet answer message,
         ethereum = Some wallet /\
         ethChainId wallet = Resolves answer /\
         isExpected answer = false /\
         switchEthereumChain wallet "0x38" = Rejects (Some 4902) message) /\
  (forall wallet,
     ethereum = Some wallet ->
     ethChainId wallet = Resolves (Some "0x38"%string) ->
     requests = [EthChainId] /\ settled = Resolves tt) /\
  (forall wallet answer code message,
     ethereum = Some wallet ->
     ethChainId wallet = Resolves answer ->
     switchEthereumChain wallet "0x38" = Rejects code message ->
     code <> Some 4902 ->
     settled = Resolves tt) /\
  (forall code message,
     settled = Rejects code message ->
     exists wallet,
       ethereum = Some wallet /\
       (ethChainId wallet = Rejects code message \/
        addEthereumChain wallet bscParameters = Rejects code message)) /\
  (ethereum = None -> requests = [] /\ settled = Resolves tt).
Proof.
  intros requests settled. subst requests settled.
  unfold ensureBSCNetwork. rewrite expectedChainId_is_0x38.
  destruct ethereum as [wallet|]; cbn [fst snd].
  2:{ split; [now exists 0%nat|]. split.
      - split; [intros [] | intros (w & a & m & [=] & _)].
      - repeat split; try discriminate. }
  destruct (ethChainId wallet) as [answer|code message] eqn:Hid; cbn [fst snd].
  2:{ split; [now exists 1%nat|]. split.
      - split; [intros [[=] | []] | intros (w & a & m & [= <-] & H & _)].
        congruence.
      - split; [intros w [= <-]; congruence|].
        split; [intros w a c m [= <-]; congruence|].
        split; [|discriminate].
        intros c m [= <- <-]. exists wallet. split; [reflexivity | now left]. }
  destruct (isExpected answer) eqn:Hexp; cbn [fst snd].
  - split; [now exists 1%nat|]. split.
    + split; [intros [[=] | []] | intros (w & a & m & [= <-] & H & H' & _)].
      congruence.
    + split; [now intros|]. split; [now intros|]. split; discriminate.
  - destruct (switchEthereumChain wallet "0x38") as [u|code message] eqn:Hsw;
      cbn [fst snd].
    + split; [now exists 2%nat|]. split.
      * split; [intros [[=] | [[=] | []]] |].
        intros (w & a & m & [= <-] & _ & _ & H). congruence.
      * split; [intros w [= <-] H; rewrite Hid in H; injection H as ->;
                discriminate|].
        split; [now intros|]. split; discriminate.
    + destruct (isUnrecognizedChain code) eqn:Hcode.
      * apply isUnrecognizedChain_iff in Hcode. subst code.
        unfold addBSCToWallet. cbn [fst snd app].
        split; [now exists 3%nat|]. split.
        -- split; [intros _ | intros _; right; right; now left].
           now exists wallet, answer, message.
        -- split; [intros w [= <-] H; rewrite Hid in H; injection H as ->;
                   discriminate|].
           split; [intros w a c m [= <-] _ H; rewrite Hsw in H; congruence|].
           split; [|discriminate].
           intros c m H. exists wallet. split; [reflexivity | now right].
      * cbn [fst snd]. split; [now exists 2%nat|]. split.
        -- split; [intros [[=] | [[=] | []]] |].
           intros (w & a & m & [= <-] & _ & _ & H). rewrite Hsw in H.
           injection H as -> _. discriminate.
        -- split; [intros w [= <-] H; rewrite Hid in H; injection H as ->;
                   discriminate|].
           split; [now intros|]. split; discriminate.
Qed.

End WalletFacts.
